(** * video-resize: the transcoding pipeline of [main.c]

    A shallow embedding of the orchestration code of [main.c] (the stream
    mapper, the codec-context factory, the decode/encode pull loops, the copy
    forwarder and the output writer) together with the properties of the
    pipeline that the specification states.

    The program is a client of libavcodec / libavformat.  The library is
    modelled as an interface ([LibAV]): every call the program makes is a
    function of a library-internal state [Env], so that the n-th answer of a
    call may differ from the previous one.  The program itself is written in
    a state monad over a [World] that carries that state, the chronological
    trace of library calls, the lines printed on standard output and the
    allocator of codec contexts. *)

From Stdlib Require Import ZArith Lia.
From Stdlib.Strings Require Import Byte.
From stdpp Require Import base option list strings.

Local Open Scope Z_scope.

(** ** Data model: the libav structs, restricted to the fields the program
    reads or writes. *)

Record AVRational := mkRational { num : Z; den : Z }.

(** [enum AVMediaType] of libavutil. *)
Inductive AVMediaType :=
| AVMEDIA_TYPE_UNKNOWN
| AVMEDIA_TYPE_VIDEO
| AVMEDIA_TYPE_AUDIO
| AVMEDIA_TYPE_DATA
| AVMEDIA_TYPE_SUBTITLE
| AVMEDIA_TYPE_ATTACHMENT.

Global Instance AVMediaType_eq_dec : EqDecision AVMediaType.
Proof. solve_decision. Defined.

Record AVCodec := mkCodec { cd_name : string; cd_id : Z }.

Record AVCodecParameters := mkParameters {
  codec_type : AVMediaType;
  codec_id : Z;
  par_fields : list Z   (* every other field, uninterpreted *)
}.

Record AVStream := mkStream {
  codecpar : AVCodecParameters;
  time_base : AVRational
}.

Record AVPacket := mkPacket {
  stream_index : Z;
  pts : Z;
  dts : Z;
  duration : Z;
  data : list byte;     (* the payload *)
  flags : Z;
  pos : Z
}.

Record AVFrame := mkFrame {
  frame_pts : Z;
  frame_data : list byte
}.

(** A codec context.  Besides the configuration fields that
    [create_encode_context] assigns, it holds what a receive call can hand
    out: the outputs that are ready (frames for a decoder, packets for an
    encoder) and the error number that the receive call reports once nothing
    is ready ([AVERROR(EAGAIN)], [AVERROR_EOF], or a real error). *)
Record AVCodecContext := mkContext {
  width : Z;
  height : Z;
  sample_aspect_ratio : AVRational;
  pix_fmt : Z;
  bit_rate : Z;
  ctx_time_base : AVRational;
  ready_frames : list AVFrame;
  ready_packets : list AVPacket;
  empty_errno : positive
}.

(** A non-NULL [AVCodecContext *]: the address and the object it points to.
    NULL is [None]. *)
Record ctx_ptr := mkPtr { addr : nat; deref : AVCodecContext }.

(** A format context: the stream table and, for an input, the coded units
    that [av_read_frame] has still to deliver followed by the error number
    it reports after the last one. *)
Record AVFormatContext := mkFormat {
  streams : list AVStream;
  packets : list AVPacket;
  read_errno : positive
}.

(** ** Constants of the libav headers *)

(** [AVERROR(e)] negates a POSIX error number. *)
Definition AVERROR (e : positive) : Z := Z.neg e.

Definition EAGAIN : positive := 11%positive.

(** [FFERRTAG('E','O','F',' ')], the tag behind [AVERROR_EOF]. *)
Definition EOF_TAG : positive := 541478725%positive.
Definition AVERROR_EOF : Z := AVERROR EOF_TAG.

(** [avformat_write_header] answers [AVSTREAM_INIT_IN_WRITE_HEADER] or
    [AVSTREAM_INIT_IN_INIT_OUTPUT] on success and a negative code on
    failure. *)
Definition AVSTREAM_INIT_IN_WRITE_HEADER : Z := 0.
Definition AVSTREAM_INIT_IN_INIT_OUTPUT : Z := 1.

(** [AV_NOPTS_VALUE] is [INT64_MIN]. *)
Definition AV_NOPTS_VALUE : Z := - 2 ^ 63.

Definition av_inv_q (q : AVRational) : AVRational :=
  {| num := den q; den := num q |}.

(** The value stored in the stream index map for a stream that is not
    carried over. *)
Definition DROPPED : Z := -1.

(** ** The trace of library calls *)

Inductive Event :=
| EvAllocContext (a : nat) (codec : AVCodec)
| EvAllocFailed (codec : AVCodec)
| EvFreeContext (a : nat)
| EvParametersToContext (a : nat) (status : Z)
| EvOpen (a : nat) (ctx : AVCodecContext) (codec : AVCodec) (status : Z)
| EvSendPacket (a : nat) (pkt : option AVPacket) (status : Z)
| EvReceiveFrame (a : nat) (status : Z)
| EvSendFrame (a : nat) (frame : option AVFrame) (status : Z)
| EvReceivePacket (a : nat) (status : Z)
| EvWriteFrame (pkt : AVPacket) (status : Z)
| EvWriteHeader (status : Z)
| EvWriteTrailer (status : Z)
| EvReadFrame (status : Z)
| EvNewStream (created : bool)
| EvParametersFromContext (a : nat) (status : Z)
| EvParametersCopy (status : Z).

(** ** The library interface *)

Class LibAV := {
  Env : Type;
  av_strerror : Z → string;
  av_rescale_q : Z → AVRational → AVRational → Z;
  av_guess_frame_rate : AVFormatContext → AVStream → AVRational;
  avcodec_find_decoder : Z → option AVCodec;
  alloc_context3_impl : Env → AVCodec → option AVCodecContext * Env;
  parameters_to_context_impl :
    Env → AVCodecContext → AVCodecParameters → Z * AVCodecContext * Env;
  open2_impl : Env → nat → AVCodecContext → AVCodec → Z * AVCodecContext * Env;
  send_packet_impl :
    Env → nat → AVCodecContext → option AVPacket → Z * AVCodecContext * Env;
  send_frame_impl :
    Env → nat → AVCodecContext → option AVFrame → Z * AVCodecContext * Env;
  interleaved_write_frame_impl : Env → AVFormatContext → AVPacket → Z * Env;
  write_header_impl : Env → AVFormatContext → Z * Env;
  write_trailer_impl : Env → AVFormatContext → Z * Env;
  new_stream_impl : Env → AVFormatContext → option AVStream * Env;
  parameters_from_context_impl :
    Env → AVCodecParameters → AVCodecContext → Z * AVCodecParameters * Env;
  parameters_copy_impl :
    Env → AVCodecParameters → AVCodecParameters → Z * AVCodecParameters * Env;
  (* av_packet_alloc and av_frame_alloc: whether the answer is not NULL *)
  packet_alloc_impl : Env → bool * Env;
  frame_alloc_impl : Env → bool * Env
}.

(** The line feed that ends some of the descriptions of [main.c]. *)
Definition nl : string := String (Ascii.ascii_of_nat 10) EmptyString.

Section Program.
Context {L : LibAV}.

(** ** The world and its monad *)

Record World := mkWorld {
  env : Env;
  trace : list Event;       (* library calls, oldest first *)
  stdout : list string;     (* printed lines, oldest first *)
  next_addr : nat           (* next address the allocator hands out *)
}.

Definition M (A : Type) : Type := World → A * World.

Definition ret {A} (a : A) : M A := λ w, (a, w).

Definition bind {A B} (m : M A) (k : A → M B) : M B :=
  λ w, let (a, w1) := m w in k a w1.

Notation "'let*' p ':=' m 'in' k" := (bind m (λ p, k))
  (at level 10, p pattern, m at level 100, k at level 200).
Notation "m ;;; k" := (bind m (λ _, k))
  (at level 100, right associativity).

Definition log (e : Event) : M unit :=
  λ w, (tt, mkWorld (env w) (trace w ++ [e]) (stdout w) (next_addr w)).

(** [printf] of one line; the final line feed is not stored. *)
Definition printf (line : string) : M unit :=
  λ w, (tt, mkWorld (env w) (trace w) (stdout w ++ [line]) (next_addr w)).

(** A call into the library: the answer, with the new library state. *)
Definition call {A} (f : Env → A * Env) : M A :=
  λ w, let (a, e) := f (env w) in
       (a, mkWorld e (trace w) (stdout w) (next_addr w)).

Definition fresh_addr : M nat :=
  λ w, (next_addr w,
        mkWorld (env w) (trace w) (stdout w) (S (next_addr w))).

(** ** The library calls of the program

    Each call threads the library state and records itself in the trace.
    The receive calls follow the contract of libavcodec's send/receive API:
    they answer 0 together with an output, or a negative [AVERROR] code and
    no output.  What a codec can hand out after a submission is a finite
    queue kept in the context, which the send call (an arbitrary function
    of the library) fills and the receive call pops; [av_read_frame] does
    the same with the coded units of the input file. *)

Definition set_queues (c : AVCodecContext) (fs : list AVFrame)
    (ps : list AVPacket) : AVCodecContext :=
  mkContext (width c) (height c) (sample_aspect_ratio c) (pix_fmt c)
    (bit_rate c) (ctx_time_base c) fs ps (empty_errno c).

Definition avcodec_send_packet (cc : ctx_ptr) (pkt : option AVPacket)
    : M (Z * ctx_ptr) :=
  let* (r, c) := call (λ e, send_packet_impl e (addr cc) (deref cc) pkt) in
  log (EvSendPacket (addr cc) pkt r) ;;;
  ret (r, mkPtr (addr cc) c).

Definition avcodec_send_frame (cc : ctx_ptr) (frame : option AVFrame)
    : M (Z * ctx_ptr) :=
  let* (r, c) := call (λ e, send_frame_impl e (addr cc) (deref cc) frame) in
  log (EvSendFrame (addr cc) frame r) ;;;
  ret (r, mkPtr (addr cc) c).

(** [avcodec_receive_frame]: the oldest ready frame with status 0, or
    [AVERROR(empty_errno)] when none is ready. *)
Definition avcodec_receive_frame (cc : ctx_ptr)
    : M (Z * option AVFrame * ctx_ptr) :=
  match ready_frames (deref cc) with
  | [] =>
      let r := AVERROR (empty_errno (deref cc)) in
      log (EvReceiveFrame (addr cc) r) ;;; ret (r, None, cc)
  | f :: fs =>
      log (EvReceiveFrame (addr cc) 0) ;;;
      ret (0, Some f,
           mkPtr (addr cc)
             (set_queues (deref cc) fs (ready_packets (deref cc))))
  end.

(** [avcodec_receive_packet], likewise for an encoder. *)
Definition avcodec_receive_packet (cc : ctx_ptr)
    : M (Z * option AVPacket * ctx_ptr) :=
  match ready_packets (deref cc) with
  | [] =>
      let r := AVERROR (empty_errno (deref cc)) in
      log (EvReceivePacket (addr cc) r) ;;; ret (r, None, cc)
  | p :: ps =>
      log (EvReceivePacket (addr cc) 0) ;;;
      ret (0, Some p,
           mkPtr (addr cc)
             (set_queues (deref cc) (ready_frames (deref cc)) ps))
  end.

Definition av_interleaved_write_frame (outfc : AVFormatContext)
    (pkt : AVPacket) : M Z :=
  let* r := call (λ e, interleaved_write_frame_impl e outfc pkt) in
  log (EvWriteFrame pkt r) ;;;
  ret r.

(** [av_packet_rescale_ts] of libavcodec: the time fields that are set are
    converted, nothing else is touched. *)
Definition av_packet_rescale_ts (pkt : AVPacket) (src_tb dst_tb : AVRational)
    : AVPacket :=
  mkPacket (stream_index pkt)
    (if decide (pts pkt = AV_NOPTS_VALUE) then pts pkt
     else av_rescale_q (pts pkt) src_tb dst_tb)
    (if decide (dts pkt = AV_NOPTS_VALUE) then dts pkt
     else av_rescale_q (dts pkt) src_tb dst_tb)
    (if decide (0 < duration pkt) then av_rescale_q (duration pkt) src_tb dst_tb
     else duration pkt)
    (data pkt) (flags pkt) (pos pkt).

Definition set_stream_index (pkt : AVPacket) (i : Z) : AVPacket :=
  mkPacket i (pts pkt) (dts pkt) (duration pkt) (data pkt) (flags pkt)
    (pos pkt).

(** [av_read_frame]: the next coded unit of the input with status 0, or
    [AVERROR(read_errno)] after the last one. *)
Definition av_read_frame (infc : AVFormatContext)
    : M (Z * option AVPacket * AVFormatContext) :=
  match packets infc with
  | [] =>
      let r := AVERROR (read_errno infc) in
      log (EvReadFrame r) ;;; ret (r, None, infc)
  | p :: ps =>
      log (EvReadFrame 0) ;;;
      ret (0, Some p, mkFormat (streams infc) ps (read_errno infc))
  end.

Definition avformat_write_header (outfc : AVFormatContext) : M Z :=
  let* r := call (λ e, write_header_impl e outfc) in
  log (EvWriteHeader r) ;;;
  ret r.

Definition av_write_trailer (outfc : AVFormatContext) : M Z :=
  let* r := call (λ e, write_trailer_impl e outfc) in
  log (EvWriteTrailer r) ;;;
  ret r.

(** [avcodec_alloc_context3]: NULL, or a context at a fresh address. *)
Definition avcodec_alloc_context3 (codec : AVCodec) : M (option ctx_ptr) :=
  let* r := call (λ e, alloc_context3_impl e codec) in
  match r with
  | None => log (EvAllocFailed codec) ;;; ret None
  | Some c =>
      let* a := fresh_addr in
      log (EvAllocContext a codec) ;;;
      ret (Some (mkPtr a c))
  end.

(** [avcodec_free_context(&p)]: frees [*p] unless it is NULL, and sets it
    to NULL. *)
Definition avcodec_free_context (p : option ctx_ptr) : M (option ctx_ptr) :=
  match p with
  | None => ret None
  | Some cc => log (EvFreeContext (addr cc)) ;;; ret None
  end.

Definition avcodec_parameters_to_context (cc : ctx_ptr)
    (par : AVCodecParameters) : M (Z * ctx_ptr) :=
  let* (r, c) := call (λ e, parameters_to_context_impl e (deref cc) par) in
  log (EvParametersToContext (addr cc) r) ;;;
  ret (r, mkPtr (addr cc) c).

(** [avcodec_open2]; the trace keeps the context as it is handed over. *)
Definition avcodec_open2 (cc : ctx_ptr) (codec : AVCodec) : M (Z * ctx_ptr) :=
  let* (r, c) := call (λ e, open2_impl e (addr cc) (deref cc) codec) in
  log (EvOpen (addr cc) (deref cc) codec r) ;;;
  ret (r, mkPtr (addr cc) c).

(** [avformat_new_stream]: NULL, or a new last entry of the stream table. *)
Definition avformat_new_stream (fc : AVFormatContext)
    : M (option AVStream * AVFormatContext) :=
  let* r := call (λ e, new_stream_impl e fc) in
  match r with
  | None => log (EvNewStream false) ;;; ret (None, fc)
  | Some st =>
      log (EvNewStream true) ;;;
      ret (Some st, mkFormat (streams fc ++ [st]) (packets fc) (read_errno fc))
  end.

Definition avcodec_parameters_from_context (par : AVCodecParameters)
    (cc : ctx_ptr) : M (Z * AVCodecParameters) :=
  let* (r, par') := call (λ e, parameters_from_context_impl e par (deref cc)) in
  log (EvParametersFromContext (addr cc) r) ;;;
  ret (r, par').

Definition avcodec_parameters_copy (dst src : AVCodecParameters)
    : M (Z * AVCodecParameters) :=
  let* (r, par') := call (λ e, parameters_copy_impl e dst src) in
  log (EvParametersCopy r) ;;;
  ret (r, par').

(** [av_packet_alloc] and [av_frame_alloc]: whether the object was
    allocated; [false] is the answer NULL.  The trace keeps the codec and
    container calls and has no event for these two. *)
Definition av_packet_alloc : M bool := call packet_alloc_impl.

Definition av_frame_alloc : M bool := call frame_alloc_impl.

(** ** Arrays

    A C array is a list; reading or writing outside of it is undefined
    behaviour, which the functions below report instead of a result. *)

Definition at_index {A} (l : list A) (i : Z) : option A :=
  if decide (0 ≤ i) then l !! Z.to_nat i else None.

Definition store {A} (l : list A) (i : nat) (x : A) : option (list A) :=
  if decide (i < length l)%nat then Some (<[i:=x]> l) else None.

(** The three tables that [create_streams_and_transcode] allocates, one
    entry per input stream. *)
Record Tables := mkTables {
  out_stream_indices : list Z;
  in_codec_contexts : list (option ctx_ptr);
  out_codec_contexts : list (option ctx_ptr)
}.

(** ** [main.c]

    The functions below follow [main.c] statement by statement.  Pointer
    parameters to objects the callee changes become arguments and results.
    Of the scratch [AVPacket] and [AVFrame] that [write_body] allocates
    and the callees reuse, the model keeps whether they are NULL: their
    content is overwritten by every read and receive call, and
    [av_packet_unref] / [av_frame_unref] only release their buffers.  The
    counters [i] and [stream_count] stay far below [INT_MAX], libavformat
    bounding the number of streams, so they are unbounded integers here. *)

Definition print_error (description : string) (errnum : Z) : M unit :=
  printf (description +:+ ": " +:+ av_strerror errnum).

Definition write_packet (outfc : AVFormatContext) (packet : AVPacket)
    (in_stream out_stream : AVStream) (out_stream_index : Z) : M Z :=
  let packet := set_stream_index packet out_stream_index in
  let packet :=
    av_packet_rescale_ts packet (time_base in_stream) (time_base out_stream) in
  let* reason := av_interleaved_write_frame outfc packet in
  if decide (reason ≠ 0) then
    print_error "Failed to write frame" reason ;;;
    ret (-1)
  else ret 0.

(** The pull loop of [encode_frame_and_send].  It is structural in the
    packets that are ready in [outcc]: writing a packet does not touch the
    encoder, so the n-th call of [avcodec_receive_packet] pops the n-th of
    them, and the call after the last answers [AVERROR(empty_errno)].
    [reason] is the C variable of that name. *)
Fixpoint encode_pull_loop (outfc : AVFormatContext) (a : nat)
    (c : AVCodecContext) (queue : list AVPacket) (reason : Z)
    (in_stream out_stream : AVStream) (out_stream_index : Z)
    : M (Z * ctx_ptr) :=
  let* (packet_reason, got, outcc) :=
    avcodec_receive_packet (mkPtr a (set_queues c (ready_frames c) queue)) in
  match queue with
  | [] =>
      if decide (packet_reason ≠ AVERROR_EOF ∧ packet_reason ≠ AVERROR EAGAIN)
      then
        print_error "Failed to receive encode packets" reason ;;;
        ret (-1, outcc)
      else ret (0, outcc)
  | packet :: rest =>
      let* reason := write_packet outfc packet in_stream out_stream
                  out_stream_index in
      if decide (reason ≠ 0) then ret (reason, outcc)
      else
        encode_pull_loop outfc a c rest reason in_stream out_stream
          out_stream_index
  end.

Definition encode_frame_and_send (outfc : AVFormatContext) (outcc : ctx_ptr)
    (frame : AVFrame) (in_stream out_stream : AVStream)
    (out_stream_index : Z) : M (Z * ctx_ptr) :=
  let* (reason, outcc) := avcodec_send_frame outcc (Some frame) in
  if decide (reason ≠ 0) then
    print_error "Failed to send encode frame" reason ;;;
    ret (-1, outcc)
  else
    encode_pull_loop outfc (addr outcc) (deref outcc)
      (ready_packets (deref outcc)) reason in_stream out_stream
      out_stream_index.

(** The pull loop of [transcode], structural in the frames that are ready
    in [incc].  The result of [encode_frame_and_send] is dropped, as in
    line 64 of [main.c]; only the encoder it leaves behind is kept. *)
Fixpoint decode_pull_loop (outfc : AVFormatContext) (a : nat)
    (c : AVCodecContext) (queue : list AVFrame) (outcc : ctx_ptr)
    (reason : Z) (in_stream out_stream : AVStream) (out_stream_index : Z)
    : M (Z * ctx_ptr * ctx_ptr) :=
  let* (frame_reason, got, incc) :=
    avcodec_receive_frame (mkPtr a (set_queues c queue (ready_packets c))) in
  match queue with
  | [] =>
      if decide (frame_reason ≠ AVERROR_EOF ∧ frame_reason ≠ AVERROR EAGAIN)
      then
        print_error "Failed to receive decode frames" reason ;;;
        ret (-1, incc, outcc)
      else ret (0, incc, outcc)
  | frame :: rest =>
      let* (_, outcc) := encode_frame_and_send outfc outcc frame in_stream
                       out_stream out_stream_index in
      decode_pull_loop outfc a c rest outcc reason in_stream out_stream
        out_stream_index
  end.

Definition transcode (outfc : AVFormatContext) (incc outcc : ctx_ptr)
    (packet : AVPacket) (in_stream out_stream : AVStream)
    (out_stream_index : Z) : M (Z * ctx_ptr * ctx_ptr) :=
  let* (reason, incc) := avcodec_send_packet incc (Some packet) in
  if decide (reason ≠ 0) then
    print_error "Failed to send decode packet" reason ;;;
    ret (-1, incc, outcc)
  else
    decode_pull_loop outfc (addr incc) (deref incc)
      (ready_frames (deref incc)) outcc reason in_stream out_stream
      out_stream_index.

(** [transcode] called with NULL for its scratch frame, which
    [write_body] does when [av_frame_alloc] failed.  Lines 54-58 are those
    of [transcode].  After an accepted unit, line 61 hands NULL to
    [avcodec_receive_frame], which libavcodec does not allow: the result
    is [None]. *)
Definition transcode_null_frame (incc : ctx_ptr) (packet : AVPacket)
    : M (option Z * ctx_ptr) :=
  let* (reason, incc) := avcodec_send_packet incc (Some packet) in
  if decide (reason ≠ 0) then
    print_error "Failed to send decode packet" reason ;;;
    ret (Some (-1), incc)
  else ret (None, incc).

(** The read loop of [write_body], structural in the coded units the input
    has still to deliver; [frame] tells whether the scratch frame was
    allocated.  The result is [None] when an array is read out of bounds, a
    NULL decode context is used, or the NULL scratch frame reaches
    [avcodec_receive_frame]. *)
Fixpoint write_body_loop (frame : bool) (in_streams : list AVStream)
    (errno : positive) (queue : list AVPacket) (outfc : AVFormatContext)
    (t : Tables) : M (option Z * Tables) :=
  let* (read, got, infc) := av_read_frame (mkFormat in_streams queue errno) in
  match queue with
  | [] => ret (Some 0, t)
  | packet :: rest =>
      let i := stream_index packet in
      match at_index (out_stream_indices t) i with
      | None => ret (None, t)
      | Some out_stream_index =>
          if decide (out_stream_index = -1) then
            write_body_loop frame in_streams errno rest outfc t
          else
            match at_index in_streams i,
                  at_index (streams outfc) out_stream_index,
                  at_index (out_codec_contexts t) i with
            | Some in_stream, Some out_stream, Some (Some outcc) =>
                match at_index (in_codec_contexts t) i with
                | Some (Some incc) =>
                    if frame then
                      let* (reason, incc, outcc) :=
                        transcode outfc incc outcc packet in_stream out_stream
                          out_stream_index in
                      let t :=
                        mkTables (out_stream_indices t)
                          (<[Z.to_nat i := Some incc]> (in_codec_contexts t))
                          (<[Z.to_nat i := Some outcc]>
                             (out_codec_contexts t)) in
                      if decide (reason ≠ 0) then ret (Some reason, t)
                      else write_body_loop frame in_streams errno rest outfc t
                    else
                      let* (reason, incc) :=
                        transcode_null_frame incc packet in
                      ret (reason,
                           mkTables (out_stream_indices t)
                             (<[Z.to_nat i := Some incc]>
                                (in_codec_contexts t))
                             (out_codec_contexts t))
                | _ => ret (None, t)
                end
            | Some in_stream, Some out_stream, Some None =>
                let* reason :=
                  write_packet outfc packet in_stream out_stream
                    out_stream_index in
                if decide (reason ≠ 0) then ret (Some reason, t)
                else write_body_loop frame in_streams errno rest outfc t
            | _, _, _ => ret (None, t)
            end
      end
  end.

(** Lines 80-81 do not check the two allocations.  With [packet] NULL the
    first [av_read_frame(infc, NULL)] is outside the contract of
    libavformat: the result is [None].  [av_frame_free] and
    [av_packet_free] after the label [end] accept NULL and change nothing
    that the model keeps. *)
Definition write_body (infc outfc : AVFormatContext) (t : Tables)
    : M (option Z * Tables) :=
  let* packet := av_packet_alloc in
  let* frame := av_frame_alloc in
  if packet then
    write_body_loop frame (streams infc) (read_errno infc) (packets infc)
      outfc t
  else ret (None, t).

Definition write_output (infc outfc : AVFormatContext) (t : Tables)
    : M (option Z * Tables) :=
  let* reason := avformat_write_header outfc in
  if decide (reason ≠ AVSTREAM_INIT_IN_WRITE_HEADER) then
    print_error "Failed to write header to output file" reason ;;;
    ret (Some (-1), t)
  else
    let* (body, t) := write_body infc outfc t in
    match body with
    | None => ret (None, t)
    | Some reason =>
        if decide (reason ≠ 0) then ret (Some reason, t)
        else
          let* reason := av_write_trailer outfc in
          if decide (reason ≠ 0) then
            print_error "Failed to write trailer" reason ;;;
            ret (Some (-1), t)
          else ret (Some 0, t)
    end.

Definition create_decode_context (in_codec : AVCodec)
    (in_parameters : AVCodecParameters) : M (option ctx_ptr) :=
  let* incc := avcodec_alloc_context3 in_codec in
  match incc with
  | None =>
      printf "Failed to allocate memory for input in_stream codec context" ;;;
      ret None
  | Some incc =>
      let* (reason, incc) := avcodec_parameters_to_context incc in_parameters in
      if decide (reason ≠ 0) then
        print_error "Failed to copy parameters to context" reason ;;;
        avcodec_free_context (Some incc) ;;;
        ret None
      else
        let* (reason, incc) := avcodec_open2 incc in_codec in
        if decide (reason ≠ 0) then
          print_error "Failed to open input codec context" reason ;;;
          avcodec_free_context (Some incc) ;;;
          ret None
        else ret (Some incc)
  end.

Definition create_encode_context (out_codec : AVCodec) (incc : ctx_ptr)
    (infc : AVFormatContext) (in_stream : AVStream) : M (option ctx_ptr) :=
  let* outcc := avcodec_alloc_context3 out_codec in
  match outcc with
  | None =>
      printf "Failed to allocate memory for output in_stream codec context" ;;;
      ret None
  | Some outcc =>
      let frame_rate := av_guess_frame_rate infc in_stream in
      let outcc :=
        mkPtr (addr outcc)
          (mkContext (width (deref incc)) (height (deref incc))
             (sample_aspect_ratio (deref incc)) (pix_fmt (deref incc))
             (bit_rate (deref incc)) (av_inv_q frame_rate)
             (ready_frames (deref outcc)) (ready_packets (deref outcc))
             (empty_errno (deref outcc))) in
      let* (reason, outcc) := avcodec_open2 outcc out_codec in
      if decide (reason ≠ 0) then
        print_error "Failed to open output codec context" reason ;;;
        avcodec_free_context (Some outcc) ;;;
        ret None
      else ret (Some outcc)
  end.

(** How an iteration of the loop of [create_streams] ends. *)
Inductive Exit :=
| Continue      (* falls through to the next statement *)
| GotoFailure   (* [goto failure] *)
| Undefined.    (* out-of-bounds write, or read of the unset [outcc] *)

(** Lines 203-221: the codec contexts of a video stream. *)
Definition create_video_contexts (infc : AVFormatContext)
    (out_codec : AVCodec) (i : nat) (in_stream : AVStream) (t : Tables)
    : M (Exit * option ctx_ptr * Tables) :=
  let in_parameters := codecpar in_stream in
  match avcodec_find_decoder (codec_id in_parameters) with
  | None => printf "Failed to find decoder" ;;; ret (GotoFailure, None, t)
  | Some in_codec =>
      let* incc := create_decode_context in_codec in_parameters in
      match incc with
      | None => ret (GotoFailure, None, t)
      | Some incc =>
          match store (in_codec_contexts t) i (Some incc) with
          | None => ret (Undefined, None, t)
          | Some ins =>
              let t :=
                mkTables (out_stream_indices t) ins (out_codec_contexts t) in
              let* outcc := create_encode_context out_codec incc infc in_stream in
              match outcc with
              | None => ret (GotoFailure, None, t)
              | Some outcc =>
                  match store (out_codec_contexts t) i (Some outcc) with
                  | None => ret (Undefined, None, t)
                  | Some outs =>
                      ret (Continue, Some outcc,
                           mkTables (out_stream_indices t)
                             (in_codec_contexts t) outs)
                  end
              end
          end
      end
  end.

Definition set_stream (fc : AVFormatContext) (n : nat) (st : AVStream)
    : AVFormatContext :=
  mkFormat (<[n := st]> (streams fc)) (packets fc) (read_errno fc).

(** Lines 223-243: the output stream and its parameters.  [outcc] is the
    local variable of that name, unset for an audio stream. *)
Definition create_output_stream (outfc : AVFormatContext)
    (in_parameters : AVCodecParameters) (outcc : option ctx_ptr)
    : M (Exit * AVFormatContext) :=
  let n := length (streams outfc) in
  let* (out_stream, outfc) := avformat_new_stream outfc in
  match out_stream with
  | None =>
      printf "Failed to create output in_stream" ;;;
      ret (GotoFailure, outfc)
  | Some out_stream =>
      if decide (codec_type in_parameters = AVMEDIA_TYPE_VIDEO) then
        match outcc with
        | None => ret (Undefined, outfc)
        | Some outcc =>
            let* (reason, par) :=
              avcodec_parameters_from_context (codecpar out_stream) outcc in
            let outfc :=
              set_stream outfc n (mkStream par (time_base out_stream)) in
            if decide (reason ≠ 0) then
              print_error
                ("Failed to copy codec parameters from codec context to output in_stream"
                 +:+ nl) reason ;;;
              ret (GotoFailure, outfc)
            else
              ret (Continue,
                   set_stream outfc n
                     (mkStream par (ctx_time_base (deref outcc))))
        end
      else
        let* (reason, par) :=
          avcodec_parameters_copy (codecpar out_stream) in_parameters in
        let outfc := set_stream outfc n (mkStream par (time_base out_stream)) in
        if decide (reason ≠ 0) then
          print_error
            ("Failed to copy codec parameters to output in_stream" +:+ nl)
            reason ;;;
          ret (GotoFailure, outfc)
        else ret (Continue, outfc)
  end.

(** One iteration of the loop of [create_streams] (lines 195-245), for the
    input stream [i]; the exit comes with the value of [stream_count]. *)
Definition create_streams_body (infc : AVFormatContext) (out_codec : AVCodec)
    (i : nat) (in_stream : AVStream) (stream_count : Z)
    (outfc : AVFormatContext) (t : Tables)
    : M (Exit * Z * AVFormatContext * Tables) :=
  let in_parameters := codecpar in_stream in
  if decide (codec_type in_parameters ≠ AVMEDIA_TYPE_AUDIO
             ∧ codec_type in_parameters ≠ AVMEDIA_TYPE_VIDEO) then
    match store (out_stream_indices t) i (-1) with
    | None => ret (Undefined, stream_count, outfc, t)
    | Some ixs =>
        ret (Continue, stream_count, outfc,
             mkTables ixs (in_codec_contexts t) (out_codec_contexts t))
    end
  else
    let* (e, outcc, t) :=
      if decide (codec_type in_parameters = AVMEDIA_TYPE_VIDEO) then
        create_video_contexts infc out_codec i in_stream t
      else ret (Continue, None, t) in
    match e with
    | Continue =>
        let* (e, outfc) := create_output_stream outfc in_parameters outcc in
        match e with
        | Continue =>
            let stream_count := stream_count + 1 in
            match store (out_stream_indices t) i stream_count with
            | None => ret (Undefined, stream_count, outfc, t)
            | Some ixs =>
                ret (Continue, stream_count, outfc,
                     mkTables ixs (in_codec_contexts t) (out_codec_contexts t))
            end
        | _ => ret (e, stream_count, outfc, t)
        end
    | _ => ret (e, stream_count, outfc, t)
    end.

(** The loop of [create_streams] from stream [i] on; [rest] are the input
    streams [i], [i+1], ... *)
Fixpoint create_streams_loop (infc : AVFormatContext) (out_codec : AVCodec)
    (i : nat) (rest : list AVStream) (stream_count : Z)
    (outfc : AVFormatContext) (t : Tables)
    : M (Exit * AVFormatContext * Tables) :=
  match rest with
  | [] => ret (Continue, outfc, t)
  | in_stream :: rest =>
      let* (e, stream_count, outfc, t) :=
        create_streams_body infc out_codec i in_stream stream_count outfc t in
      match e with
      | Continue =>
          create_streams_loop infc out_codec (S i) rest stream_count outfc t
      | _ => ret (e, outfc, t)
      end
  end.

(** The loop after the label [failure], over the indices it visits; [false]
    when it leaves the tables. *)
Fixpoint free_contexts (indices : list nat) (t : Tables) : M (bool * Tables) :=
  match indices with
  | [] => ret (true, t)
  | i :: indices =>
      match in_codec_contexts t !! i with
      | None => ret (false, t)
      | Some p =>
          let* p := avcodec_free_context p in
          let t :=
            mkTables (out_stream_indices t) (<[i := p]> (in_codec_contexts t))
              (out_codec_contexts t) in
          match out_codec_contexts t !! i with
          | None => ret (false, t)
          | Some p =>
              let* p := avcodec_free_context p in
              free_contexts indices
                (mkTables (out_stream_indices t) (in_codec_contexts t)
                   (<[i := p]> (out_codec_contexts t)))
          end
      end
  end.

Definition create_streams (infc outfc : AVFormatContext) (t : Tables)
    (out_codec : AVCodec) : M (option Z * AVFormatContext * Tables) :=
  let* (e, outfc, t) :=
    create_streams_loop infc out_codec 0 (streams infc) (-1) outfc t in
  match e with
  | Continue => ret (Some 0, outfc, t)
  | Undefined => ret (None, outfc, t)
  | GotoFailure =>
      let* (defined, t) := free_contexts (seq 0 (length (streams infc))) t in
      ret (if defined then Some (-1) else None, outfc, t)
  end.

End Program.

Arguments World : clear implicits.
Arguments M : clear implicits.

(** ** A scripted library, to run the pipeline on concrete inputs

    The library state is a script of answers, one per call, consumed in call
    order (0 once the script is exhausted).  A negative answer is the status
    of a failing call.  A send call with answer 0 succeeds and leaves
    [AVERROR(EAGAIN)] as the status of the drained codec; with a positive
    answer [e] it succeeds and leaves [AVERROR(e)] instead.  The decoder
    holds back [lookahead] frames before it hands out the first one, and
    releases them on an end-of-stream submission.  The two scratch
    allocations of [write_body] take no answer from the script: their
    outcome is fixed with the library ([lib_with]), and both succeed in
    [lib]. *)
Module Script.

Record State := mkState {
  answers : list Z;
  lookahead : nat;
  held : list AVFrame
}.

Definition answer (e : State) : Z * State :=
  match answers e with
  | [] => (0, e)
  | z :: zs => (z, mkState zs (lookahead e) (held e))
  end.

Definition errno_of (z : Z) : positive :=
  if decide (z = 0) then EAGAIN else Z.to_pos z.

Definition frame_of (p : AVPacket) : AVFrame := mkFrame (pts p) (data p).

Definition packet_of (f : AVFrame) : AVPacket :=
  mkPacket 0 (frame_pts f) (frame_pts f) 1 (frame_data f) 0 (-1).

Definition default_context : AVCodecContext :=
  mkContext 0 0 (mkRational 0 1) (-1) 0 (mkRational 0 1) [] [] EAGAIN.

Definition default_parameters : AVCodecParameters :=
  mkParameters AVMEDIA_TYPE_UNKNOWN 0 [].

(** The messages of [av_strerror] for the statuses of the scenarios, those
    of the C library for the [errno] codes; the one message for every other
    status is a stand-in. *)
Definition strerror (errnum : Z) : string :=
  if decide (errnum = 0) then "Success"
  else if decide (errnum = AVERROR EAGAIN)
  then "Resource temporarily unavailable"
  else if decide (errnum = -22) then "Invalid argument"
  else if decide (errnum = AVERROR_EOF) then "End of file"
  else if decide (errnum = -5) then "Input/output error"
  else if decide (errnum = -12) then "Cannot allocate memory"
  else if decide (errnum = -2) then "No such file or directory"
  else "Unknown error".

(** [av_rescale_q] of libavutil, which is [av_rescale_rnd] with
    [AV_ROUND_NEAR_INF]: [a * bq / cq] rounded to the nearest integer,
    halves away from zero, and [INT64_MIN] when the quotient of the time
    bases is not positive.  The products stay within 64 bits in the
    scenarios. *)
Definition rescale_q (a : Z) (bq cq : AVRational) : Z :=
  let b := num bq * den cq in
  let c := num cq * den bq in
  if decide (c ≤ 0 ∨ b < 0) then - 2 ^ 63
  else if decide (a < 0) then - ((- a * b + c / 2) / c)
  else (a * b + c / 2) / c.

Definition alloc_context3 (e : State) (codec : AVCodec)
    : option AVCodecContext * State :=
  let (z, e) := answer e in
  (if decide (z = 0) then Some default_context else None, e).

Definition parameters_to_context (e : State) (c : AVCodecContext)
    (par : AVCodecParameters) : Z * AVCodecContext * State :=
  let (z, e) := answer e in
  if decide (z = 0) then
    (0,
     mkContext (nth 0 (par_fields par) 0) (nth 1 (par_fields par) 0)
       (sample_aspect_ratio c) (nth 2 (par_fields par) 0)
       (nth 3 (par_fields par) 0) (ctx_time_base c) (ready_frames c)
       (ready_packets c) (empty_errno c),
     e)
  else (z, c, e).

Definition open2 (e : State) (a : nat) (c : AVCodecContext) (codec : AVCodec)
    : Z * AVCodecContext * State :=
  let (z, e) := answer e in (z, c, e).

Definition with_ready (c : AVCodecContext) (fs : list AVFrame)
    (ps : list AVPacket) (errno : positive) : AVCodecContext :=
  mkContext (width c) (height c) (sample_aspect_ratio c) (pix_fmt c)
    (bit_rate c) (ctx_time_base c) fs ps errno.

Definition send_packet (e : State) (a : nat) (c : AVCodecContext)
    (pkt : option AVPacket) : Z * AVCodecContext * State :=
  let (z, e) := answer e in
  if decide (z < 0) then (z, c, e)
  else
    match pkt with
    | None =>
        (0, with_ready c (ready_frames c ++ held e) (ready_packets c) EOF_TAG,
         mkState (answers e) (lookahead e) [])
    | Some p =>
        let pending := held e ++ [frame_of p] in
        if decide (lookahead e < length pending)%nat then
          (0,
           with_ready c (ready_frames c ++ take 1 pending) (ready_packets c)
             (errno_of z),
           mkState (answers e) (lookahead e) (drop 1 pending))
        else
          (0, with_ready c (ready_frames c) (ready_packets c) (errno_of z),
           mkState (answers e) (lookahead e) pending)
    end.

Definition send_frame (e : State) (a : nat) (c : AVCodecContext)
    (frame : option AVFrame) : Z * AVCodecContext * State :=
  let (z, e) := answer e in
  if decide (z < 0) then (z, c, e)
  else
    match frame with
    | None => (0, with_ready c (ready_frames c) (ready_packets c) EOF_TAG, e)
    | Some f =>
        (0,
         with_ready c (ready_frames c) (ready_packets c ++ [packet_of f])
           (errno_of z),
         e)
    end.

Definition new_stream (e : State) (fc : AVFormatContext)
    : option AVStream * State :=
  let (z, e) := answer e in
  (if decide (z = 0) then Some (mkStream default_parameters (mkRational 1 90000))
   else None, e).

Definition parameters_from_context (e : State) (dst : AVCodecParameters)
    (c : AVCodecContext) : Z * AVCodecParameters * State :=
  let (z, e) := answer e in
  if decide (z = 0) then
    (0,
     mkParameters AVMEDIA_TYPE_VIDEO 173
       [width c; height c; pix_fmt c; bit_rate c],
     e)
  else (z, dst, e).

Definition parameters_copy (e : State) (dst src : AVCodecParameters)
    : Z * AVCodecParameters * State :=
  let (z, e) := answer e in
  if decide (z = 0) then (0, src, e) else (z, dst, e).

Definition lib_with (packet frame : bool) : LibAV := {|
  Env := State;
  av_strerror := strerror;
  av_rescale_q := rescale_q;
  av_guess_frame_rate := λ fc st, av_inv_q (time_base st);
  avcodec_find_decoder :=
    λ id, if decide (id = 0) then None else Some (mkCodec "decoder" id);
  alloc_context3_impl := alloc_context3;
  parameters_to_context_impl := parameters_to_context;
  open2_impl := open2;
  send_packet_impl := send_packet;
  send_frame_impl := send_frame;
  interleaved_write_frame_impl := λ e fc pkt, answer e;
  write_header_impl := λ e fc, answer e;
  write_trailer_impl := λ e fc, answer e;
  new_stream_impl := new_stream;
  parameters_from_context_impl := parameters_from_context;
  parameters_copy_impl := parameters_copy;
  packet_alloc_impl := λ e, (packet, e);
  frame_alloc_impl := λ e, (frame, e)
|}.

Definition lib : LibAV := lib_with true true.

(** The initial world of a run against the script [zs]. *)
Definition world (zs : list Z) (lookahead : nat) : World lib :=
  mkWorld (L := lib) (mkState zs lookahead []) [] [] 0.

(** Inputs *)

Definition libx265 : AVCodec := mkCodec "libx265" 173.

Definition video_stream : AVStream :=
  mkStream (mkParameters AVMEDIA_TYPE_VIDEO 27 [640; 480; 0; 400000])
    (mkRational 1 25).

Definition audio_stream : AVStream :=
  mkStream (mkParameters AVMEDIA_TYPE_AUDIO 86018 [])
    (mkRational 1 48000).

Definition subtitle_stream : AVStream :=
  mkStream (mkParameters AVMEDIA_TYPE_SUBTITLE 94213 [])
    (mkRational 1 1000).

(** A video stream for which no decoder is registered. *)
Definition exotic_stream : AVStream :=
  mkStream (mkParameters AVMEDIA_TYPE_VIDEO 0 [320; 240; 0; 100000])
    (mkRational 1 25).

Definition unit_of (i t : Z) (payload : list byte) : AVPacket :=
  mkPacket i t t 1 payload 0 (-1).

Definition empty_output : AVFormatContext := mkFormat [] [] EOF_TAG.

(** The tables as [create_streams_and_transcode] allocates them for [n]
    streams: the index map holds whatever the allocator left there
    ([garbage]), the context tables are zeroed. *)
Definition fresh_tables (n : nat) (garbage : Z) : Tables :=
  mkTables (replicate n garbage) (replicate n None) (replicate n None).

(** Scenarios: the stream mapper, then the body loop or the whole output
    stage, against the script [zs]. *)
Definition input_of (ss : list AVStream) (units : list AVPacket)
    : AVFormatContext :=
  mkFormat ss units EOF_TAG.

Definition map_then {A} (infc : AVFormatContext) (zs : list Z)
    (lookahead : nat)
    (stage : AVFormatContext → AVFormatContext → Tables → M lib A)
    : option Z * A * World lib :=
  let '(mapped, outfc, t, w) :=
    create_streams (L := lib) infc empty_output
      (fresh_tables (length (streams infc)) 77) libx265
      (world zs lookahead) in
  let (a, w) := stage infc outfc t w in
  (mapped, a, w).

(** Three coded units of one video stream. *)
Definition three_units : AVFormatContext :=
  input_of [video_stream]
    [unit_of 0 0 [x01]; unit_of 0 1 [x02]; unit_of 0 2 [x03]]%byte.

(** One coded unit of one audio stream. *)
Definition one_audio_unit : AVFormatContext :=
  input_of [audio_stream] [unit_of 0 0 [x2a]]%byte.

(** One coded unit through [transcode], with a decoder at address 0 and an
    encoder at address 1. *)
Definition decoder : ctx_ptr := mkPtr 0 default_context.
Definition encoder : ctx_ptr := mkPtr 1 default_context.

Definition output_stream : AVStream :=
  mkStream (mkParameters AVMEDIA_TYPE_VIDEO 173 []) (mkRational 1 90000).

Definition transcode_unit (zs : list Z)
    : Z * ctx_ptr * ctx_ptr * World lib :=
  transcode (L := lib) empty_output decoder encoder (unit_of 0 7 [x01]%byte)
    video_stream output_stream 0 (world zs 0).

(** The answers that let [create_streams] map one video stream: two
    allocations, the import of the parameters, two opens, the new stream and
    the export of the parameters. *)
Definition video_mapped : list Z := [0; 0; 0; 0; 0; 0; 0].

(** The mapping of one audio stream to output stream 0. *)
Definition audio_mapping : Tables := mkTables [0] [None] [None].

Definition audio_output : AVFormatContext :=
  mkFormat [mkStream (codecpar audio_stream) (mkRational 1 90000)] []
    EOF_TAG.

(** Inputs of the stream mapper: a video, a subtitle and an audio stream;
    a video and an audio stream; a video stream followed by one without a
    decoder. *)
Definition three_streams : AVFormatContext :=
  input_of [video_stream; subtitle_stream; audio_stream] [].

Definition two_streams : AVFormatContext :=
  input_of [video_stream; audio_stream] [].

Definition exotic_input : AVFormatContext :=
  input_of [video_stream; exotic_stream] [].

Definition map_streams (infc : AVFormatContext) (zs : list Z)
    : option Z * AVFormatContext * Tables * World lib :=
  create_streams (L := lib) infc empty_output
    (fresh_tables (length (streams infc)) 77) libx265 (world zs 0).

End Script.

(** ** The driver: [create_streams_and_transcode]

    Besides the codec and container calls, the driver allocates and frees
    the three tables and opens and closes the output file.  These calls are
    part of a second interface, over the same library state, and are
    recorded in a log of their own. *)

Inductive Table := IndexTable | DecodeTable | EncodeTable.

Global Instance Table_eq_dec : EqDecision Table.
Proof. solve_decision. Defined.

Inductive IOEvent :=
| IoAllocTable (tb : Table) (ok : bool)   (* av_malloc_array / av_calloc *)
| IoFreeTable (tb : Table)                (* av_freep *)
| IoOpen (file : string) (status : Z)     (* avio_open *)
| IoClose.                                (* avio_closep *)

Class LibAVIO (L : LibAV) := {
  avcodec_find_encoder_by_name : string → option AVCodec;
  (* the content of the block that av_malloc_array returns is arbitrary *)
  malloc_array_impl : Env → nat → option (nat → Z) * Env;
  calloc_impl : Env → nat → bool * Env;
  avio_open_impl : Env → AVFormatContext → string → Z * Env;
  avio_closep_impl : Env → AVFormatContext → Z * Env
}.

Section Driver.
Context {L : LibAV} {IO : LibAVIO L}.

Record Run := mkRun {
  run_world : World L;
  run_io : list IOEvent      (* table and file calls, oldest first *)
}.

Definition DM (A : Type) : Type := Run → A * Run.

Definition dret {A} (a : A) : DM A := λ r, (a, r).

Definition dbind {A B} (m : DM A) (k : A → DM B) : DM B :=
  λ r, let (a, r1) := m r in k a r1.

Notation "'let*' p ':=' m 'in' k" := (dbind m (λ p, k))
  (at level 10, p pattern, m at level 100, k at level 200).
Notation "m ;;; k" := (dbind m (λ _, k))
  (at level 100, right associativity).

(** A step of the pipeline below the driver. *)
Definition lift {A} (m : M L A) : DM A :=
  λ r, let (a, w) := m (run_world r) in (a, mkRun w (run_io r)).

Definition io_log (e : IOEvent) : DM unit :=
  λ r, (tt, mkRun (run_world r) (run_io r ++ [e])).

(** [av_malloc_array(n, sizeof(int))]: NULL, or [n] integers of arbitrary
    content. *)
Definition av_malloc_array (tb : Table) (n : nat) : DM (option (list Z)) :=
  let* block := lift (call (λ e, malloc_array_impl e n)) in
  match block with
  | None => io_log (IoAllocTable tb false) ;;; dret None
  | Some content =>
      io_log (IoAllocTable tb true) ;;; dret (Some (content <$> seq 0 n))
  end.

(** [av_calloc(n, sizeof(AVCodecContext * ))]: NULL, or [n] NULL pointers. *)
Definition av_calloc (tb : Table) (n : nat)
    : DM (option (list (option ctx_ptr))) :=
  let* ok := lift (call (λ e, calloc_impl e n)) in
  io_log (IoAllocTable tb ok) ;;;
  dret (if ok then Some (replicate n None) else None).

Definition av_freep (tb : Table) : DM unit := io_log (IoFreeTable tb).

Definition avio_open (outfc : AVFormatContext) (file : string) : DM Z :=
  let* r := lift (call (λ e, avio_open_impl e outfc file)) in
  io_log (IoOpen file r) ;;;
  dret r.

Definition avio_closep (outfc : AVFormatContext) : DM unit :=
  let* _ := lift (call (λ e, avio_closep_impl e outfc)) in
  io_log IoClose.

(** The loops of lines 297-300 and 309-312, which are the loop after the
    label [failure] of [create_streams]. *)
Definition free_all_contexts (n : nat) (t : Tables) : DM (bool * Tables) :=
  lift (free_contexts (seq 0 n) t).

(** The result is [None] when [create_streams], [write_output] or a loop
    that frees the contexts leaves the tables. *)
Definition create_streams_and_transcode (infc outfc : AVFormatContext)
    (output_file : string) : DM (option Z) :=
  match avcodec_find_encoder_by_name "libx265" with
  | None =>
      lift (printf "Failed to find libx265 codec") ;;;
      dret (Some (-1))
  | Some out_codec =>
      let nb_streams := length (streams infc) in
      let* out_stream_indices := av_malloc_array IndexTable nb_streams in
      match out_stream_indices with
      | None =>
          lift (printf "Failed to allocate memory for output stream indices") ;;;
          dret (Some (-1))
      | Some out_stream_indices =>
          let* in_codec_contexts := av_calloc DecodeTable nb_streams in
          match in_codec_contexts with
          | None =>
              lift (printf "Failed to allocate memory for input codec contexts") ;;;
              av_freep IndexTable ;;;
              dret (Some (-1))
          | Some in_codec_contexts =>
              let* out_codec_contexts := av_calloc EncodeTable nb_streams in
              match out_codec_contexts with
              | None =>
                  lift (printf "Failed to allocate memory for output codec contexts") ;;;
                  av_freep DecodeTable ;;;
                  av_freep IndexTable ;;;
                  dret (Some (-1))
              | Some out_codec_contexts =>
                  let* (mapped, outfc, t) :=
                    lift (create_streams infc outfc
                            (mkTables out_stream_indices in_codec_contexts
                               out_codec_contexts) out_codec) in
                  match mapped with
                  | None => dret None
                  | Some mapped =>
                      if decide (mapped ≠ 0) then
                        av_freep EncodeTable ;;;
                        av_freep DecodeTable ;;;
                        av_freep IndexTable ;;;
                        dret (Some (-1))
                      else
                        let* reason := avio_open outfc output_file in
                        if decide (reason ≠ 0) then
                          lift (print_error "Failed to open output file"
                                  reason) ;;;
                          let* (defined, t) :=
                            free_all_contexts nb_streams t in
                          if defined then
                            av_freep EncodeTable ;;;
                            av_freep DecodeTable ;;;
                            av_freep IndexTable ;;;
                            dret (Some (-1))
                          else dret None
                        else
                          let* (result, t) :=
                            lift (write_output infc outfc t) in
                          match result with
                          | None => dret None
                          | Some result =>
                              avio_closep outfc ;;;
                              let* (defined, t) :=
                                free_all_contexts nb_streams t in
                              if defined then
                                av_freep EncodeTable ;;;
                                av_freep DecodeTable ;;;
                                av_freep IndexTable ;;;
                                dret (Some result)
                              else dret None
                          end
                  end
              end
          end
      end
  end.

End Driver.

Arguments Run : clear implicits.
Arguments DM : clear implicits.

(** The scripted library, with the table and file calls: an answer of 0
    lets an allocation succeed, and is the status of the other calls. *)
Module ScriptIO.

Definition malloc_array (e : Script.State) (n : nat)
    : option (nat → Z) * Script.State :=
  let (z, e) := Script.answer e in
  (if decide (z = 0) then Some (λ _, 77) else None, e).

Definition calloc (e : Script.State) (n : nat) : bool * Script.State :=
  let (z, e) := Script.answer e in (bool_decide (z = 0), e).

Definition lib : LibAVIO Script.lib :=
  Build_LibAVIO Script.lib
    (λ name, if decide (name = "libx265") then Some Script.libx265 else None)
    malloc_array calloc (λ e fc file, Script.answer e)
    (λ e fc, Script.answer e).

Definition run (zs : list Z) (lookahead : nat) : Run Script.lib :=
  mkRun (Script.world zs lookahead) [].

End ScriptIO.

(** Further inputs of the scripted library. *)
Module Inputs.

(** Two coded units of one subtitle stream, which the mapper drops. *)
Definition subtitles : AVFormatContext :=
  Script.input_of [Script.subtitle_stream]
    [Script.unit_of 0 0 [x01]; Script.unit_of 0 5 [x02]]%byte.

Definition all_dropped : Tables := mkTables [DROPPED] [None] [None].

Definition frame : AVFrame := mkFrame 7 [x01]%byte.

(** What the scripted encoder answers to [frame], and the scripted decoder
    to the coded unit of [Script.transcode_unit]. *)
Definition frame_sent (zs : list Z)
    : Z * AVCodecContext * Script.State :=
  Script.send_frame (env (Script.world zs 0)) (addr Script.encoder)
    (deref Script.encoder) (Some frame).

Definition unit_sent (zs : list Z)
    : Z * AVCodecContext * Script.State :=
  Script.send_packet (env (Script.world zs 0)) (addr Script.decoder)
    (deref Script.decoder) (Some (Script.unit_of 0 7 [x01]%byte)).

Definition encode_frame (zs : list Z) : Z * ctx_ptr * World Script.lib :=
  encode_frame_and_send (L := Script.lib) Script.empty_output Script.encoder
    frame Script.video_stream Script.output_stream 0 (Script.world zs 0).

(** The initial world of a run against the script [zs], for a library
    whose scratch allocations answer as told. *)
Definition world_with (packet frame : bool) (zs : list Z)
    : World (Script.lib_with packet frame) :=
  mkWorld (L := Script.lib_with packet frame) (Script.mkState zs 0 []) [] [] 0.

(** One video stream that is transcoded with the contexts of
    [Script.transcode_unit], and its output. *)
Definition video_mapping : Tables :=
  mkTables [0] [Some Script.decoder] [Some Script.encoder].

Definition video_output : AVFormatContext :=
  mkFormat [Script.output_stream] [] EOF_TAG.

(** The whole of [create_streams_and_transcode] on [infc], against the
    script [zs]. *)
Definition drive (infc : AVFormatContext) (zs : list Z)
    : option Z * Run Script.lib :=
  create_streams_and_transcode (L := Script.lib) (IO := ScriptIO.lib) infc
    Script.empty_output "out.mp4" (ScriptIO.run zs 0).

End Inputs.

(** ** Vocabulary of the properties *)

(** An end-of-stream submission: [avcodec_send_packet(ctx, NULL)] or
    [avcodec_send_frame(ctx, NULL)]. *)
Definition is_flush (e : Event) : bool :=
  match e with
  | EvSendPacket _ None _ | EvSendFrame _ None _ => true
  | _ => false
  end.

(** The calls made on behalf of one coded unit: codec traffic and writes. *)
Definition unit_event (e : Event) : Prop :=
  match e with
  | EvSendPacket _ (Some _) _ | EvReceiveFrame _ _
  | EvSendFrame _ (Some _) _ | EvReceivePacket _ _ | EvWriteFrame _ _ => True
  | _ => False
  end.

(** The calls of the body loop: those, and the reads of the input. *)
Definition body_event (e : Event) : Prop :=
  match e with
  | EvReadFrame _ => True
  | _ => unit_event e
  end.

(** The body loop ran to the end of the input: its last call is the
    [av_read_frame] that reports a negative status. *)
Definition body_completed (body : list Event) : Prop :=
  ∃ pre s, body = pre ++ [EvReadFrame s] ∧ s < 0.

Definition is_write (e : Event) : bool :=
  match e with EvWriteFrame _ _ => true | _ => false end.

Definition is_send_frame (e : Event) : bool :=
  match e with EvSendFrame _ _ _ => true | _ => false end.

Definition is_send_packet (e : Event) : bool :=
  match e with EvSendPacket _ _ _ => true | _ => false end.

(** A header or trailer write that reported a non-zero status. *)
Definition header_or_trailer_failed (e : Event) : bool :=
  match e with
  | EvWriteHeader s | EvWriteTrailer s => negb (s =? 0)
  | _ => false
  end.

(** The addresses that the trace allocates and frees, in call order. *)
Definition allocs (tr : list Event) : list nat :=
  omap (λ e, match e with EvAllocContext a _ => Some a | _ => None end) tr.

Definition frees (tr : list Event) : list nat :=
  omap (λ e, match e with EvFreeContext a => Some a | _ => None end) tr.

(** The addresses that a table of context pointers holds. *)
Definition addrs (l : list (option ctx_ptr)) : list nat := omap (fmap addr) l.

Definition held (t : Tables) : list nat :=
  addrs (in_codec_contexts t) ++ addrs (out_codec_contexts t).

(** A stream the mapper carries over: audio or video. *)
Definition kept (s : AVStream) : bool :=
  bool_decide (codec_type (codecpar s) = AVMEDIA_TYPE_AUDIO
               ∨ codec_type (codecpar s) = AVMEDIA_TYPE_VIDEO).

(** The number of kept streams among the first [i]. *)
Definition kept_before (ss : list AVStream) (i : nat) : Z :=
  Z.of_nat (length (filter (λ s, kept s = true) (take i ss))).

(** A failure to create an output stream or to copy codec parameters to
    it. *)
Definition mapping_failure (e : Event) : Prop :=
  match e with
  | EvNewStream false => True
  | EvParametersFromContext _ s | EvParametersCopy s => s ≠ 0
  | _ => False
  end.

(** The tables hold one entry per input stream, and no context yet. *)
Definition tables_fresh (n : nat) (t : Tables) : Prop :=
  length (out_stream_indices t) = n
  ∧ in_codec_contexts t = replicate n None
  ∧ out_codec_contexts t = replicate n None.

Section Ledger.
Context {L : LibAV}.

(** From [w] to [w'] the calls [new] were made; the contexts [before] were
    held at [w], the contexts [after] are held at [w']: every allocation
    took the next address of the allocator, and what was allocated or held
    before has been freed or is held after, each once. *)
Definition step (w w' : World L) (new : list Event)
    (before after : list nat) : Prop :=
  trace w' = trace w ++ new
  ∧ ∃ k, next_addr w' = (next_addr w + k)%nat
         ∧ allocs new = seq (next_addr w) k
         ∧ allocs new ++ before ≡ₚ frees new ++ after.

(** A video stream for which no decoder is available. *)
Definition undecodable (s : AVStream) : Prop :=
  codec_type (codecpar s) = AVMEDIA_TYPE_VIDEO
  ∧ avcodec_find_decoder (codec_id (codecpar s)) = None.

End Ledger.

(** The calls of [write_packet], and those of [encode_frame_and_send]. *)
Definition write_event (e : Event) : Prop :=
  match e with EvWriteFrame _ _ => True | _ => False end.

Definition encoder_event (e : Event) : Prop :=
  match e with
  | EvSendFrame _ (Some _) _ | EvReceivePacket _ _ | EvWriteFrame _ _ => True
  | _ => False
  end.

Section Emits.
Context {L : LibAV}.

(** The unit that the copy forwarder hands to the writer for the coded unit
    [p]: tagged with the output stream index, its time stamps rebased from
    the time base of the input stream to that of the output stream, every
    other field as in [p]. *)
Definition forwarded (p : AVPacket) (in_stream out_stream : AVStream)
    (out_stream_index : Z) : AVPacket :=
  let rebase x := av_rescale_q x (time_base in_stream) (time_base out_stream) in
  mkPacket out_stream_index
    (if decide (pts p = AV_NOPTS_VALUE) then pts p else rebase (pts p))
    (if decide (dts p = AV_NOPTS_VALUE) then dts p else rebase (dts p))
    (if decide (0 < duration p) then rebase (duration p) else duration p)
    (data p) (flags p) (pos p).

(** How an operation [m] treats the status of its pull loop, where [recv s]
    is the receive call of that loop answering [s] and [result] reads the C
    return value: a non-zero status is the last call the operation makes;
    "end of stream" and "try again" give the result 0, any other status the
    result -1. *)
Definition pull_loop_exit {A} (recv : Z → Event) (result : A → Z)
    (m : M L A) : Prop :=
  ∀ w, ∃ new,
    trace (m w).2 = trace w ++ new
    ∧ ∀ s, s ≠ 0 → recv s ∈ new →
        (∃ pre, new = pre ++ [recv s])
        ∧ (s = AVERROR_EOF ∨ s = AVERROR EAGAIN → result (m w).1 = 0)
        ∧ (s ≠ AVERROR_EOF → s ≠ AVERROR EAGAIN → result (m w).1 = -1).

(** [emits φ m]: whatever the world, [m] only appends to the trace, and
    every call it appends satisfies [φ]. *)
Definition emits {A} (φ : Event → Prop) (m : M L A) : Prop :=
  ∀ w, ∃ new, trace (m w).2 = trace w ++ new ∧ Forall φ new.

End Emits.

(** *** Vocabulary of the further properties *)

(** The frames submitted to an encoder and the units handed to the writer
    (with the status of the write), in call order. *)
Definition sent_frames (tr : list Event) : list (option AVFrame) :=
  omap (λ e, match e with EvSendFrame _ f _ => Some f | _ => None end) tr.

Definition sent_packets (tr : list Event) : list (option AVPacket) :=
  omap (λ e, match e with EvSendPacket _ p _ => Some p | _ => None end) tr.

Definition writes (tr : list Event) : list (AVPacket * Z) :=
  omap (λ e, match e with EvWriteFrame p s => Some (p, s) | _ => None end) tr.

(** The status of a pull loop does not stop the run. *)
Definition benign (s : Z) : Prop := s = AVERROR_EOF ∨ s = AVERROR EAGAIN.

Global Instance benign_dec s : Decision (benign s).
Proof. unfold benign. apply _. Defined.

(** The statuses that receive calls of encoders answered and that are
    neither 0 nor such a status. *)
Definition fatal_packet_statuses (tr : list Event) : list Z :=
  omap (λ e, match e with
             | EvReceivePacket _ s =>
                 if decide (s = 0 ∨ benign s) then None else Some s
             | _ => None
             end) tr.

(** The tables fit an input of [n_in] streams and an output of [n_out]
    streams: one entry per input stream, every index in the map DROPPED or
    an output stream, and a decode context wherever there is an encode
    context. *)
Definition tables_ok (n_in n_out : nat) (t : Tables) : Prop :=
  length (out_stream_indices t) = n_in
  ∧ length (in_codec_contexts t) = n_in
  ∧ length (out_codec_contexts t) = n_in
  ∧ (∀ i x, out_stream_indices t !! i = Some x →
       x = -1 ∨ 0 ≤ x < Z.of_nat n_out)
  ∧ (∀ i p, out_codec_contexts t !! i = Some (Some p) →
       ∃ q, in_codec_contexts t !! i = Some (Some q)).

(** Every coded unit belongs to one of the [n_in] input streams. *)
Definition units_ok (n_in : nat) (units : list AVPacket) : Prop :=
  Forall (λ p, 0 ≤ stream_index p < Z.of_nat n_in) units.

Section BodyVocabulary.
Context {L : LibAV}.

(** What the copy forwarder writes for the coded unit [p], if its stream is
    carried over. *)
Definition copy_of (ins : list AVStream) (outfc : AVFormatContext)
    (t : Tables) (p : AVPacket) : option AVPacket :=
  match at_index (out_stream_indices t) (stream_index p) with
  | Some out_stream_index =>
      if decide (out_stream_index = -1) then None
      else
        match at_index ins (stream_index p),
              at_index (streams outfc) out_stream_index with
        | Some in_stream, Some out_stream =>
            Some (forwarded p in_stream out_stream out_stream_index)
        | _, _ => None
        end
  | None => None
  end.

(** A decoder hands out [f] for a coded unit of [units]: after the decoder
    accepted the unit, [f] is among the frames it has ready. *)
Definition decoded_from (units : list AVPacket) (f : AVFrame) : Prop :=
  ∃ e a c p c' e',
    p ∈ units
    ∧ send_packet_impl e a c (Some p) = (0, c', e')
    ∧ f ∈ ready_frames c'.

(** The two scratch allocations of [write_body] never answer NULL. *)
Definition scratch_available : Prop :=
  ∀ e, (packet_alloc_impl e).1 = true ∧ (frame_alloc_impl e).1 = true.

(** [m] leaves the allocator of codec contexts alone. *)
Definition keeps_allocator {A} (m : M L A) : Prop :=
  ∀ w, next_addr (m w).2 = next_addr w.

End BodyVocabulary.

(** The number of streams the mapper carries over. *)
Definition kept_count (ss : list AVStream) : nat :=
  length (filter (λ s, kept s = true) ss).

Definition is_video (s : AVStream) : Prop :=
  codec_type (codecpar s) = AVMEDIA_TYPE_VIDEO.

(** The tables that a log allocates and frees, in call order. *)
Definition tables_allocated (ios : list IOEvent) : list Table :=
  omap (λ e, match e with IoAllocTable tb true => Some tb | _ => None end) ios.

Definition tables_freed (ios : list IOEvent) : list Table :=
  omap (λ e, match e with IoFreeTable tb => Some tb | _ => None end) ios.

(** An allocation of a table, failed or not; a free of a table. *)
Definition is_table_alloc (e : IOEvent) : Prop :=
  match e with IoAllocTable _ _ => True | _ => False end.

Definition is_table_free (e : IOEvent) : Prop :=
  match e with IoFreeTable _ => True | _ => False end.

(** ** Trace discipline of the monad *)

Section EmitsRules.
Context {L : LibAV}.
Variable φ : Event → Prop.

Lemma emits_ret {A} (a : A) : emits φ (ret a).
Proof. intros w. exists []. simpl. rewrite app_nil_r. auto. Qed.

Lemma emits_bind {A B} (m : M L A) (k : A → M L B) :
  emits φ m → (∀ a, emits φ (k a)) → emits φ (bind m k).
Proof.
  intros Hm Hk w. unfold bind.
  destruct (Hm w) as (n1 & E1 & F1).
  destruct (m w) as [a w1]. simpl in E1.
  destruct (Hk a w1) as (n2 & E2 & F2).
  exists (n1 ++ n2). rewrite E2, E1, app_assoc. split; [done|].
  apply Forall_app; auto.
Qed.

Lemma emits_log e : φ e → emits φ (log e).
Proof. intros He w. exists [e]. simpl. auto. Qed.

Lemma emits_printf line : emits φ (printf line).
Proof. intros w. exists []. simpl. rewrite app_nil_r. auto. Qed.

Lemma emits_call {A} (f : Env → A * Env) : emits φ (call f).
Proof.
  intros w. exists []. unfold call. destruct (f (env w)). simpl.
  rewrite app_nil_r. auto.
Qed.

Lemma emits_fresh_addr : emits φ fresh_addr.
Proof. intros w. exists []. simpl. rewrite app_nil_r. auto. Qed.

Lemma emits_print_error d n : emits φ (print_error d n).
Proof. apply emits_printf. Qed.

End EmitsRules.

Lemma emits_weaken {L : LibAV} {A} (φ ψ : Event → Prop) (m : M L A) :
  (∀ e, φ e → ψ e) → emits φ m → emits ψ m.
Proof.
  intros Himp Hm w. destruct (Hm w) as (new & E & F).
  exists new. split; [done|]. eapply Forall_impl; eauto.
Qed.

(** One step of a proof of [emits]. *)
Ltac emits_step :=
  lazymatch goal with
  | |- emits _ (ret _) => apply emits_ret
  | |- emits _ (log _) => apply emits_log; simpl; exact I
  | |- emits _ (printf _) => apply emits_printf
  | |- emits _ (print_error _ _) => apply emits_print_error
  | |- emits _ (call _) => apply emits_call
  | |- emits _ fresh_addr => apply emits_fresh_addr
  | |- emits _ (bind _ _) => apply emits_bind; [ | intros ]
  | |- emits _ (let (_, _) := ?x in _) => destruct x
  | |- emits _ (if decide ?P then _ else _) => destruct (decide P)
  | |- emits _ (match ?x with _ => _ end) => destruct x
  end.

Section BodyTrace.
Context {L : LibAV}.

Lemma emits_send_packet cc p :
  emits unit_event (avcodec_send_packet cc (Some p)).
Proof. unfold avcodec_send_packet. repeat emits_step. Qed.

Lemma emits_receive_frame cc : emits unit_event (avcodec_receive_frame cc).
Proof. unfold avcodec_receive_frame. repeat emits_step. Qed.

Lemma emits_write_packet_only outfc p ins outs i :
  emits write_event (write_packet outfc p ins outs i).
Proof.
  unfold write_packet, av_interleaved_write_frame. repeat emits_step.
Qed.

Lemma emits_write_packet outfc p ins outs i :
  emits unit_event (write_packet outfc p ins outs i).
Proof.
  eapply emits_weaken; [|apply emits_write_packet_only]. by intros [].
Qed.

Lemma emits_encode_pull_loop outfc a c queue reason ins outs i :
  emits encoder_event (encode_pull_loop outfc a c queue reason ins outs i).
Proof.
  revert reason. induction queue as [|p queue IH]; intros reason; simpl.
  - apply emits_bind; [unfold avcodec_receive_packet; repeat emits_step|].
    intros. repeat emits_step.
  - apply emits_bind; [unfold avcodec_receive_packet; repeat emits_step|].
    intros [[? ?] ?].
    apply emits_bind.
    { eapply emits_weaken; [|apply emits_write_packet_only]. by intros []. }
    intros. emits_step; [emits_step | apply IH].
Qed.

Lemma emits_encode_frame_and_send_only outfc outcc f ins outs i :
  emits encoder_event (encode_frame_and_send outfc outcc f ins outs i).
Proof.
  unfold encode_frame_and_send.
  apply emits_bind; [unfold avcodec_send_frame; repeat emits_step|].
  intros [? ?].
  emits_step; [repeat emits_step | apply emits_encode_pull_loop].
Qed.

Lemma emits_encode_frame_and_send outfc outcc f ins outs i :
  emits unit_event (encode_frame_and_send outfc outcc f ins outs i).
Proof.
  eapply emits_weaken; [|apply emits_encode_frame_and_send_only].
  by intros [| | | | | | |? [?|] ?| | | | | | | |].
Qed.

Lemma emits_decode_pull_loop outfc a c queue outcc reason ins outs i :
  emits unit_event (decode_pull_loop outfc a c queue outcc reason ins outs i).
Proof.
  revert outcc. induction queue as [|f queue IH]; intros outcc; simpl.
  - apply emits_bind; [apply emits_receive_frame|]. intros.
    repeat emits_step.
  - apply emits_bind; [apply emits_receive_frame|]. intros [[? ?] ?].
    apply emits_bind; [apply emits_encode_frame_and_send|]. intros [? ?].
    apply IH.
Qed.

Lemma emits_transcode outfc incc outcc p ins outs i :
  emits unit_event (transcode outfc incc outcc p ins outs i).
Proof.
  unfold transcode.
  apply emits_bind; [apply emits_send_packet|]. intros [? ?].
  emits_step; [repeat emits_step | apply emits_decode_pull_loop].
Qed.

Lemma emits_transcode_null_frame incc p :
  emits unit_event (transcode_null_frame incc p).
Proof.
  unfold transcode_null_frame.
  apply emits_bind; [apply emits_send_packet|]. intros [? ?].
  repeat emits_step.
Qed.

(** [transcode] on a NULL scratch frame has no result 0. *)
Lemma transcode_null_frame_result incc p (w : World L) :
  (transcode_null_frame incc p w).1.1 ≠ Some 0.
Proof.
  unfold transcode_null_frame, avcodec_send_packet.
  cbv beta iota delta [bind call log ret print_error printf].
  destruct (send_packet_impl (env w) (addr incc) (deref incc) (Some p))
    as [[st c] e1].
  by destruct (decide (st ≠ 0)).
Qed.

End BodyTrace.

Section BodyLoop.
Context {L : LibAV}.

Lemma body_completed_last body :
  body_completed body ↔ ∃ s, last body = Some (EvReadFrame s) ∧ s < 0.
Proof.
  split.
  - intros (pre & s & -> & Hs). exists s. by rewrite last_snoc.
  - intros (s & Hl & Hs). apply last_Some in Hl as [pre ->]. by exists pre, s.
Qed.

Lemma body_completed_app l1 l2 :
  l2 ≠ [] → body_completed (l1 ++ l2) ↔ body_completed l2.
Proof.
  intros Hne. rewrite !body_completed_last.
  destruct (last l2) as [x|] eqn:E.
  - apply last_Some in E as [l2' ->].
    by rewrite app_assoc, !last_snoc.
  - apply last_None in E. done.
Qed.

Lemma unit_events_not_completed inner :
  Forall unit_event inner → ¬ body_completed (EvReadFrame 0 :: inner).
Proof.
  intros F (s & Hl & Hs)%body_completed_last.
  destruct (last inner) as [x|] eqn:E.
  - apply last_Some in E as [pre ->].
    rewrite app_comm_cons, last_snoc in Hl. injection Hl as ->.
    apply Forall_app in F as [_ F]. by inversion F.
  - apply last_None in E as ->. simpl in Hl. injection Hl as <-. lia.
Qed.

Lemma unit_event_body e : unit_event e → body_event e.
Proof. by destruct e. Qed.

(** What the read loop appends to the trace, and how its result shows in
    it. *)
Lemma write_body_loop_trace frame ins errno queue outfc t w :
  ∃ new,
    trace (write_body_loop frame ins errno queue outfc t w).2 = trace w ++ new
    ∧ Forall body_event new
    ∧ new ≠ []
    ∧ ((write_body_loop frame ins errno queue outfc t w).1.1 = Some 0
       ↔ body_completed new).
Proof.
  revert t w. induction queue as [|p queue IH]; intros t w.
  - exists [EvReadFrame (AVERROR errno)]. simpl.
    split; [done|]. split; [by repeat constructor|]. split; [done|].
    split; [|done]. intros _. exists [], (AVERROR errno).
    split; [done|]. unfold AVERROR. lia.
  - cbn [write_body_loop].
    cbv beta iota delta [bind av_read_frame log ret packets].
    set (w0 := mkWorld _ _ _ _).
    assert (Hstop : ∀ (r : option Z) inner,
      r ≠ Some 0 → Forall unit_event inner →
      Forall body_event (EvReadFrame 0 :: inner)
      ∧ EvReadFrame 0 :: inner ≠ []
      ∧ (r = Some 0 ↔ body_completed (EvReadFrame 0 :: inner))).
    { intros r inner Hr F. split; [|split; [done|]].
      - constructor; [exact I|]. eapply Forall_impl; eauto using unit_event_body.
      - split; [done|]. intros H. by apply unit_events_not_completed in H. }
    assert (Hgo : ∀ t1 w1 inner,
      trace w1 = trace w0 ++ inner → Forall unit_event inner →
      ∃ new,
        trace (write_body_loop frame ins errno queue outfc t1 w1).2
          = trace w ++ new
        ∧ Forall body_event new ∧ new ≠ []
        ∧ ((write_body_loop frame ins errno queue outfc t1 w1).1.1 = Some 0
           ↔ body_completed new)).
    { intros t1 w1 inner E F.
      destruct (IH t1 w1) as (nr & En & Fn & Nn & Hn).
      exists ((EvReadFrame 0 :: inner) ++ nr).
      rewrite En, E. subst w0. cbn [trace]. rewrite <- !app_assoc.
      split; [done|]. split; [|split].
      - apply Forall_app. split; [|done].
        constructor; [exact I|]. eapply Forall_impl; eauto using unit_event_body.
      - by destruct inner.
      - by rewrite body_completed_app. }
    assert (Hub : ∃ new,
      trace w0 = trace w ++ new
      ∧ Forall body_event new ∧ new ≠ []
      ∧ ((None : option Z) = Some 0 ↔ body_completed new)).
    { exists [EvReadFrame 0]. split; [done|]. apply Hstop; [done|constructor]. }
    destruct (at_index (out_stream_indices t) (stream_index p)) as [osi|];
      [|exact Hub].
    destruct (decide (osi = -1)).
    { apply (Hgo t w0 []); [by rewrite app_nil_r | constructor]. }
    destruct (at_index ins (stream_index p)) as [in_stream|]; [|exact Hub].
    destruct (at_index (streams outfc) osi) as [out_stream|]; [|exact Hub].
    destruct (at_index (out_codec_contexts t) (stream_index p))
      as [[outcc|]|]; [| |exact Hub].
    + destruct (at_index (in_codec_contexts t) (stream_index p))
        as [[incc|]|]; [|exact Hub|exact Hub].
      destruct frame.
      * destruct (emits_transcode outfc incc outcc p in_stream out_stream osi
                    w0) as (inner & Ei & Fi).
        destruct (transcode outfc incc outcc p in_stream out_stream osi w0)
          as [[[reason incc'] outcc'] w1].
        cbn [snd] in Ei.
        destruct (decide (reason ≠ 0)).
        -- exists (EvReadFrame 0 :: inner). cbn. rewrite Ei. subst w0. cbn.
           rewrite <- app_assoc. split; [done|].
           apply Hstop; [congruence|done].
        -- by apply (Hgo _ w1 inner).
      * destruct (emits_transcode_null_frame incc p w0) as (inner & Ei & Fi).
        pose proof (transcode_null_frame_result incc p w0) as Hr.
        destruct (transcode_null_frame incc p w0) as [[reason incc'] w1].
        cbn [fst snd] in Ei, Hr.
        exists (EvReadFrame 0 :: inner). cbn. rewrite Ei. subst w0. cbn.
        rewrite <- app_assoc. split; [done|]. by apply Hstop.
    + destruct (emits_write_packet outfc p in_stream out_stream osi w0)
        as (inner & Ei & Fi).
      destruct (write_packet outfc p in_stream out_stream osi w0)
        as [reason w1].
      cbn [snd] in Ei.
      destruct (decide (reason ≠ 0)).
      * exists (EvReadFrame 0 :: inner). cbn. rewrite Ei. subst w0. cbn.
        rewrite <- app_assoc. split; [done|].
        apply Hstop; [congruence|done].
      * by apply (Hgo _ w1 inner).
Qed.

End BodyLoop.

(** ** The output stage: [write_body] and [write_output] *)

Section OutputStage.
Context {L : LibAV}.

Lemma body_event_not_flush e : body_event e → is_flush e = false.
Proof. destruct e as [| | | | |? [?|] ?| |? [?|] ?| | | | | | | |]; done. Qed.

(** What [write_body] appends to the trace: the calls of its read loop, or
    nothing when the scratch packet is NULL. *)
Lemma write_body_trace infc outfc t w :
  ∃ new,
    trace (write_body infc outfc t w).2 = trace w ++ new
    ∧ Forall body_event new
    ∧ ((write_body infc outfc t w).1.1 = Some 0 ↔ body_completed new).
Proof.
  unfold write_body, av_packet_alloc, av_frame_alloc.
  cbv beta iota delta [bind call ret].
  destruct (packet_alloc_impl (env w)) as [packet e1].
  cbn [env trace stdout next_addr].
  destruct (frame_alloc_impl e1) as [frame e2].
  set (w2 := mkWorld e2 _ _ _).
  destruct packet.
  - destruct (write_body_loop_trace frame (streams infc) (read_errno infc)
                (packets infc) outfc t w2) as (new & E & F & _ & Hc).
    by exists new.
  - exists []. cbn. rewrite app_nil_r. split; [done|]. split; [done|].
    split; [done|]. by intros ([|? ?] & ? & ? & _).
Qed.

(** C3, as amended: [write_output] writes the header exactly once, before
    every call of the body loop, and writes the trailer at most once, as its
    last call and only after the body loop ran to the end of the input.  A
    negative header status makes it return -1 without reading the input.
    After a header write that answered [AVSTREAM_INIT_IN_WRITE_HEADER], the
    trailer is written exactly when the body loop completed; the result is 0
    when the trailer write answered 0 and -1 when it failed, and a failure
    (or nothing, on undefined behaviour) when the body loop did not
    complete. *)
Theorem write_output_header_body_trailer infc outfc t w :
  ∃ hs body tl,
    trace (write_output infc outfc t w).2
      = trace w ++ EvWriteHeader hs :: body ++ tl
    ∧ Forall body_event body
    ∧ (hs < 0 →
         body = [] ∧ tl = [] ∧ (write_output infc outfc t w).1.1 = Some (-1))
    ∧ (hs = AVSTREAM_INIT_IN_WRITE_HEADER →
         (¬ body_completed body →
            tl = [] ∧ (write_output infc outfc t w).1.1 ≠ Some 0)
         ∧ (body_completed body →
            ∃ ts, tl = [EvWriteTrailer ts]
                  ∧ (write_output infc outfc t w).1.1
                    = Some (if decide (ts ≠ 0) then -1 else 0)))
    ∧ (tl = [] ∨ ∃ ts, tl = [EvWriteTrailer ts] ∧ body_completed body).
Proof.
  unfold write_output, avformat_write_header, av_write_trailer, print_error.
  cbv beta iota delta [bind call log printf ret].
  destruct (write_header_impl (env w) outfc) as [hs e1].
  cbn [env trace stdout next_addr].
  set (w1 := mkWorld e1 _ _ _).
  destruct (decide (hs ≠ AVSTREAM_INIT_IN_WRITE_HEADER)) as [Hhs|Hhs].
  { exists hs, [], []. cbn. split; [done|]. split; [constructor|].
    split; [done|]. split; [done|]. by left. }
  apply dec_stable in Hhs. assert (Hhs0 : hs = 0) by exact Hhs.
  destruct (write_body_trace infc outfc t w1) as (body & E & F & Hc).
  destruct (write_body infc outfc t w1) as [[r t'] w2].
  cbn [fst snd] in E, Hc. subst w1. cbn [trace] in E.
  rewrite <- app_assoc in E. cbn [app] in E.
  assert (Hfail : ¬ body_completed body → r ≠ Some 0) by (rewrite <- Hc; tauto).
  destruct r as [reason|].
  - destruct (decide (reason ≠ 0)) as [Hr|Hr].
    + exists hs, body, []. cbn. rewrite app_nil_r.
      assert (¬ body_completed body) by (rewrite <- Hc; congruence).
      split; [done|]. split; [done|]. split; [lia|].
      split; [|by left]. intros _. split; [|done].
      intros _. split; [done|]. congruence.
    + apply dec_stable in Hr. subst reason.
      assert (body_completed body) by (by apply Hc).
      destruct (write_trailer_impl (env w2) outfc) as [ts e3].
      exists hs, body, [EvWriteTrailer ts].
      assert (Htr : trace w2 ++ [EvWriteTrailer ts]
                    = trace w ++ EvWriteHeader hs :: body ++ [EvWriteTrailer ts]).
      { rewrite E, <- app_assoc. done. }
      destruct (decide (ts ≠ 0)); cbn.
      * split; [exact Htr|].
        split; [done|]. split; [lia|]. split; [|right; by exists ts].
        intros _. split; [intros Hn; by destruct Hn|].
        intros _. exists ts. split; [done|]. by destruct (decide (ts ≠ 0)).
      * split; [exact Htr|].
        split; [done|]. split; [lia|]. split; [|right; by exists ts].
        intros _. split; [intros Hn; by destruct Hn|].
        intros _. exists ts. split; [done|]. by destruct (decide (ts ≠ 0)).
  - exists hs, body, []. cbn. rewrite app_nil_r.
    assert (¬ body_completed body) by (rewrite <- Hc; congruence).
    split; [done|]. split; [done|]. split; [lia|].
    split; [|by left]. intros _. split; [|done]. done.
Qed.

End OutputStage.

(** C2, the claim as stated, fails: three coded units of a video stream go
    through the body loop successfully against a decoder that holds back two
    frames; no end-of-stream submission is made, one frame reaches the
    encoder and one unit is written. *)
Lemma write_body_drain_missing :
  let '(mapped, (body, _), w) :=
    Script.map_then Script.three_units [] 2 write_body in
  mapped = Some 0 ∧ body = Some 0
  ∧ length (filter is_send_packet (trace w)) = 3%nat
  ∧ existsb is_flush (trace w) = false
  ∧ length (filter is_send_frame (trace w)) = 1%nat
  ∧ length (filter is_write (trace w)) = 1%nat.
Proof. vm_compute. repeat split; reflexivity. Qed.

(** C3, the claim as stated, fails: the header write succeeds, the writer
    rejects the only coded unit, and [write_output] returns a failure
    although no header or trailer write failed. *)
Lemma write_output_fails_without_header_or_trailer_failure :
  let '(mapped, (result, _), w) :=
    Script.map_then Script.one_audio_unit [0; 0; 0; -5] 0 write_output in
  mapped = Some 0 ∧ result = Some (-1)
  ∧ existsb header_or_trailer_failed (trace w) = false.
Proof. vm_compute. repeat split; reflexivity. Qed.

(** ** The pull loops: [encode_frame_and_send] and [transcode] *)

Section PullLoops.
Context {L : LibAV}.

(** Exit of a pull loop on the drained codec. *)
Lemma drained_exit (recv : Z → Event) (s0 r : Z) :
  (∀ s, recv s = recv s0 → s = s0) →
  r = (if decide (s0 ≠ AVERROR_EOF ∧ s0 ≠ AVERROR EAGAIN) then -1 else 0) →
  ∀ s, s ≠ 0 → recv s ∈ [recv s0] →
    (∃ pre, [recv s0] = pre ++ [recv s])
    ∧ (s = AVERROR_EOF ∨ s = AVERROR EAGAIN → r = 0)
    ∧ (s ≠ AVERROR_EOF → s ≠ AVERROR EAGAIN → r = -1).
Proof.
  intros Hinj -> s Hs Hin%list_elem_of_singleton. apply Hinj in Hin as ->.
  split; [by exists []|].
  destruct (decide _) as [[H1 H2]|H]; [tauto|].
  split; [done|]. intros. destruct H. done.
Qed.

(** Exit of a pull loop after one more round. *)
Lemma round_exit (recv : Z → Event) (φ : Event → Prop) (mid rest : list Event)
    (r : Z) :
  (∀ s, ¬ φ (recv s)) → Forall φ mid →
  (∀ s, s ≠ 0 → recv s ∈ rest →
     (∃ pre, rest = pre ++ [recv s])
     ∧ (s = AVERROR_EOF ∨ s = AVERROR EAGAIN → r = 0)
     ∧ (s ≠ AVERROR_EOF → s ≠ AVERROR EAGAIN → r = -1)) →
  ∀ s, s ≠ 0 → (∀ s', recv s' = recv 0 → s' = 0) →
    recv s ∈ recv 0 :: mid ++ rest →
    (∃ pre, recv 0 :: mid ++ rest = pre ++ [recv s])
    ∧ (s = AVERROR_EOF ∨ s = AVERROR EAGAIN → r = 0)
    ∧ (s ≠ AVERROR_EOF → s ≠ AVERROR EAGAIN → r = -1).
Proof.
  intros Hφ Fmid Hrest s Hs Hinj Hin.
  apply elem_of_cons in Hin as [Hin|Hin]; [apply Hinj in Hin; done|].
  apply elem_of_app in Hin as [Hin|Hin].
  { rewrite Forall_forall in Fmid. apply Fmid in Hin. by apply Hφ in Hin. }
  destruct (Hrest s Hs Hin) as ((pre & ->) & H1 & H2).
  split; [|done]. exists (recv 0 :: mid ++ pre). cbn [app]. by rewrite <- app_assoc.
Qed.

Lemma encode_pull_loop_exit outfc a c queue reason ins outs i :
  pull_loop_exit (EvReceivePacket a) fst
    (encode_pull_loop outfc a c queue reason ins outs i).
Proof.
  revert reason. induction queue as [|p queue IH]; intros reason w.
  - exists [EvReceivePacket a (AVERROR (empty_errno c))].
    cbn [encode_pull_loop]. unfold avcodec_receive_packet.
    cbn [deref addr ready_packets ready_frames set_queues empty_errno].
    cbv beta iota delta [bind log ret print_error printf].
    split; [by destruct (decide _)|].
    apply drained_exit; [by injection 1|]. by destruct (decide _).
  - cbn [encode_pull_loop]. unfold avcodec_receive_packet.
    cbn [deref addr ready_packets ready_frames set_queues empty_errno].
    cbv beta iota delta [bind log ret].
    set (w0 := mkWorld _ _ _ _).
    destruct (emits_write_packet_only outfc p ins outs i w0)
      as (mid & Em & Fm).
    destruct (write_packet outfc p ins outs i w0) as [reason' w1].
    cbn [snd] in Em.
    destruct (decide (reason' ≠ 0)).
    + exists (EvReceivePacket a 0 :: mid). cbn [fst snd].
      rewrite Em. subst w0. cbn [trace]. rewrite <- app_assoc.
      split; [done|]. intros s Hs Hin.
      rewrite <- (app_nil_r mid) in Hin |- *.
      apply (round_exit (EvReceivePacket a) write_event mid []);
        [intros ? [] | exact Fm | | exact Hs | by injection 1 | exact Hin].
      intros ? ? Hnil. by apply elem_of_nil in Hnil.
    + destruct (IH reason' w1) as (rest & Er & Hr).
      exists (EvReceivePacket a 0 :: mid ++ rest).
      rewrite Er, Em. subst w0. cbn [trace]. rewrite <- !app_assoc.
      split; [done|]. intros s Hs Hin.
      apply (round_exit (EvReceivePacket a) write_event mid rest);
        [intros ? [] | exact Fm | exact Hr | exact Hs | by injection 1
        | exact Hin].
Qed.

Lemma encode_frame_and_send_exit outfc outcc f ins outs i :
  pull_loop_exit (EvReceivePacket (addr outcc)) fst
    (encode_frame_and_send outfc outcc f ins outs i).
Proof.
  intros w. unfold encode_frame_and_send, avcodec_send_frame.
  cbv beta iota delta [bind call log ret print_error printf].
  destruct (send_frame_impl (env w) (addr outcc) (deref outcc) (Some f))
    as [[st c] e1].
  cbn [addr deref env trace stdout next_addr].
  destruct (decide (st ≠ 0)).
  - exists [EvSendFrame (addr outcc) (Some f) st]. cbn [fst snd trace].
    split; [done|]. intros s Hs Hin%list_elem_of_singleton. done.
  - set (w0 := mkWorld _ _ _ _).
    destruct (encode_pull_loop_exit outfc (addr outcc) c (ready_packets c) st
                ins outs i w0) as (rest & Er & Hr).
    exists (EvSendFrame (addr outcc) (Some f) st :: rest).
    rewrite Er. subst w0. cbn [trace]. rewrite <- app_assoc.
    split; [done|]. intros s Hs Hin.
    apply elem_of_cons in Hin as [Hin|Hin]; [done|].
    destruct (Hr s Hs Hin) as ((pre & ->) & H1 & H2).
    split; [|done]. by exists (EvSendFrame (addr outcc) (Some f) st :: pre).
Qed.

Lemma decode_pull_loop_exit outfc a c queue outcc reason ins outs i :
  pull_loop_exit (EvReceiveFrame a) (λ r, r.1.1)
    (decode_pull_loop outfc a c queue outcc reason ins outs i).
Proof.
  revert outcc. induction queue as [|f queue IH]; intros outcc w.
  - exists [EvReceiveFrame a (AVERROR (empty_errno c))].
    cbn [decode_pull_loop]. unfold avcodec_receive_frame.
    cbn [deref addr ready_packets ready_frames set_queues empty_errno].
    cbv beta iota delta [bind log ret print_error printf].
    split; [by destruct (decide _)|].
    apply drained_exit; [by injection 1|]. by destruct (decide _).
  - cbn [decode_pull_loop]. unfold avcodec_receive_frame.
    cbn [deref addr ready_packets ready_frames set_queues empty_errno].
    cbv beta iota delta [bind log ret].
    set (w0 := mkWorld _ _ _ _).
    destruct (emits_encode_frame_and_send_only outfc outcc f ins outs i w0)
      as (mid & Em & Fm).
    destruct (encode_frame_and_send outfc outcc f ins outs i w0)
      as [[ignored outcc'] w1].
    cbn [snd] in Em.
    destruct (IH outcc' w1) as (rest & Er & Hr).
    exists (EvReceiveFrame a 0 :: mid ++ rest).
    rewrite Er, Em. subst w0. cbn [trace]. rewrite <- !app_assoc.
    split; [done|]. intros s Hs Hin.
    apply (round_exit (EvReceiveFrame a) encoder_event mid rest);
      [intros ? [] | exact Fm | exact Hr | exact Hs | by injection 1
      | exact Hin].
Qed.

Lemma transcode_exit outfc incc outcc p ins outs i :
  pull_loop_exit (EvReceiveFrame (addr incc)) (λ r, r.1.1)
    (transcode outfc incc outcc p ins outs i).
Proof.
  intros w. unfold transcode, avcodec_send_packet.
  cbv beta iota delta [bind call log ret print_error printf].
  destruct (send_packet_impl (env w) (addr incc) (deref incc) (Some p))
    as [[st c] e1].
  cbn [addr deref env trace stdout next_addr].
  destruct (decide (st ≠ 0)).
  - exists [EvSendPacket (addr incc) (Some p) st]. cbn [fst snd trace].
    split; [done|]. intros s Hs Hin%list_elem_of_singleton. done.
  - set (w0 := mkWorld _ _ _ _).
    destruct (decode_pull_loop_exit outfc (addr incc) c (ready_frames c) outcc
                st ins outs i w0) as (rest & Er & Hr).
    exists (EvSendPacket (addr incc) (Some p) st :: rest).
    rewrite Er. subst w0. cbn [trace]. rewrite <- app_assoc.
    split; [done|]. intros s Hs Hin.
    apply elem_of_cons in Hin as [Hin|Hin]; [done|].
    destruct (Hr s Hs Hin) as ((pre & ->) & H1 & H2).
    split; [|done]. by exists (EvSendPacket (addr incc) (Some p) st :: pre).
Qed.

(** In the encode pull loop of [encode_frame_and_send] and in the decode
    pull loop of [transcode], a receive call that answers a non-zero status
    is the last call of the operation; when the status is "end of stream"
    or "try again" the operation returns 0, and for any other status it
    returns -1. *)
Lemma pull_loops_exit_status :
  (∀ outfc outcc f ins outs i,
     pull_loop_exit (EvReceivePacket (addr outcc)) fst
       (encode_frame_and_send outfc outcc f ins outs i))
  ∧ (∀ outfc incc outcc p ins outs i,
       pull_loop_exit (EvReceiveFrame (addr incc)) (λ r, r.1.1)
         (transcode outfc incc outcc p ins outs i)).
Proof.
  split.
  - intros. apply encode_frame_and_send_exit.
  - intros. apply transcode_exit.
Qed.

End PullLoops.

(** C1, the code at a failing input: the decoder accepts a coded unit and
    hands out one frame; the encoder rejects that frame with
    [AVERROR(EINVAL)] (first script), or accepts it while the writer rejects
    its output unit (second script).  [transcode] prints the diagnostic and
    returns 0; in the body loop the run goes on with the next units and
    [write_body] returns 0 with one unit missing from the output. *)
Lemma transcode_swallows_encoder_failure :
  (let '(r, _, _, w) := Script.transcode_unit [0; -22] in
   r = 0
   ∧ filter is_send_frame (trace w)
     = [EvSendFrame 1 (Some (Script.frame_of (Script.unit_of 0 7 [x01]%byte)))
          (-22)]
   ∧ stdout w = ["Failed to send encode frame: Invalid argument"])
  ∧ (let '(r, _, _, w) := Script.transcode_unit [0; 0; -5] in
     r = 0 ∧ stdout w = ["Failed to write frame: Input/output error"])
  ∧ (let '(mapped, (body, _), w) :=
       Script.map_then Script.three_units (Script.video_mapped ++ [0; -22]) 0
         write_body in
     mapped = Some 0 ∧ body = Some 0
     ∧ length (filter is_send_packet (trace w)) = 3%nat
     ∧ length (filter is_write (trace w)) = 2%nat).
Proof. vm_compute. repeat split; reflexivity. Qed.

(** C7, the code at a failing input: the decoder accepts the coded unit and
    its receive call then fails with [AVERROR(EINVAL)] (first script); the
    encoder's receive call fails likewise (second script).  The diagnostic
    decodes the status 0 that the variable [reason] holds, not the failing
    status -22. *)
Lemma receive_failure_reports_wrong_status :
  @av_strerror Script.lib (-22) = "Invalid argument"
  ∧ (let '(r, _, _, w) := Script.transcode_unit [22] in
     r = -1
     ∧ last (trace w) = Some (EvReceiveFrame 0 (-22))
     ∧ stdout w = ["Failed to receive decode frames: Success"])
  ∧ (let '(r, _, w) :=
       encode_frame_and_send (L := Script.lib) Script.empty_output
         Script.encoder (mkFrame 7 [x01]%byte) Script.video_stream
         Script.output_stream 0 (Script.world [22] 0) in
     r = -1
     ∧ last (trace w) = Some (EvReceivePacket 1 (-22))
     ∧ stdout w = ["Failed to receive encode packets: Success"]).
Proof. vm_compute. repeat split; reflexivity. Qed.

(** C5, the code at a failing input: the encoder accepts the frame of a
    coded unit, hands out one packet, and its next receive call answers
    [AVERROR(EINVAL)], a status that is neither "end of stream" nor "try
    again".  [encode_frame_and_send] returns -1 (first run), but [transcode]
    drops that result and returns 0 (second run), and the body loop goes on
    with the next two units and returns 0 (third run): the status is not
    fatal.  The same status from the decoder's receive call does stop the
    body loop, after the first unit (fourth run). *)
Lemma encoder_receive_failure_not_fatal :
  (let '(r, _, w) := Inputs.encode_frame [22] in
   r = -1 ∧ fatal_packet_statuses (trace w) = [-22])
  ∧ (let '(r, _, _, w) := Script.transcode_unit [0; 22] in
     r = 0 ∧ fatal_packet_statuses (trace w) = [-22]
     ∧ last (trace w) = Some (EvReceiveFrame 0 (AVERROR EAGAIN)))
  ∧ (let '(mapped, (body, _), w) :=
       Script.map_then Script.three_units (Script.video_mapped ++ [0; 22]) 0
         write_body in
     mapped = Some 0 ∧ body = Some 0
     ∧ fatal_packet_statuses (trace w) = [-22]
     ∧ length (filter is_send_packet (trace w)) = 3%nat
     ∧ length (filter is_write (trace w)) = 3%nat)
  ∧ (let '(mapped, (body, _), w) :=
       Script.map_then Script.three_units (Script.video_mapped ++ [22]) 0
         write_body in
     mapped = Some 0 ∧ body = Some (-1)
     ∧ last (trace w) = Some (EvReceiveFrame 0 (-22))
     ∧ length (filter is_send_packet (trace w)) = 1%nat).
Proof. vm_compute. repeat split; reflexivity. Qed.

(** ** The copy forwarder *)

Section Copy.
Context {L : LibAV}.

Lemma write_packet_trace outfc p ins outs i w :
  ∃ status,
    trace (write_packet outfc p ins outs i w).2
      = trace w ++ [EvWriteFrame (forwarded p ins outs i) status]
    ∧ next_addr (write_packet outfc p ins outs i w).2 = next_addr w
    ∧ (write_packet outfc p ins outs i w).1
      = (if decide (status ≠ 0) then -1 else 0).
Proof.
  unfold write_packet, av_interleaved_write_frame, print_error.
  cbv beta iota delta [bind call log printf ret].
  change (av_packet_rescale_ts (set_stream_index p i) (time_base ins)
            (time_base outs)) with (forwarded p ins outs i).
  destruct (interleaved_write_frame_impl (env w) outfc (forwarded p ins outs i))
    as [status e1].
  exists status. by destruct (decide (status ≠ 0)).
Qed.

(** C8: for a coded unit [p] of a pass-through stream (its entry in the
    index map is not -1 and its encode context is NULL), the body loop makes
    exactly one call besides the read: the write of [forwarded p], whose
    payload is that of [p], whose stream index is the mapped output index
    and whose time stamps are rebased from the time base of the input stream
    to that of the output stream.  No codec context is allocated or used,
    and the loop goes on (or stops with the failure of the write) with the
    tables unchanged. *)
Theorem copy_forwarder_fidelity frame ins errno p queue outfc t w
    in_stream out_stream out_stream_index :
  at_index (out_stream_indices t) (stream_index p) = Some out_stream_index →
  out_stream_index ≠ -1 →
  at_index ins (stream_index p) = Some in_stream →
  at_index (streams outfc) out_stream_index = Some out_stream →
  at_index (out_codec_contexts t) (stream_index p) = Some None →
  ∃ status w1,
    trace w1
      = trace w ++ [EvReadFrame 0;
                    EvWriteFrame
                      (forwarded p in_stream out_stream out_stream_index)
                      status]
    ∧ next_addr w1 = next_addr w
    ∧ data (forwarded p in_stream out_stream out_stream_index) = data p
    ∧ stream_index (forwarded p in_stream out_stream out_stream_index)
      = out_stream_index
    ∧ write_body_loop frame ins errno (p :: queue) outfc t w
      = (if decide (status ≠ 0) then (Some (-1), t, w1)
         else write_body_loop frame ins errno queue outfc t w1).
Proof.
  intros Hix Hkept Hin Hout Hcc.
  cbn [write_body_loop].
  cbv beta iota delta [bind av_read_frame log ret packets].
  rewrite Hix. destruct (decide (out_stream_index = -1)); [done|].
  rewrite Hin, Hout, Hcc.
  set (w0 := mkWorld _ _ _ _).
  destruct (write_packet_trace outfc p in_stream out_stream out_stream_index w0)
    as (status & Et & Ea & Er).
  destruct (write_packet outfc p in_stream out_stream out_stream_index w0)
    as [reason w1].
  cbn [fst snd] in Et, Ea, Er. subst reason.
  exists status, w1. subst w0. cbn [trace next_addr] in Et, Ea.
  rewrite <- app_assoc in Et.
  split; [exact Et|]. split; [exact Ea|]. split; [done|]. split; [done|].
  destruct (decide (status ≠ 0)); [|by rewrite decide_False by lia].
  by rewrite decide_True by lia.
Qed.

End Copy.

(** C8 at a concrete input: one coded unit of an audio stream mapped to
    output stream 0. *)
Lemma copy_forwarder_fidelity_witness :
  let p := Script.unit_of 0 960 [x2a; x2b]%byte in
  let out_stream := mkStream (codecpar Script.audio_stream) (mkRational 1 90000) in
  ∃ status w1,
    trace w1
      = trace (Script.world [] 0)
        ++ [EvReadFrame 0;
            EvWriteFrame
              (forwarded (L := Script.lib) p Script.audio_stream out_stream 0)
              status]
    ∧ next_addr w1 = next_addr (Script.world [] 0)
    ∧ data (forwarded (L := Script.lib) p Script.audio_stream out_stream 0)
      = data p
    ∧ stream_index
        (forwarded (L := Script.lib) p Script.audio_stream out_stream 0) = 0
    ∧ write_body_loop (L := Script.lib) true [Script.audio_stream] EOF_TAG
        [p] Script.audio_output Script.audio_mapping (Script.world [] 0)
      = (if decide (status ≠ 0) then (Some (-1), Script.audio_mapping, w1)
         else
           write_body_loop true [Script.audio_stream] EOF_TAG []
             Script.audio_output Script.audio_mapping w1).
Proof.
  intros p out_stream.
  apply (copy_forwarder_fidelity (L := Script.lib) true
           [Script.audio_stream] EOF_TAG p [] Script.audio_output Script.audio_mapping
           (Script.world [] 0) Script.audio_stream out_stream 0);
    [reflexivity | lia | reflexivity | reflexivity | reflexivity].
Defined.

(** ** The codec context factory *)

Section Factory.
Context {L : LibAV}.

(** C9: when [create_encode_context] returns a context, it made two
    library calls: the allocation of that context and its opening against
    the given target codec, which answered 0; the context handed to the
    opening carries the width, height, sample aspect ratio, pixel format and
    bit rate of the decode context, and as time base the inverse of the
    frame rate guessed from the input container and stream. *)
Theorem create_encode_context_configures out_codec incc infc in_stream w outcc :
  (create_encode_context out_codec incc infc in_stream w).1 = Some outcc →
  ∃ cfg,
    trace (create_encode_context out_codec incc infc in_stream w).2
      = trace w ++ [EvAllocContext (addr outcc) out_codec;
                    EvOpen (addr outcc) cfg out_codec 0]
    ∧ width cfg = width (deref incc)
    ∧ height cfg = height (deref incc)
    ∧ sample_aspect_ratio cfg = sample_aspect_ratio (deref incc)
    ∧ pix_fmt cfg = pix_fmt (deref incc)
    ∧ bit_rate cfg = bit_rate (deref incc)
    ∧ ctx_time_base cfg = av_inv_q (av_guess_frame_rate infc in_stream).
Proof.
  unfold create_encode_context, avcodec_alloc_context3, avcodec_open2,
    avcodec_free_context, print_error.
  cbv beta iota delta [bind call log printf ret fresh_addr].
  destruct (alloc_context3_impl (env w) out_codec) as [[c|] e1];
    cbn [env trace stdout next_addr addr deref]; [|done].
  match goal with
  | |- context [open2_impl e1 (next_addr w) ?cfg out_codec] =>
      set (cfg0 := cfg)
  end.
  destruct (open2_impl e1 (next_addr w) cfg0 out_codec) as [[st c'] e2].
  destruct (decide (st ≠ 0)) as [Hst|Hst]; cbn [fst snd trace]; [done|].
  apply dec_stable in Hst. subst st.
  intros [= <-]. cbn [addr]. exists cfg0.
  rewrite <- app_assoc. done.
Qed.

End Factory.

(** C9 at a concrete input: the encode context for the video stream of the
    scripted library, derived from a decode context of 640x480. *)
Lemma create_encode_context_configures_witness :
  let incc := mkPtr 0 (mkContext 640 480 (mkRational 1 1) 0 400000
                         (mkRational 0 1) [] [] EAGAIN) in
  let outcc := mkPtr 0 (mkContext 640 480 (mkRational 1 1) 0 400000
                          (mkRational 1 25) [] [] EAGAIN) in
  ∃ cfg,
    trace (create_encode_context (L := Script.lib) Script.libx265 incc
             Script.three_units Script.video_stream (Script.world [] 0)).2
      = trace (Script.world [] 0)
        ++ [EvAllocContext (addr outcc) Script.libx265;
            EvOpen (addr outcc) cfg Script.libx265 0]
    ∧ width cfg = width (deref incc)
    ∧ height cfg = height (deref incc)
    ∧ sample_aspect_ratio cfg = sample_aspect_ratio (deref incc)
    ∧ pix_fmt cfg = pix_fmt (deref incc)
    ∧ bit_rate cfg = bit_rate (deref incc)
    ∧ ctx_time_base cfg
      = av_inv_q
          (@av_guess_frame_rate Script.lib Script.three_units
             Script.video_stream).
Proof.
  intros incc outcc.
  apply (create_encode_context_configures (L := Script.lib) Script.libx265
           incc Script.three_units Script.video_stream (Script.world [] 0)
           outcc).
  reflexivity.
Defined.

(** ** The stream mapper: [create_streams] *)

Section LedgerRules.
Context {L : LibAV}.

Lemma allocs_app l1 l2 : allocs (l1 ++ l2) = allocs l1 ++ allocs l2.
Proof. apply omap_app. Qed.

Lemma frees_app l1 l2 : frees (l1 ++ l2) = frees l1 ++ frees l2.
Proof. apply omap_app. Qed.

Lemma step_nil (w : World L) h : step w w [] h h.
Proof.
  split; [by rewrite app_nil_r|]. exists 0%nat.
  split; [lia|]. split; done.
Qed.

Lemma step_quiet (w w' : World L) new h :
  trace w' = trace w ++ new → next_addr w' = next_addr w →
  allocs new = [] → frees new = [] → step w w' new h h.
Proof.
  intros E N A F. split; [done|]. exists 0%nat.
  rewrite A, F. split; [lia|]. done.
Qed.

Lemma step_trans (w w1 w2 : World L) n1 n2 h0 h1 h2 :
  step w w1 n1 h0 h1 → step w1 w2 n2 h1 h2 → step w w2 (n1 ++ n2) h0 h2.
Proof.
  intros (E1 & k1 & N1 & A1 & P1) (E2 & k2 & N2 & A2 & P2).
  split; [by rewrite E2, E1, app_assoc|].
  exists (k1 + k2)%nat. split; [lia|].
  rewrite allocs_app, frees_app, A1, A2, N1, seq_app.
  split; [done|].
  rewrite <- A1, <- N1, <- A2.
  rewrite <- (assoc_L (++)), (comm (++) (allocs n2)), (assoc_L (++)), P1.
  rewrite <- !(assoc_L (++)). f_equiv.
  rewrite (comm (++) h1), P2. done.
Qed.

Lemma step_after (w w' : World L) new h h1 h2 :
  h1 ≡ₚ h2 → step w w' new h h1 → step w w' new h h2.
Proof.
  intros Hp (E & k & N & A & P). split; [done|]. exists k.
  by rewrite <- Hp.
Qed.

Lemma step_before (w w' : World L) new h h1 h2 :
  h1 ≡ₚ h2 → step w w' new h1 h → step w w' new h2 h.
Proof.
  intros Hp (E & k & N & A & P). split; [done|]. exists k.
  by rewrite <- Hp.
Qed.

Lemma addrs_insert l i x y :
  l !! i = Some x →
  option_list (addr <$> x) ++ addrs (<[i := y]> l)
  ≡ₚ option_list (addr <$> y) ++ addrs l.
Proof.
  revert i. induction l as [|z l IH]; intros [|i] Hl; try done.
  - injection Hl as ->. unfold addrs. cbn.
    destruct x as [x|], y as [y|]; cbn; try done. apply perm_swap.
  - cbn in Hl. unfold addrs in *. cbn.
    destruct z as [z|]; cbn; [|by apply IH].
    rewrite <- !Permutation_middle. f_equiv. by apply IH.
Qed.

Lemma addrs_replicate n : addrs (replicate n None) = [].
Proof. induction n; [done|]. unfold addrs in *. by cbn. Qed.

End LedgerRules.

(** Closes a [step] goal between explicit worlds, with [k] allocations. *)
Ltac step_leaf k :=
  split;
  [ cbn [trace]; by rewrite <- ?app_assoc
  | exists k; cbn [next_addr];
    split; [lia | split; [by cbn | by cbn]] ].

Ltac no_failure := repeat constructor; intros [].

Section Mapper.
Context {L : LibAV}.

Lemma create_decode_context_step in_codec par (w : World L) h :
  ∃ new,
    step w (create_decode_context in_codec par w).2 new h
      (match (create_decode_context in_codec par w).1 with
       | Some p => addr p :: h
       | None => h
       end)
    ∧ Forall (λ e, ¬ mapping_failure e) new.
Proof.
  unfold create_decode_context, avcodec_alloc_context3,
    avcodec_parameters_to_context, avcodec_open2, avcodec_free_context,
    print_error.
  cbv beta iota delta [bind call log printf ret fresh_addr].
  destruct (alloc_context3_impl (env w) in_codec) as [[c|] e1];
    cbn [env trace stdout next_addr addr deref fst snd].
  2:{ exists [EvAllocFailed in_codec]. split; [step_leaf 0%nat | no_failure]. }
  destruct (parameters_to_context_impl e1 c par) as [[s1 c1] e2].
  cbn [env trace stdout next_addr addr deref fst snd].
  destruct (decide (s1 ≠ 0)); cbn [env trace stdout next_addr addr deref fst snd].
  { eexists [_; _; _]. split; [step_leaf 1%nat | no_failure]. }
  destruct (open2_impl e2 (next_addr w) c1 in_codec) as [[s2 c2] e3].
  destruct (decide (s2 ≠ 0)); cbn [env trace stdout next_addr addr deref fst snd].
  { eexists [_; _; _; _]. split; [step_leaf 1%nat | no_failure]. }
  eexists [_; _; _]. split; [step_leaf 1%nat | no_failure].
Qed.

Lemma create_encode_context_step out_codec incc infc in_stream (w : World L) h :
  ∃ new,
    step w (create_encode_context out_codec incc infc in_stream w).2 new h
      (match (create_encode_context out_codec incc infc in_stream w).1 with
       | Some p => addr p :: h
       | None => h
       end)
    ∧ Forall (λ e, ¬ mapping_failure e) new.
Proof.
  unfold create_encode_context, avcodec_alloc_context3, avcodec_open2,
    avcodec_free_context, print_error.
  cbv beta iota delta [bind call log printf ret fresh_addr].
  destruct (alloc_context3_impl (env w) out_codec) as [[c|] e1];
    cbn [env trace stdout next_addr addr deref fst snd].
  2:{ exists [EvAllocFailed out_codec]. split; [step_leaf 0%nat | no_failure]. }
  match goal with
  | |- context [open2_impl e1 (next_addr w) ?cfg out_codec] =>
      destruct (open2_impl e1 (next_addr w) cfg out_codec) as [[s2 c2] e3]
  end.
  destruct (decide (s2 ≠ 0)); cbn [env trace stdout next_addr addr deref fst snd].
  { eexists [_; _; _]. split; [step_leaf 1%nat | no_failure]. }
  eexists [_; _]. split; [step_leaf 1%nat | no_failure].
Qed.

Lemma store_lookup {A} (l : list A) i x y :
  l !! i = Some x → store l i y = Some (<[i := y]> l).
Proof.
  intros H%lookup_lt_Some. unfold store. by rewrite decide_True.
Qed.

Lemma held_store_in t i p :
  in_codec_contexts t !! i = Some None →
  held (mkTables (out_stream_indices t)
          (<[i := Some p]> (in_codec_contexts t)) (out_codec_contexts t))
  ≡ₚ addr p :: held t.
Proof.
  intros H. unfold held; cbn [in_codec_contexts out_codec_contexts].
  assert (P : addrs (<[i := Some p]> (in_codec_contexts t))
              ≡ₚ addr p :: addrs (in_codec_contexts t))
    by exact (addrs_insert _ i None (Some p) H).
  by rewrite P.
Qed.

Lemma held_store_out t i p :
  out_codec_contexts t !! i = Some None →
  held (mkTables (out_stream_indices t) (in_codec_contexts t)
          (<[i := Some p]> (out_codec_contexts t)))
  ≡ₚ addr p :: held t.
Proof.
  intros H. unfold held; cbn [in_codec_contexts out_codec_contexts].
  assert (P : addrs (<[i := Some p]> (out_codec_contexts t))
              ≡ₚ addr p :: addrs (out_codec_contexts t))
    by exact (addrs_insert _ i None (Some p) H).
  by rewrite P, Permutation_middle.
Qed.

Lemma create_video_contexts_step infc out_codec i in_stream t (w : World L)
    e outcc t' w' :
  in_codec_contexts t !! i = Some None →
  out_codec_contexts t !! i = Some None →
  create_video_contexts infc out_codec i in_stream t w = (e, outcc, t', w') →
  (∃ new,
     step w w' new (held t) (held t')
     ∧ Forall (λ e, ¬ mapping_failure e) new)
  ∧ e ≠ Undefined
  ∧ (e = Continue →
       is_Some outcc
       ∧ avcodec_find_decoder (codec_id (codecpar in_stream)) ≠ None)
  ∧ out_stream_indices t' = out_stream_indices t
  ∧ length (in_codec_contexts t') = length (in_codec_contexts t)
  ∧ length (out_codec_contexts t') = length (out_codec_contexts t)
  ∧ (∀ j, j ≠ i →
       in_codec_contexts t' !! j = in_codec_contexts t !! j
       ∧ out_codec_contexts t' !! j = out_codec_contexts t !! j).
Proof.
  intros Hin Hout. unfold create_video_contexts.
  destruct (avcodec_find_decoder (codec_id (codecpar in_stream)))
    as [in_codec|].
  2:{ cbv beta iota delta [bind printf ret]. intros [= <- <- <- <-].
      split; [|by repeat split].
      exists []. split; [split; [by rewrite app_nil_r|]; exists 0%nat; cbn; split; [lia|done] | constructor]. }
  cbv beta iota delta [bind ret].
  destruct (create_decode_context_step in_codec (codecpar in_stream) w (held t))
    as (n1 & S1 & F1).
  destruct (create_decode_context in_codec (codecpar in_stream) w)
    as [[incc|] w1]; cbn [fst snd] in S1.
  2:{ intros [= <- <- <- <-]. split; [by exists n1|]. by repeat split. }
  rewrite (store_lookup _ _ None) by done.
  set (t1 := mkTables _ (<[i:=Some incc]> _) _).
  assert (S1' : step w w1 n1 (held t) (held t1)).
  { eapply step_after; [|exact S1]. symmetry. by apply held_store_in. }
  destruct (create_encode_context_step out_codec incc infc in_stream w1
              (held t1)) as (n2 & S2 & F2).
  destruct (create_encode_context out_codec incc infc in_stream w1)
    as [[outcc'|] w2]; cbn [fst snd] in S2.
  2:{ intros [= <- <- <- <-]. split.
      { exists (n1 ++ n2). split; [by eapply step_trans|by apply Forall_app]. }
      subst t1; cbn. rewrite length_insert. repeat split; try done.
      by rewrite list_lookup_insert_ne. }
  cbn [out_codec_contexts in_codec_contexts out_stream_indices t1].
  rewrite (store_lookup _ _ None) by done.
  intros [= <- <- <- <-]. split.
  { exists (n1 ++ n2). split; [|by apply Forall_app].
    eapply step_trans; [exact S1'|]. eapply step_after; [|exact S2].
    symmetry. by apply (held_store_out t1). }
  cbn. rewrite !length_insert. repeat split; try done.
  - by rewrite list_lookup_insert_ne.
  - by rewrite list_lookup_insert_ne.
Qed.

Lemma create_output_stream_step outfc par outcc (w : World L) e outfc' w' h :
  create_output_stream outfc par outcc w = (e, outfc', w') →
  (codec_type par = AVMEDIA_TYPE_VIDEO → is_Some outcc) →
  (∃ new,
     step w w' new h h
     ∧ (e = Continue → Forall (λ e, ¬ mapping_failure e) new))
  ∧ e ≠ Undefined.
Proof.
  unfold create_output_stream, avformat_new_stream,
    avcodec_parameters_from_context, avcodec_parameters_copy, print_error.
  cbv beta iota delta [bind call log printf ret].
  destruct (new_stream_impl (env w) outfc) as [[st|] e1];
    cbn [env trace stdout next_addr fst snd].
  2:{ intros [= <- <- <-] _. split; [|done].
      exists [EvNewStream false]. split; [|done].
      apply step_quiet; by cbn. }
  destruct (decide (codec_type par = AVMEDIA_TYPE_VIDEO)) as [Hv|Hv].
  - intros E Hcc. destruct (Hcc Hv) as [cc ->]. revert E.
    cbn [env trace stdout next_addr fst snd].
    destruct (parameters_from_context_impl e1 (codecpar st) (deref cc))
      as [[s1 par'] e2].
    destruct (decide (s1 ≠ 0)) as [Hs|Hs];
      cbn [env trace stdout next_addr fst snd]; intros [= <- <- <-].
    + split; [|done]. eexists [_; _]. split; [|done].
      apply step_quiet; cbn; by rewrite <- ?app_assoc.
    + split; [|done]. eexists [_; _]. split.
      * apply step_quiet; cbn; by rewrite <- ?app_assoc.
      * intros _. apply dec_stable in Hs. subst s1.
        repeat constructor; cbn; tauto.
  - cbn [env trace stdout next_addr fst snd].
    destruct (parameters_copy_impl e1 (codecpar st) par) as [[s1 par'] e2].
    destruct (decide (s1 ≠ 0)) as [Hs|Hs];
      cbn [env trace stdout next_addr fst snd]; intros [= <- <- <-] _.
    + split; [|done]. eexists [_; _]. split; [|done].
      apply step_quiet; cbn; by rewrite <- ?app_assoc.
    + split; [|done]. eexists [_; _]. split.
      * apply step_quiet; cbn; by rewrite <- ?app_assoc.
      * intros _. apply dec_stable in Hs. subst s1.
        repeat constructor; cbn; tauto.
Qed.

Lemma kept_spec s :
  kept s = true
  ↔ ¬ (codec_type (codecpar s) ≠ AVMEDIA_TYPE_AUDIO
       ∧ codec_type (codecpar s) ≠ AVMEDIA_TYPE_VIDEO).
Proof.
  unfold kept. rewrite bool_decide_eq_true.
  destruct (decide (codec_type (codecpar s) = AVMEDIA_TYPE_AUDIO));
    destruct (decide (codec_type (codecpar s) = AVMEDIA_TYPE_VIDEO)); tauto.
Qed.

Lemma create_streams_body_step infc out_codec i in_stream sc outfc t
    (w : World L) e sc' outfc' t' w' :
  is_Some (out_stream_indices t !! i) →
  in_codec_contexts t !! i = Some None →
  out_codec_contexts t !! i = Some None →
  create_streams_body infc out_codec i in_stream sc outfc t w
    = (e, sc', outfc', t', w') →
  (∃ new,
     step w w' new (held t) (held t')
     ∧ (e = Continue → Forall (λ e, ¬ mapping_failure e) new))
  ∧ e ≠ Undefined
  ∧ (e = Continue → ¬ undecodable in_stream)
  ∧ length (out_stream_indices t') = length (out_stream_indices t)
  ∧ length (in_codec_contexts t') = length (in_codec_contexts t)
  ∧ length (out_codec_contexts t') = length (out_codec_contexts t)
  ∧ (∀ j, j ≠ i →
       out_stream_indices t' !! j = out_stream_indices t !! j
       ∧ in_codec_contexts t' !! j = in_codec_contexts t !! j
       ∧ out_codec_contexts t' !! j = out_codec_contexts t !! j).
Proof.
  intros [x Hix] Hin Hout. unfold create_streams_body.
  destruct (decide (_ ∧ _)) as [Hk|Hk].
  { rewrite (store_lookup _ _ x) by done. cbv beta iota delta [ret].
    intros [= <- <- <- <- <-]. cbn. rewrite length_insert.
    split; [exists []; split; [apply step_nil|done]|].
    split; [done|]. split; [intros _ [Hv _]; tauto|].
    repeat split; try done. by rewrite list_lookup_insert_ne. }
  cbv beta iota delta [bind].
  destruct (decide (codec_type (codecpar in_stream) = AVMEDIA_TYPE_VIDEO))
    as [Hv|Hv].
  - destruct (create_video_contexts infc out_codec i in_stream t w)
      as [[[e1 outcc] t1] w1] eqn:E1.
    apply create_video_contexts_step in E1
      as ((n1 & S1 & F1) & Hu1 & Hc1 & Hi1 & Hl1 & Hl1' & Hj1); [|done..].
    destruct e1; [| |done].
    2:{ cbv beta iota delta [ret]. intros [= <- <- <- <- <-].
        split; [by exists n1|]. rewrite Hi1.
        do 5 (split; [done|]).
        intros j Hj. by destruct (Hj1 j Hj). }
    destruct (Hc1 eq_refl) as [Hcc Hdec].
    destruct (create_output_stream outfc (codecpar in_stream) outcc w1)
      as [[e2 outfc2] w2] eqn:E2.
    apply (create_output_stream_step _ _ _ _ _ _ _ (held t1)) in E2
      as ((n2 & S2 & F2) & Hu2); [|done].
    assert (S12 : step w w2 (n1 ++ n2) (held t) (held t1))
      by (by eapply step_trans).
    destruct e2; [| |done].
    + rewrite Hi1, (store_lookup _ _ x) by done. cbv beta iota delta [ret].
      intros [= <- <- <- <- <-].
      split.
      { exists (n1 ++ n2). split; [exact S12|].
        intros _. apply Forall_app; auto. }
      cbn [out_stream_indices in_codec_contexts out_codec_contexts].
      rewrite length_insert.
      split; [done|]. split; [intros _ [_ ?]; done|].
      do 3 (split; [done|]). intros j Hj.
      rewrite list_lookup_insert_ne by done. split; [done|]. by apply Hj1.
    + cbv beta iota delta [ret]. intros [= <- <- <- <- <-].
      split; [exists (n1 ++ n2); split; done|].
      repeat split; try done; try (by rewrite Hi1); by apply Hj1.
  - cbv beta iota delta [ret].
    destruct (create_output_stream outfc (codecpar in_stream) None w)
      as [[e2 outfc2] w2] eqn:E2.
    apply (create_output_stream_step _ _ _ _ _ _ _ (held t)) in E2
      as ((n2 & S2 & F2) & Hu2); [|done].
    destruct e2; [| |done].
    + rewrite (store_lookup _ _ x) by done.
      intros [= <- <- <- <- <-]. cbn. rewrite length_insert.
      split; [by exists n2|].
      split; [done|]. split; [intros _ [? _]; done|].
      repeat split; try done. by rewrite list_lookup_insert_ne.
    + intros [= <- <- <- <- <-]. split; [by exists n2|]. by repeat split.
Qed.

Lemma create_streams_loop_step infc out_codec rest :
  ∀ i sc outfc t (w : World L) e outfc' t' w',
    (∀ j, (i ≤ j < i + length rest)%nat →
       is_Some (out_stream_indices t !! j)
       ∧ in_codec_contexts t !! j = Some None
       ∧ out_codec_contexts t !! j = Some None) →
    create_streams_loop infc out_codec i rest sc outfc t w
      = (e, outfc', t', w') →
    (∃ new,
       step w w' new (held t) (held t')
       ∧ (e = Continue → Forall (λ e, ¬ mapping_failure e) new))
    ∧ e ≠ Undefined
    ∧ (e = Continue → Forall (λ s, ¬ undecodable s) rest)
    ∧ length (in_codec_contexts t') = length (in_codec_contexts t)
    ∧ length (out_codec_contexts t') = length (out_codec_contexts t).
Proof.
  induction rest as [|s rest IH]; intros i sc outfc t w e outfc' t' w' Hfresh.
  - cbn. intros [= <- <- <- <-].
    split; [exists []; split; [apply step_nil|done]|]. by repeat split.
  - cbn [create_streams_loop]. cbv beta iota delta [bind].
    destruct (create_streams_body infc out_codec i s sc outfc t w)
      as [[[[e1 sc1] outfc1] t1] w1] eqn:E1.
    destruct (Hfresh i) as (Hix & Hin & Hout); [cbn; lia|].
    apply create_streams_body_step in E1
      as ((n1 & S1 & F1) & Hu1 & Hd1 & Hl0 & Hl1 & Hl2 & Hj1); [|done..].
    destruct e1; [| |done].
    + intros E2. apply IH in E2
        as ((n2 & S2 & F2) & Hu2 & Hd2 & Hl3 & Hl4).
      * split.
        { exists (n1 ++ n2). split; [by eapply step_trans|].
          intros He. apply Forall_app. auto. }
        split; [done|]. split; [intros He; constructor; auto|].
        split; congruence.
      * intros j Hj. destruct (Hj1 j) as (-> & -> & ->); [lia|].
        apply Hfresh. cbn. lia.
    + cbv beta iota delta [ret]. intros [= <- <- <- <-].
      split; [by exists n1|]. by repeat split.
Qed.

Lemma held_free_in t i p :
  in_codec_contexts t !! i = Some p →
  held t ≡ₚ option_list (addr <$> p)
            ++ held (mkTables (out_stream_indices t)
                       (<[i := None]> (in_codec_contexts t))
                       (out_codec_contexts t)).
Proof.
  intros H. unfold held; cbn [in_codec_contexts out_codec_contexts].
  assert (P : option_list (addr <$> p)
              ++ addrs (<[i := None]> (in_codec_contexts t))
              ≡ₚ addrs (in_codec_contexts t))
    by exact (addrs_insert _ i p None H).
  by rewrite (assoc_L (++)), P.
Qed.

Lemma held_free_out t i p :
  out_codec_contexts t !! i = Some p →
  held t ≡ₚ option_list (addr <$> p)
            ++ held (mkTables (out_stream_indices t) (in_codec_contexts t)
                       (<[i := None]> (out_codec_contexts t))).
Proof.
  intros H. unfold held; cbn [in_codec_contexts out_codec_contexts].
  assert (P : option_list (addr <$> p)
              ++ addrs (<[i := None]> (out_codec_contexts t))
              ≡ₚ addrs (out_codec_contexts t))
    by exact (addrs_insert _ i p None H).
  rewrite <- P.
  rewrite !(assoc_L (++)). f_equiv. apply (comm (++)).
Qed.

(** Freeing through a table entry. *)
Lemma free_step (w : World L) p h :
  step w (avcodec_free_context p w).2
    (match p with Some c => [EvFreeContext (addr c)] | None => [] end)
    (option_list (addr <$> p) ++ h) h
  ∧ (avcodec_free_context p w).1 = None.
Proof.
  destruct p as [c|]; cbn.
  - split; [|done]. split; [done|]. exists 0%nat. cbn. split; [lia|done].
  - split; [|done]. apply step_nil.
Qed.

Lemma free_contexts_step indices :
  ∀ t (w : World L) defined t' w',
    (∀ i, i ∈ indices →
       (i < length (in_codec_contexts t))%nat
       ∧ (i < length (out_codec_contexts t))%nat) →
    free_contexts indices t w = (defined, t', w') →
    defined = true
    ∧ (∃ new, step w w' new (held t) (held t'))
    ∧ length (in_codec_contexts t') = length (in_codec_contexts t)
    ∧ length (out_codec_contexts t') = length (out_codec_contexts t)
    ∧ (∀ j, j ∈ indices ∨ in_codec_contexts t !! j = Some None →
         (j < length (in_codec_contexts t))%nat →
         in_codec_contexts t' !! j = Some None)
    ∧ (∀ j, j ∈ indices ∨ out_codec_contexts t !! j = Some None →
         (j < length (out_codec_contexts t))%nat →
         out_codec_contexts t' !! j = Some None).
Proof.
  induction indices as [|i indices IH]; intros t w defined t' w' Hlen.
  - cbn. intros [= <- <- <-].
    split; [done|]. split; [exists []; apply step_nil|].
    split; [done|]. split; [done|].
    split; intros j [Hj|Hj] _; by try apply elem_of_nil in Hj.
  - cbn [free_contexts].
    destruct (Hlen i) as [Hi1 Hi2]; [by left|].
    destruct (lookup_lt_is_Some_2 _ _ Hi1) as [pin Hpin].
    destruct (lookup_lt_is_Some_2 _ _ Hi2) as [pout Hpout].
    rewrite Hpin. cbv beta iota delta [bind].
    destruct (free_step w pin
                (held (mkTables (out_stream_indices t)
                         (<[i := None]> (in_codec_contexts t))
                         (out_codec_contexts t)))) as [S1 R1].
    destruct (avcodec_free_context pin w) as [r1 w1]. cbn [fst snd] in S1, R1.
    subst r1. cbn [out_codec_contexts in_codec_contexts out_stream_indices].
    rewrite Hpout.
    set (t1 := mkTables _ (<[i := None]> (in_codec_contexts t)) _) in *.
    destruct (free_step w1 pout
                (held (mkTables (out_stream_indices t1) (in_codec_contexts t1)
                         (<[i := None]> (out_codec_contexts t1))))) as [S2 R2].
    destruct (avcodec_free_context pout w1) as [r2 w2].
    cbn [fst snd] in S2, R2. subst r2.
    set (t2 := mkTables _ _ (<[i := None]> (out_codec_contexts t1))) in *.
    intros E. apply IH in E as (Hd & (n3 & S3) & Hl1 & Hl2 & Hc1 & Hc2).
    2:{ intros j Hj. subst t2 t1. cbn. rewrite !length_insert.
        apply Hlen. by right. }
    split; [done|]. split.
    { eexists. eapply step_trans; [|exact S3].
      eapply step_trans; [|eapply step_before; [|exact S2]].
      - eapply step_before; [|exact S1]. symmetry. by apply held_free_in.
      - symmetry. by apply (held_free_out t1). }
    subst t2 t1. cbn in Hl1, Hl2, Hc1, Hc2 |- *.
    rewrite !length_insert in *.
    split; [done|]. split; [done|].
    split; intros j Hj Hlt.
    + apply Hc1; [|done].
      destruct (decide (j = i)) as [->|Hne].
      * right. by apply list_lookup_insert_eq.
      * destruct Hj as [[?|?]%elem_of_cons|?]; [done|by left|].
        right. by rewrite list_lookup_insert_ne.
    + apply Hc2; [|done].
      destruct (decide (j = i)) as [->|Hne].
      * right. by apply list_lookup_insert_eq.
      * destruct Hj as [[?|?]%elem_of_cons|?]; [done|by left|].
        right. by rewrite list_lookup_insert_ne.
Qed.

Lemma fresh_held n t : tables_fresh n t → held t = [].
Proof.
  intros (_ & Hin & Hout). unfold held.
  by rewrite Hin, Hout, !addrs_replicate.
Qed.

Lemma all_null n (l : list (option ctx_ptr)) :
  length l = n → (∀ j, (j < n)%nat → l !! j = Some None) →
  l = replicate n None.
Proof.
  intros Hl H. apply list_eq. intros j.
  destruct (decide (j < n)%nat) as [Hj|Hj].
  - rewrite H by done. symmetry. by apply lookup_replicate.
  - rewrite !lookup_ge_None_2; [done|rewrite length_replicate; lia|lia].
Qed.

(** The outcome of [create_streams] on fresh tables: either it returns 0,
    and then no output stream or parameter copy failed and every video
    stream has a decoder; or it returns -1, and then the contexts it
    allocated are exactly those it freed, each once, and the context tables
    are zeroed again. *)
Lemma create_streams_outcome infc outfc t out_codec (w : World L)
    r outfc' t' w' :
  tables_fresh (length (streams infc)) t →
  create_streams infc outfc t out_codec w = (r, outfc', t', w') →
  ∃ new,
    trace w' = trace w ++ new
    ∧ ((r = Some 0
        ∧ Forall (λ e, ¬ mapping_failure e) new
        ∧ Forall (λ s, ¬ undecodable s) (streams infc))
       ∨ (r = Some (-1)
          ∧ allocs new ≡ₚ frees new
          ∧ NoDup (frees new)
          ∧ in_codec_contexts t' = replicate (length (streams infc)) None
          ∧ out_codec_contexts t' = replicate (length (streams infc)) None)).
Proof.
  intros Hfresh. pose proof Hfresh as (Hl0 & Hin & Hout).
  unfold create_streams. cbv beta iota delta [bind].
  destruct (create_streams_loop infc out_codec 0 (streams infc) (-1) outfc t w)
    as [[[e outfc1] t1] w1] eqn:E1.
  apply create_streams_loop_step in E1
    as ((n1 & S1 & F1) & Hu1 & Hd1 & Hl1 & Hl2).
  2:{ intros j Hj. cbn in Hj. rewrite Hin, Hout.
      rewrite !lookup_replicate_2 by lia. split; [|done].
      apply lookup_lt_is_Some. lia. }
  rewrite Hin in Hl1. rewrite Hout in Hl2. rewrite length_replicate in Hl1, Hl2.
  destruct e; [| |done]; cbv beta iota delta [ret].
  - intros [= <- <- <- <-]. exists n1. split; [apply S1|]. left. auto.
  - destruct (free_contexts (seq 0 (length (streams infc))) t1 w1)
      as [[defined t2] w2] eqn:E2.
    apply free_contexts_step in E2
      as (-> & (n2 & S2) & Hl3 & Hl4 & Hc1 & Hc2).
    2:{ intros i Hi%elem_of_seq. lia. }
    intros [= <- <- <- <-].
    assert (Hin2 : in_codec_contexts t2
                   = replicate (length (streams infc)) None).
    { apply all_null; [lia|]. intros j Hj. apply Hc1; [|lia].
      left. apply elem_of_seq. lia. }
    assert (Hout2 : out_codec_contexts t2
                    = replicate (length (streams infc)) None).
    { apply all_null; [lia|]. intros j Hj. apply Hc2; [|lia].
      left. apply elem_of_seq. lia. }
    destruct (step_trans _ _ _ _ _ _ _ _ S1 S2) as (Et & k & _ & Ha & Hp).
    exists (n1 ++ n2). split; [done|]. right.
    rewrite (fresh_held _ _ Hfresh) in Hp.
    assert (held t2 = []) as Hh2.
    { unfold held. by rewrite Hin2, Hout2, !addrs_replicate. }
    rewrite Hh2, !app_nil_r in Hp.
    split; [done|]. split; [done|]. split; [|done].
    rewrite <- Hp, Ha. apply NoDup_seq.
Qed.

(** C6: on tables as [create_streams_and_transcode] allocates them, when
    the creation of an output stream or a copy of codec parameters fails for
    some stream, [create_streams] returns -1; and whenever it returns -1,
    the codec contexts it allocated (decode and encode, for that stream and
    the earlier ones) are exactly the contexts it freed, each freed once,
    and no entry of the context tables is left set. *)
Theorem create_streams_failure_releases infc outfc t out_codec (w : World L) :
  tables_fresh (length (streams infc)) t →
  ∃ new,
    trace (create_streams infc outfc t out_codec w).2 = trace w ++ new
    ∧ (Exists mapping_failure new →
         (create_streams infc outfc t out_codec w).1.1.1 = Some (-1))
    ∧ ((create_streams infc outfc t out_codec w).1.1.1 = Some (-1) →
         allocs new ≡ₚ frees new
         ∧ NoDup (frees new)
         ∧ held (create_streams infc outfc t out_codec w).1.2 = []).
Proof.
  intros Hfresh.
  destruct (create_streams infc outfc t out_codec w)
    as [[[r outfc'] t'] w'] eqn:E.
  apply create_streams_outcome in E as (new & Et & H); [|done].
  exists new. cbn [fst snd]. split; [done|].
  destruct H as [(-> & F & _)|(-> & Hp & Hn & Hin & Hout)].
  - split; [|done]. intros Hex. apply Exists_exists in Hex as (e & He & Hf).
    rewrite Forall_forall in F. by apply F in He.
  - split; [done|]. intros _. split; [done|]. split; [done|].
    unfold held. by rewrite Hin, Hout, !addrs_replicate.
Qed.

(** C10: on tables as [create_streams_and_transcode] allocates them, when
    the input has a video stream for whose codec id no decoder is found,
    [create_streams] returns -1 (the stream is neither dropped nor copied);
    the codec contexts allocated for the earlier streams are exactly the
    contexts freed, each freed once, and no entry of the context tables is
    left set. *)
Theorem undecodable_video_fails infc outfc t out_codec (w : World L) s :
  tables_fresh (length (streams infc)) t →
  s ∈ streams infc → undecodable s →
  (create_streams infc outfc t out_codec w).1.1.1 = Some (-1)
  ∧ ∃ new,
      trace (create_streams infc outfc t out_codec w).2 = trace w ++ new
      ∧ allocs new ≡ₚ frees new
      ∧ NoDup (frees new)
      ∧ held (create_streams infc outfc t out_codec w).1.2 = [].
Proof.
  intros Hfresh Hs Hbad.
  destruct (create_streams infc outfc t out_codec w)
    as [[[r outfc'] t'] w'] eqn:E.
  apply create_streams_outcome in E as (new & Et & H); [|done].
  cbn [fst snd].
  destruct H as [(-> & _ & F)|(-> & Hp & Hn & Hin & Hout)].
  - rewrite Forall_forall in F. by apply F in Hs.
  - split; [done|]. exists new. do 3 (split; [done|]).
    unfold held. by rewrite Hin, Hout, !addrs_replicate.
Qed.

Lemma create_video_contexts_indices infc out_codec i in_stream t (w : World L)
    e outcc t' w' :
  create_video_contexts infc out_codec i in_stream t w = (e, outcc, t', w') →
  out_stream_indices t' = out_stream_indices t.
Proof.
  unfold create_video_contexts.
  destruct (avcodec_find_decoder _) as [in_codec|];
    cbv beta iota delta [bind printf ret]; [|by intros [= <- <- <- <-]].
  destruct (create_decode_context _ _ w) as [[incc|] w1];
    [|by intros [= <- <- <- <-]].
  destruct (store (in_codec_contexts t) i (Some incc)) as [ins|];
    [|by intros [= <- <- <- <-]].
  destruct (create_encode_context _ _ _ _ w1) as [[outcc'|] w2];
    cbn [out_codec_contexts in_codec_contexts out_stream_indices];
    [|by intros [= <- <- <- <-]].
  destruct (store (out_codec_contexts t) i (Some outcc')) as [outs|];
    by intros [= <- <- <- <-].
Qed.

Lemma store_Some {A} (l l' : list A) i x :
  store l i x = Some l' → (i < length l)%nat ∧ l' = <[i := x]> l.
Proof.
  unfold store. destruct (decide _); [|done]. by intros [= <-].
Qed.

Lemma create_streams_body_indices infc out_codec i s sc outfc t (w : World L)
    sc' outfc' t' w' :
  create_streams_body infc out_codec i s sc outfc t w
    = (Continue, sc', outfc', t', w') →
  (i < length (out_stream_indices t))%nat
  ∧ out_stream_indices t'
    = <[i := if kept s then sc + 1 else -1]> (out_stream_indices t)
  ∧ sc' = (if kept s then sc + 1 else sc).
Proof.
  unfold create_streams_body.
  destruct (decide (_ ∧ _)) as [Hk|Hk].
  { assert (kept s = false) as ->.
    { apply not_true_is_false. rewrite kept_spec. tauto. }
    destruct (store _ i (-1)) as [ixs|] eqn:Es; cbv beta iota delta [ret];
      [|done].
    apply store_Some in Es as [Hi ->]. by intros [= <- <- <-]. }
  assert (kept s = true) as -> by (by apply kept_spec).
  cbv beta iota delta [bind].
  assert (Hgo : ∀ (outcc : option ctx_ptr) t1 w1,
    out_stream_indices t1 = out_stream_indices t →
    (let (a, w2) := create_output_stream outfc (codecpar s) outcc w1 in
     (let '(e, outfc0) := a in
      match e with
      | Continue =>
          match store (out_stream_indices t1) i (sc + 1) with
          | Some ixs =>
              ret (Continue, sc + 1, outfc0,
                   mkTables ixs (in_codec_contexts t1) (out_codec_contexts t1))
          | None => ret (Undefined, sc + 1, outfc0, t1)
          end
      | _ => ret (e, sc, outfc0, t1)
      end) w2) = (Continue, sc', outfc', t', w') →
    (i < length (out_stream_indices t))%nat
    ∧ out_stream_indices t' = <[i := sc + 1]> (out_stream_indices t)
    ∧ sc' = sc + 1).
  { intros outcc t1 w1 Hi1.
    destruct (create_output_stream _ _ _ w1) as [[e2 outfc2] w2].
    destruct e2; cbv beta iota delta [ret]; [|done..].
    destruct (store _ i (sc + 1)) as [ixs|] eqn:Es; [|done].
    apply store_Some in Es as [Hi ->]. rewrite Hi1 in *.
    by intros [= <- <- <-]. }
  destruct (decide (codec_type (codecpar s) = AVMEDIA_TYPE_VIDEO)).
  - destruct (create_video_contexts infc out_codec i s t w)
      as [[[e1 outcc] t1] w1] eqn:E1.
    apply create_video_contexts_indices in E1.
    destruct e1; cbv beta iota delta [ret]; [|done..].
    by apply Hgo.
  - cbv beta iota delta [ret]. by apply Hgo.
Qed.

Lemma kept_before_0 ss : kept_before ss 0 = 0.
Proof. done. Qed.

Lemma kept_before_S s ss j :
  kept_before (s :: ss) (S j)
  = (if kept s then 1 else 0) + kept_before ss j.
Proof.
  unfold kept_before. cbn [take]. rewrite filter_cons.
  destruct (decide (kept s = true)) as [->|Hk]; cbn [length].
  - lia.
  - apply not_true_is_false in Hk. rewrite Hk. lia.
Qed.

Lemma create_streams_loop_indices infc out_codec rest :
  ∀ i sc outfc t (w : World L) outfc' t' w',
    create_streams_loop infc out_codec i rest sc outfc t w
      = (Continue, outfc', t', w') →
    length (out_stream_indices t') = length (out_stream_indices t)
    ∧ (∀ j, (j < i)%nat →
         out_stream_indices t' !! j = out_stream_indices t !! j)
    ∧ (∀ j s, rest !! j = Some s →
         out_stream_indices t' !! (i + j)%nat
         = Some (if kept s then sc + 1 + kept_before rest j else -1)).
Proof.
  induction rest as [|s rest IH]; intros i sc outfc t w outfc' t' w'.
  - cbn. intros [= <- <- <-]. repeat split; done.
  - cbn [create_streams_loop]. cbv beta iota delta [bind].
    destruct (create_streams_body infc out_codec i s sc outfc t w)
      as [[[[e1 sc1] outfc1] t1] w1] eqn:E1.
    destruct e1; cbv beta iota delta [ret]; [|done..].
    apply create_streams_body_indices in E1 as (Hi & Hix & ->).
    intros E2. apply IH in E2 as (Hl & Hlow & Hrest).
    rewrite Hix, length_insert in Hl.
    split; [done|]. split.
    + intros j Hj. rewrite Hlow by lia. rewrite Hix.
      apply list_lookup_insert_ne. lia.
    + intros [|j] s' Hs'.
      * cbn in Hs'. injection Hs' as <-. rewrite Nat.add_0_r.
        rewrite Hlow by lia. rewrite Hix, list_lookup_insert_eq by done.
        rewrite kept_before_0. f_equal. destruct (kept s); lia.
      * cbn in Hs'. replace (i + S j)%nat with (S i + j)%nat by lia.
        rewrite (Hrest j s' Hs'). f_equal. rewrite kept_before_S.
        destruct (kept s'), (kept s); lia.
Qed.

Lemma kept_before_bounds ss i s :
  ss !! i = Some s → kept s = true →
  0 ≤ kept_before ss i < kept_before ss (length ss).
Proof.
  revert i. induction ss as [|s0 ss IH]; intros [|i] Hs Hk; try done.
  - cbn in Hs. injection Hs as ->. cbn [length].
    rewrite kept_before_0, kept_before_S, Hk. unfold kept_before. lia.
  - cbn in Hs. cbn [length]. rewrite !kept_before_S.
    specialize (IH i Hs Hk). destruct (kept s0); lia.
Qed.

Lemma kept_before_reached ss :
  ∀ z, 0 ≤ z < kept_before ss (length ss) →
    ∃ i s, ss !! i = Some s ∧ kept s = true ∧ kept_before ss i = z.
Proof.
  induction ss as [|s0 ss IH]; intros z Hz.
  - unfold kept_before in Hz. cbn in Hz. lia.
  - cbn [length] in Hz. rewrite kept_before_S in Hz.
    destruct (kept s0) eqn:Hk.
    + destruct (decide (z = 0)) as [->|Hz0].
      * exists 0%nat, s0. by rewrite kept_before_0.
      * destruct (IH (z - 1)) as (i & s & Hs & Hks & Hb); [lia|].
        exists (S i), s. rewrite kept_before_S, Hk. split; [done|].
        split; [done|lia].
    + destruct (IH z) as (i & s & Hs & Hks & Hb); [lia|].
      exists (S i), s. rewrite kept_before_S, Hk. split; [done|].
      split; [done|lia].
Qed.

(** C4: when [create_streams] returns 0 on an index map with one entry per
    input stream, the entry of a stream that is neither audio nor video is
    DROPPED (-1), and the entry of an audio or video stream is the number of
    audio or video streams before it: the output indices start at 0 and grow
    by one in input order.  The entries other than DROPPED are therefore
    exactly the numbers 0 ... k-1, for k the number of kept streams. *)
Theorem create_streams_dense_mapping infc outfc t out_codec (w : World L)
    outfc' t' w' :
  length (out_stream_indices t) = length (streams infc) →
  create_streams infc outfc t out_codec w = (Some 0, outfc', t', w') →
  length (out_stream_indices t') = length (streams infc)
  ∧ (∀ i s, streams infc !! i = Some s →
       out_stream_indices t' !! i
       = Some (if kept s then kept_before (streams infc) i else DROPPED))
  ∧ (∀ z, z ∈ out_stream_indices t' ∧ z ≠ DROPPED
          ↔ 0 ≤ z < kept_before (streams infc) (length (streams infc))).
Proof.
  intros Hlen. unfold create_streams. cbv beta iota delta [bind].
  destruct (create_streams_loop infc out_codec 0 (streams infc) (-1) outfc t w)
    as [[[e outfc1] t1] w1] eqn:E1.
  destruct e; cbv beta iota delta [ret].
  2:{ destruct (free_contexts _ t1 w1) as [[[] ?] ?]; done. }
  2:{ done. }
  intros [= <- <- <-].
  apply create_streams_loop_indices in E1 as (Hl & _ & Hix).
  assert (Hmap : ∀ i s, streams infc !! i = Some s →
    out_stream_indices t1 !! i
    = Some (if kept s then kept_before (streams infc) i else DROPPED)).
  { intros i s Hs. specialize (Hix i s Hs). cbn [Nat.add] in Hix.
    rewrite Hix. destruct (kept s); [f_equal; lia|done]. }
  split; [lia|]. split; [exact Hmap|].
  intros z. split.
  - intros [(i & Hi)%list_elem_of_lookup Hz].
    destruct (lookup_lt_is_Some_2 (streams infc) i) as [s Hs].
    { apply lookup_lt_Some in Hi. lia. }
    rewrite (Hmap i s Hs) in Hi. injection Hi as <-.
    destruct (kept s) eqn:Hk; [|done].
    by apply (kept_before_bounds _ i s).
  - intros Hz.
    destruct (kept_before_reached _ z Hz) as (i & s & Hs & Hk & Hb).
    specialize (Hmap i s Hs). rewrite Hk, Hb in Hmap.
    split; [by eapply list_elem_of_lookup_2|]. unfold DROPPED. lia.
Qed.

End Mapper.

(** The mapper on a video, a subtitle and an audio stream. *)
Lemma create_streams_mapping_example :
  let '(r, outfc, t, w) := Script.map_streams Script.three_streams [] in
  r = Some 0 ∧ out_stream_indices t = [0; -1; 1]
  ∧ length (streams outfc) = 2%nat.
Proof. vm_compute. repeat split; reflexivity. Qed.

(** C4 at a concrete input: a video, a subtitle and an audio stream. *)
Lemma create_streams_dense_mapping_witness :
  let infc := Script.three_streams in
  let run := Script.map_streams infc [] in
  length (out_stream_indices run.1.2) = length (streams infc)
  ∧ (∀ i s, streams infc !! i = Some s →
       out_stream_indices run.1.2 !! i
       = Some (if kept s then kept_before (streams infc) i else DROPPED))
  ∧ (∀ z, z ∈ out_stream_indices run.1.2 ∧ z ≠ DROPPED
          ↔ 0 ≤ z < kept_before (streams infc) (length (streams infc))).
Proof.
  intros infc run.
  apply (create_streams_dense_mapping (L := Script.lib) infc
           Script.empty_output (Script.fresh_tables 3 77) Script.libx265
           (Script.world [] 0) run.1.1.2 run.1.2 run.2);
    [reflexivity | vm_compute; reflexivity].
Defined.

(** The mapper when the output stream of the second of two streams cannot
    be created: both contexts of the first stream are freed. *)
Lemma create_streams_failure_example :
  let '(r, _, t, w) :=
    Script.map_streams Script.two_streams (Script.video_mapped ++ [-12]) in
  r = Some (-1)
  ∧ last (trace w) = Some (EvFreeContext 1)
  ∧ allocs (trace w) = [0; 1]%nat ∧ frees (trace w) = [0; 1]%nat
  ∧ in_codec_contexts t = [None; None] ∧ out_codec_contexts t = [None; None].
Proof. vm_compute. repeat split; reflexivity. Qed.

(** C6 at a concrete input: a video and an audio stream. *)
Lemma create_streams_failure_releases_witness :
  let infc := Script.two_streams in
  let zs := Script.video_mapped ++ [-12] in
  ∃ new,
    trace (Script.map_streams infc zs).2 = trace (Script.world zs 0) ++ new
    ∧ (Exists mapping_failure new →
         (Script.map_streams infc zs).1.1.1 = Some (-1))
    ∧ ((Script.map_streams infc zs).1.1.1 = Some (-1) →
         allocs new ≡ₚ frees new
         ∧ NoDup (frees new)
         ∧ held (Script.map_streams infc zs).1.2 = []).
Proof.
  intros infc zs.
  apply (create_streams_failure_releases (L := Script.lib) infc
           Script.empty_output (Script.fresh_tables 2 77) Script.libx265
           (Script.world zs 0)).
  vm_compute. repeat split; reflexivity.
Defined.

(** C10 at a concrete input: a decodable video stream followed by a video
    stream without a decoder. *)
Lemma undecodable_video_fails_witness :
  let infc := Script.exotic_input in
  (Script.map_streams infc []).1.1.1 = Some (-1)
  ∧ ∃ new,
      trace (Script.map_streams infc []).2 = trace (Script.world [] 0) ++ new
      ∧ allocs new ≡ₚ frees new
      ∧ NoDup (frees new)
      ∧ held (Script.map_streams infc []).1.2 = [].
Proof.
  intros infc.
  apply (undecodable_video_fails (L := Script.lib) infc Script.empty_output
           (Script.fresh_tables 2 77) Script.libx265 (Script.world [] 0)
           Script.exotic_stream).
  - vm_compute. repeat split; reflexivity.
  - vm_compute. right. left.
  - split; reflexivity.
Defined.

(** ** Further properties of the pull loops and of the context factory *)

Section PullLoopsMore.
Context {L : LibAV}.

Lemma sent_frames_app l1 l2 :
  sent_frames (l1 ++ l2) = sent_frames l1 ++ sent_frames l2.
Proof. apply omap_app. Qed.

Lemma writes_app l1 l2 : writes (l1 ++ l2) = writes l1 ++ writes l2.
Proof. apply omap_app. Qed.

Lemma write_packet_run outfc p ins outs i (w : World L) :
  ∃ status,
    trace (write_packet outfc p ins outs i w).2
      = trace w ++ [EvWriteFrame (forwarded p ins outs i) status]
    ∧ (write_packet outfc p ins outs i w).1
      = (if decide (status ≠ 0) then -1 else 0)
    ∧ stdout (write_packet outfc p ins outs i w).2
      = stdout w
        ++ (if decide (status ≠ 0)
            then ["Failed to write frame" +:+ ": " +:+ av_strerror status]
            else []).
Proof.
  unfold write_packet, av_interleaved_write_frame, print_error.
  cbv beta iota delta [bind call log printf ret].
  change (av_packet_rescale_ts (set_stream_index p i) (time_base ins)
            (time_base outs)) with (forwarded p ins outs i).
  destruct (interleaved_write_frame_impl (env w) outfc (forwarded p ins outs i))
    as [status e1].
  exists status. destruct (decide (status ≠ 0)); cbn; by rewrite ?app_nil_r.
Qed.

(** The pull loop of [encode_frame_and_send], call by call: it writes the
    ready packets in order until the encoder is drained or a write fails. *)
Lemma encode_pull_loop_run outfc a c queue reason ins outs i :
  ∀ (w : World L), ∃ new,
    trace (encode_pull_loop outfc a c queue reason ins outs i w).2
      = trace w ++ new
    ∧ sent_frames new = []
    ∧ addr (encode_pull_loop outfc a c queue reason ins outs i w).1.2 = a
    ∧ (∃ lines,
         stdout (encode_pull_loop outfc a c queue reason ins outs i w).2
           = stdout w ++ lines
         ∧ length lines
           = (if decide
                   ((encode_pull_loop outfc a c queue reason ins outs i w).1.1
                    = 0%Z) then 0 else 1)%nat)
    ∧ ((writes new = (λ p, (forwarded p ins outs i, 0)) <$> queue
        ∧ (encode_pull_loop outfc a c queue reason ins outs i w).1.1
          = (if decide (benign (AVERROR (empty_errno c))) then 0 else -1)
        ∧ ready_packets
            (deref (encode_pull_loop outfc a c queue reason ins outs i w).1.2)
          = [])
       ∨ (∃ done p s rest,
            queue = done ++ p :: rest ∧ s ≠ 0
            ∧ writes new
              = ((λ p, (forwarded p ins outs i, 0)) <$> done)
                ++ [(forwarded p ins outs i, s)]
            ∧ (encode_pull_loop outfc a c queue reason ins outs i w).1.1 = -1
            ∧ ready_packets
                (deref
                   (encode_pull_loop outfc a c queue reason ins outs i w).1.2)
              = rest)).
Proof.
  revert reason. induction queue as [|p queue IH]; intros reason w.
  - exists [EvReceivePacket a (AVERROR (empty_errno c))].
    cbn [encode_pull_loop]. unfold avcodec_receive_packet.
    cbn [deref addr ready_packets ready_frames set_queues empty_errno].
    cbv beta iota delta [bind log ret print_error printf].
    unfold benign.
    destruct (decide (_ ∧ _)) as [[H1 H2]|H]; cbn.
    + split; [done|]. split; [done|]. split; [done|].
      split; [eexists [_]; split; [done|]; by destruct (decide (_ = 0))|].
      left. split; [done|]. split; [|done].
      rewrite decide_False; [done|tauto].
    + split; [done|]. split; [done|]. split; [done|].
      split; [exists []; split; [by rewrite app_nil_r|];
              by destruct (decide (_ = 0))|].
      left. split; [done|]. split; [|done].
      rewrite decide_True; [done|].
      destruct (decide (AVERROR (empty_errno c) = AVERROR_EOF)); [by left|].
      destruct (decide (AVERROR (empty_errno c) = AVERROR EAGAIN)); [by right|].
      tauto.
  - cbn [encode_pull_loop]. unfold avcodec_receive_packet.
    cbn [deref addr ready_packets ready_frames set_queues empty_errno].
    cbv beta iota delta [bind log ret].
    set (w0 := mkWorld _ _ _ _).
    destruct (write_packet_run outfc p ins outs i w0) as (s & Et & Er & Eo).
    destruct (write_packet outfc p ins outs i w0) as [reason' w1].
    cbn [fst snd] in Et, Er, Eo. subst reason'.
    destruct (decide (s ≠ 0)) as [Hs|Hs].
    + rewrite decide_True by lia.
      exists [EvReceivePacket a 0; EvWriteFrame (forwarded p ins outs i) s].
      cbn [fst snd addr deref ready_packets set_queues].
      rewrite Et, Eo. subst w0. cbn [trace stdout]. rewrite <- app_assoc.
      split; [done|]. split; [done|]. split; [done|].
      split; [eexists [_]; split; [done|]; by destruct (decide (_ = 0))|].
      right. exists [], p, s, queue. done.
    + rewrite decide_False by lia. apply dec_stable in Hs. subst s.
      destruct (IH 0 w1) as (rest & Er & Hsf & Ha & Hout & Hcase).
      rewrite app_nil_r in Eo.
      exists ([EvReceivePacket a 0; EvWriteFrame (forwarded p ins outs i) 0]
              ++ rest).
      rewrite Er, Et. subst w0. cbn [trace stdout] in *.
      rewrite <- !app_assoc. split; [done|].
      rewrite sent_frames_app, writes_app, Hsf.
      split; [done|]. split; [done|]. split; [by rewrite <- Eo|].
      destruct Hcase as [(Hw & Hr & Hq)|(done & p' & s' & rest' & -> & Hs' & Hw & Hr & Hq)].
      * left. rewrite Hw. done.
      * right. exists (p :: done), p', s', rest'. rewrite Hw. done.
Qed.

(** X1: [encode_frame_and_send] writes the packets of the encoder in the
    order the encoder hands them out, each rebased and tagged as the copy
    forwarder does; it stops at the first write that fails and leaves the
    packets after it in the encoder.  A rejected frame causes no write. *)
Theorem encode_frame_and_send_writes_in_order outfc outcc f ins outs i
    (w : World L) st c e1 :
  send_frame_impl (env w) (addr outcc) (deref outcc) (Some f) = (st, c, e1) →
  ∃ new,
    trace (encode_frame_and_send outfc outcc f ins outs i w).2 = trace w ++ new
    ∧ sent_frames new = [Some f]
    ∧ addr (encode_frame_and_send outfc outcc f ins outs i w).1.2 = addr outcc
    ∧ (st ≠ 0 →
         writes new = []
         ∧ (encode_frame_and_send outfc outcc f ins outs i w).1.1 = -1)
    ∧ (st = 0 →
         (writes new
            = (λ p, (forwarded p ins outs i, 0)) <$> ready_packets c
          ∧ (encode_frame_and_send outfc outcc f ins outs i w).1.1
            = (if decide (benign (AVERROR (empty_errno c))) then 0 else -1)
          ∧ ready_packets
              (deref (encode_frame_and_send outfc outcc f ins outs i w).1.2)
            = [])
         ∨ (∃ done p s rest,
              ready_packets c = done ++ p :: rest ∧ s ≠ 0
              ∧ writes new
                = ((λ p, (forwarded p ins outs i, 0)) <$> done)
                  ++ [(forwarded p ins outs i, s)]
              ∧ (encode_frame_and_send outfc outcc f ins outs i w).1.1 = -1
              ∧ ready_packets
                  (deref
                     (encode_frame_and_send outfc outcc f ins outs i w).1.2)
                = rest)).
Proof.
  intros Hsend. unfold encode_frame_and_send, avcodec_send_frame.
  cbv beta iota delta [bind call log ret print_error printf].
  rewrite Hsend. cbn [addr deref env trace stdout next_addr].
  destruct (decide (st ≠ 0)) as [Hst|Hst].
  - exists [EvSendFrame (addr outcc) (Some f) st]. cbn. by repeat split.
  - set (w0 := mkWorld _ _ _ _).
    destruct (encode_pull_loop_run outfc (addr outcc) c (ready_packets c) st
                ins outs i w0) as (rest & Er & Hsf & Ha & Hout & Hcase).
    exists (EvSendFrame (addr outcc) (Some f) st :: rest).
    rewrite Er. subst w0. cbn [trace]. rewrite <- app_assoc.
    split; [done|]. split; [cbn; by rewrite <- Hsf|].
    split; [done|]. split; [done|]. intros _. exact Hcase.
Qed.

(** X2: [encode_frame_and_send] returns 0 or -1, and prints exactly one
    line when it returns -1 and none when it returns 0. *)
Theorem encode_frame_and_send_one_diagnostic outfc outcc f ins outs i
    (w : World L) :
  ((encode_frame_and_send outfc outcc f ins outs i w).1.1 = 0
   ∨ (encode_frame_and_send outfc outcc f ins outs i w).1.1 = -1)
  ∧ ∃ lines,
      stdout (encode_frame_and_send outfc outcc f ins outs i w).2
        = stdout w ++ lines
      ∧ length lines
        = (if decide ((encode_frame_and_send outfc outcc f ins outs i w).1.1
                      = 0%Z) then 0 else 1)%nat.
Proof.
  unfold encode_frame_and_send, avcodec_send_frame.
  cbv beta iota delta [bind call log ret print_error printf].
  destruct (send_frame_impl (env w) (addr outcc) (deref outcc) (Some f))
    as [[st c] e1].
  cbn [addr deref env trace stdout next_addr].
  destruct (decide (st ≠ 0)) as [Hst|Hst].
  - cbn [fst snd stdout]. split; [by right|].
    eexists [_]. split; [reflexivity|]. by destruct (decide (_ = 0)).
  - set (w0 := mkWorld _ _ _ _).
    destruct (encode_pull_loop_run outfc (addr outcc) c (ready_packets c) st
                ins outs i w0) as (rest & _ & _ & _ & Hout & Hcase).
    split; [|exact Hout].
    destruct Hcase as [(_ & -> & _)|(? & ? & ? & ? & _ & _ & _ & -> & _)];
      [|by right].
    destruct (decide (benign _)); [by left|by right].
Qed.

Lemma encode_frame_and_send_frames outfc outcc f ins outs i (w : World L) :
  ∃ new,
    trace (encode_frame_and_send outfc outcc f ins outs i w).2 = trace w ++ new
    ∧ sent_frames new = [Some f]
    ∧ sent_packets new = []
    ∧ addr (encode_frame_and_send outfc outcc f ins outs i w).1.2 = addr outcc.
Proof.
  destruct (emits_encode_frame_and_send_only outfc outcc f ins outs i w)
    as (new' & Et' & Fe).
  unfold encode_frame_and_send, avcodec_send_frame in *.
  revert Et'. cbv beta iota delta [bind call log ret print_error printf].
  destruct (send_frame_impl (env w) (addr outcc) (deref outcc) (Some f))
    as [[st c] e1].
  cbn [addr deref env trace stdout next_addr].
  assert (Hsp : ∀ l, Forall encoder_event l → sent_packets l = []).
  { induction 1 as [|e l He _ IH]; [done|]. by destruct e. }
  destruct (decide (st ≠ 0)) as [Hst|Hst].
  - intros _. exists [EvSendFrame (addr outcc) (Some f) st]. by cbn.
  - set (w0 := mkWorld _ _ _ _). intros Et'.
    destruct (encode_pull_loop_run outfc (addr outcc) c (ready_packets c) st
                ins outs i w0) as (rest & Er & Hsf & Ha & _).
    exists (EvSendFrame (addr outcc) (Some f) st :: rest).
    rewrite Er in *. subst w0. cbn [trace] in *. rewrite <- app_assoc in *.
    apply app_inv_head in Et'. subst new'.
    split; [done|]. split; [cbn; by rewrite <- Hsf|]. split; [|done].
    by apply Hsp.
Qed.

(** The pull loop of [transcode], call by call. *)
Lemma decode_pull_loop_run outfc a c queue reason ins outs i :
  ∀ outcc (w : World L), ∃ new,
    trace (decode_pull_loop outfc a c queue outcc reason ins outs i w).2
      = trace w ++ new
    ∧ sent_frames new = Some <$> queue
    ∧ sent_packets new = []
    ∧ (decode_pull_loop outfc a c queue outcc reason ins outs i w).1.1.1
      = (if decide (benign (AVERROR (empty_errno c))) then 0 else -1)
    ∧ addr (decode_pull_loop outfc a c queue outcc reason ins outs i w).1.1.2
      = a
    ∧ ready_frames
        (deref (decode_pull_loop outfc a c queue outcc reason ins outs i w).1.1.2)
      = []
    ∧ addr (decode_pull_loop outfc a c queue outcc reason ins outs i w).1.2
      = addr outcc.
Proof.
  induction queue as [|f queue IH]; intros outcc w.
  - exists [EvReceiveFrame a (AVERROR (empty_errno c))].
    cbn [decode_pull_loop]. unfold avcodec_receive_frame.
    cbn [deref addr ready_packets ready_frames set_queues empty_errno].
    cbv beta iota delta [bind log ret print_error printf].
    unfold benign.
    destruct (decide (_ ∧ _)) as [[H1 H2]|H]; cbn.
    + do 3 (split; [done|]). split; [|done].
      rewrite decide_False; [done|tauto].
    + do 3 (split; [done|]). split; [|done].
      rewrite decide_True; [done|].
      destruct (decide (AVERROR (empty_errno c) = AVERROR_EOF)); [by left|].
      destruct (decide (AVERROR (empty_errno c) = AVERROR EAGAIN)); [by right|].
      tauto.
  - cbn [decode_pull_loop]. unfold avcodec_receive_frame.
    cbn [deref addr ready_packets ready_frames set_queues empty_errno].
    cbv beta iota delta [bind log ret].
    set (w0 := mkWorld _ _ _ _).
    destruct (encode_frame_and_send_frames outfc outcc f ins outs i w0)
      as (mid & Em & Hsf & Hsp & Ha).
    destruct (encode_frame_and_send outfc outcc f ins outs i w0)
      as [[ignored outcc'] w1].
    cbn [fst snd] in Em, Ha.
    destruct (IH outcc' w1) as (rest & Er & Hsf' & Hsp' & Hr & Ha' & Hq & Ho).
    exists (EvReceiveFrame a 0 :: mid ++ rest).
    rewrite Er, Em. subst w0. cbn [trace]. rewrite <- !app_assoc.
    split; [done|].
    split; [cbn; unfold sent_frames in *; rewrite omap_app, Hsf, Hsf'; done|].
    split; [cbn; unfold sent_packets in *; rewrite omap_app, Hsp, Hsp'; done|].
    split; [done|]. split; [done|]. split; [done|]. congruence.
Qed.

(** X3: the result of [transcode] depends on the decoder alone: it is -1
    when the decoder rejects the coded unit or ends its pull loop with a
    status other than "end of stream" or "try again", and 0 otherwise,
    whatever the encoder and the writer answer for the frames of the unit. *)
Theorem transcode_result_decoder_only outfc incc outcc p ins outs i
    (w : World L) st c e1 :
  send_packet_impl (env w) (addr incc) (deref incc) (Some p) = (st, c, e1) →
  (transcode outfc incc outcc p ins outs i w).1.1.1
  = (if decide (st ≠ 0) then -1
     else if decide (benign (AVERROR (empty_errno c))) then 0 else -1).
Proof.
  intros Hsend. unfold transcode, avcodec_send_packet.
  cbv beta iota delta [bind call log ret print_error printf].
  rewrite Hsend. cbn [addr deref env trace stdout next_addr].
  destruct (decide (st ≠ 0)) as [Hst|Hst]; [done|].
  set (w0 := mkWorld _ _ _ _).
  destruct (decode_pull_loop_run outfc (addr incc) c (ready_frames c) st
              ins outs i outcc w0) as (rest & _ & _ & _ & Hr & _).
  exact Hr.
Qed.

(** X4: [transcode] submits the coded unit to the decoder once and, when
    the decoder accepts it, submits every frame the decoder has ready to the
    encoder, once each and in decoder order, whether or not the encoder
    or the writer fail on an earlier frame; it leaves the decoder drained.
    A rejected unit leads to no submission to the encoder. *)
Theorem transcode_feeds_encoder_in_order outfc incc outcc p ins outs i
    (w : World L) st c e1 :
  send_packet_impl (env w) (addr incc) (deref incc) (Some p) = (st, c, e1) →
  ∃ new,
    trace (transcode outfc incc outcc p ins outs i w).2 = trace w ++ new
    ∧ sent_packets new = [Some p]
    ∧ sent_frames new = (if decide (st ≠ 0) then [] else Some <$> ready_frames c)
    ∧ (st = 0 →
         ready_frames (deref (transcode outfc incc outcc p ins outs i w).1.1.2)
         = [])
    ∧ addr (transcode outfc incc outcc p ins outs i w).1.1.2 = addr incc
    ∧ addr (transcode outfc incc outcc p ins outs i w).1.2 = addr outcc.
Proof.
  intros Hsend. unfold transcode, avcodec_send_packet.
  cbv beta iota delta [bind call log ret print_error printf].
  rewrite Hsend. cbn [addr deref env trace stdout next_addr].
  destruct (decide (st ≠ 0)) as [Hst|Hst].
  - exists [EvSendPacket (addr incc) (Some p) st]. cbn. by repeat split.
  - set (w0 := mkWorld _ _ _ _).
    destruct (decode_pull_loop_run outfc (addr incc) c (ready_frames c) st
                ins outs i outcc w0)
      as (rest & Er & Hsf & Hsp & Hr & Ha & Hq & Ho).
    exists (EvSendPacket (addr incc) (Some p) st :: rest).
    rewrite Er. subst w0. cbn [trace]. rewrite <- app_assoc.
    split; [done|]. split; [cbn; by rewrite <- Hsp|].
    split; [cbn; by rewrite <- Hsf|]. done.
Qed.

End PullLoopsMore.

Section FactoryMore.
Context {L : LibAV}.

(** X5: [create_decode_context] is all or nothing.  When it returns a
    context, it printed nothing and made three calls: the allocation of that
    context, the import of the stream parameters and the opening with the
    given codec, both answering 0.  When it returns NULL, it printed exactly
    one line and freed the context again if it had allocated one. *)
Theorem create_decode_context_all_or_nothing in_codec par (w : World L) :
  ∃ new lines,
    trace (create_decode_context in_codec par w).2 = trace w ++ new
    ∧ stdout (create_decode_context in_codec par w).2 = stdout w ++ lines
    ∧ match (create_decode_context in_codec par w).1 with
      | Some p =>
          lines = []
          ∧ ∃ cfg,
              new = [EvAllocContext (addr p) in_codec;
                     EvParametersToContext (addr p) 0;
                     EvOpen (addr p) cfg in_codec 0]
      | None => length lines = 1%nat ∧ allocs new = frees new
      end.
Proof.
  unfold create_decode_context, avcodec_alloc_context3,
    avcodec_parameters_to_context, avcodec_open2, avcodec_free_context,
    print_error.
  cbv beta iota delta [bind call log printf ret fresh_addr].
  destruct (alloc_context3_impl (env w) in_codec) as [[c|] e1];
    cbn [env trace stdout next_addr addr deref fst snd].
  2:{ eexists [_], [_]. by repeat split. }
  destruct (parameters_to_context_impl e1 c par) as [[s1 c1] e2].
  cbn [env trace stdout next_addr addr deref fst snd].
  destruct (decide (s1 ≠ 0)) as [H1|H1];
    cbn [env trace stdout next_addr addr deref fst snd].
  { eexists [_; _; _], [_]. rewrite <- !app_assoc. by repeat split. }
  destruct (open2_impl e2 (next_addr w) c1 in_codec) as [[s2 c2] e3].
  destruct (decide (s2 ≠ 0)) as [H2|H2];
    cbn [env trace stdout next_addr addr deref fst snd].
  { eexists [_; _; _; _], [_]. rewrite <- !app_assoc. by repeat split. }
  apply dec_stable in H1, H2. subst s1 s2.
  eexists [_; _; _], []. rewrite <- !app_assoc, app_nil_r.
  split; [done|]. split; [done|]. split; [done|]. by eexists.
Qed.

(** X6: [create_encode_context] is all or nothing as well: a returned
    context is the only one allocated and is not freed, with nothing
    printed; on NULL exactly one line is printed and the context, if it was
    allocated, is freed again. *)
Theorem create_encode_context_all_or_nothing out_codec incc infc in_stream
    (w : World L) :
  ∃ new lines,
    trace (create_encode_context out_codec incc infc in_stream w).2
      = trace w ++ new
    ∧ stdout (create_encode_context out_codec incc infc in_stream w).2
      = stdout w ++ lines
    ∧ match (create_encode_context out_codec incc infc in_stream w).1 with
      | Some p => lines = [] ∧ allocs new = [addr p] ∧ frees new = []
      | None => length lines = 1%nat ∧ allocs new = frees new
      end.
Proof.
  unfold create_encode_context, avcodec_alloc_context3, avcodec_open2,
    avcodec_free_context, print_error.
  cbv beta iota delta [bind call log printf ret fresh_addr].
  destruct (alloc_context3_impl (env w) out_codec) as [[c|] e1];
    cbn [env trace stdout next_addr addr deref fst snd].
  2:{ eexists [_], [_]. by repeat split. }
  match goal with
  | |- context [open2_impl e1 (next_addr w) ?cfg out_codec] =>
      destruct (open2_impl e1 (next_addr w) cfg out_codec) as [[s2 c2] e3]
  end.
  destruct (decide (s2 ≠ 0)) as [H2|H2];
    cbn [env trace stdout next_addr addr deref fst snd].
  { eexists [_; _; _], [_]. rewrite <- !app_assoc. by repeat split. }
  eexists [_; _], []. rewrite <- !app_assoc, app_nil_r. by repeat split.
Qed.

End FactoryMore.

(** ** Further properties of the body loop *)

Section KeepsAllocator.
Context {L : LibAV}.

Lemma keeps_ret {A} (a : A) : keeps_allocator (ret a).
Proof. by intros w. Qed.

Lemma keeps_bind {A B} (m : M L A) (k : A → M L B) :
  keeps_allocator m → (∀ a, keeps_allocator (k a)) →
  keeps_allocator (bind m k).
Proof.
  intros Hm Hk w. unfold bind. specialize (Hm w).
  destruct (m w) as [a w1]. cbn in Hm. by rewrite Hk.
Qed.

Lemma keeps_log e : keeps_allocator (log e).
Proof. by intros w. Qed.

Lemma keeps_printf line : keeps_allocator (printf line).
Proof. by intros w. Qed.

Lemma keeps_call {A} (f : Env → A * Env) : keeps_allocator (call f).
Proof. intros w. unfold call. by destruct (f (env w)). Qed.

End KeepsAllocator.

(** One step of a proof of [keeps_allocator]. *)
Ltac keeps_step :=
  lazymatch goal with
  | |- keeps_allocator (ret _) => apply keeps_ret
  | |- keeps_allocator (log _) => apply keeps_log
  | |- keeps_allocator (printf _) => apply keeps_printf
  | |- keeps_allocator (print_error _ _) => apply keeps_printf
  | |- keeps_allocator (call _) => apply keeps_call
  | |- keeps_allocator (bind _ _) => apply keeps_bind; [ | intros ]
  | |- keeps_allocator (let (_, _) := ?x in _) => destruct x
  | |- keeps_allocator (if decide ?P then _ else _) => destruct (decide P)
  | |- keeps_allocator (match ?x with _ => _ end) => destruct x
  end.

Section BodyMore.
Context {L : LibAV}.

Lemma keeps_write_packet outfc p ins outs i :
  keeps_allocator (write_packet outfc p ins outs i).
Proof.
  unfold write_packet, av_interleaved_write_frame. repeat keeps_step.
Qed.

Lemma keeps_encode_pull_loop outfc a c queue reason ins outs i :
  keeps_allocator (encode_pull_loop outfc a c queue reason ins outs i).
Proof.
  revert reason. induction queue as [|p queue IH]; intros reason; simpl.
  - apply keeps_bind; [unfold avcodec_receive_packet; repeat keeps_step|].
    intros. repeat keeps_step.
  - apply keeps_bind; [unfold avcodec_receive_packet; repeat keeps_step|].
    intros [[? ?] ?].
    apply keeps_bind; [apply keeps_write_packet|].
    intros. keeps_step; [keeps_step | apply IH].
Qed.

Lemma keeps_encode_frame_and_send outfc outcc f ins outs i :
  keeps_allocator (encode_frame_and_send outfc outcc f ins outs i).
Proof.
  unfold encode_frame_and_send.
  apply keeps_bind; [unfold avcodec_send_frame; repeat keeps_step|].
  intros [? ?].
  keeps_step; [repeat keeps_step | apply keeps_encode_pull_loop].
Qed.

Lemma keeps_decode_pull_loop outfc a c queue outcc reason ins outs i :
  keeps_allocator (decode_pull_loop outfc a c queue outcc reason ins outs i).
Proof.
  revert outcc. induction queue as [|f queue IH]; intros outcc; simpl.
  - apply keeps_bind; [unfold avcodec_receive_frame; repeat keeps_step|].
    intros. repeat keeps_step.
  - apply keeps_bind; [unfold avcodec_receive_frame; repeat keeps_step|].
    intros [[? ?] ?].
    apply keeps_bind; [apply keeps_encode_frame_and_send|]. intros [? ?].
    apply IH.
Qed.

Lemma keeps_transcode outfc incc outcc p ins outs i :
  keeps_allocator (transcode outfc incc outcc p ins outs i).
Proof.
  unfold transcode.
  apply keeps_bind; [unfold avcodec_send_packet; repeat keeps_step|].
  intros [? ?].
  keeps_step; [repeat keeps_step | apply keeps_decode_pull_loop].
Qed.

Lemma transcode_addrs outfc incc outcc p ins outs i (w : World L) :
  addr (transcode outfc incc outcc p ins outs i w).1.1.2 = addr incc
  ∧ addr (transcode outfc incc outcc p ins outs i w).1.2 = addr outcc.
Proof.
  unfold transcode, avcodec_send_packet.
  cbv beta iota delta [bind call log ret print_error printf].
  destruct (send_packet_impl (env w) (addr incc) (deref incc) (Some p))
    as [[st c] e1].
  cbn [addr deref env trace stdout next_addr].
  destruct (decide (st ≠ 0)) as [Hst|Hst]; [done|].
  set (w0 := mkWorld _ _ _ _).
  destruct (decode_pull_loop_run outfc (addr incc) c (ready_frames c) st
              ins outs i outcc w0) as (rest & _ & _ & _ & _ & Ha & _ & Ho).
  done.
Qed.

Lemma keeps_transcode_null_frame incc p :
  keeps_allocator (transcode_null_frame incc p).
Proof.
  unfold transcode_null_frame.
  apply keeps_bind; [unfold avcodec_send_packet; repeat keeps_step|].
  intros [? ?]. repeat keeps_step.
Qed.

Lemma transcode_null_frame_addr incc p (w : World L) :
  addr (transcode_null_frame incc p w).1.2 = addr incc.
Proof.
  unfold transcode_null_frame, avcodec_send_packet.
  cbv beta iota delta [bind call log ret print_error printf].
  destruct (send_packet_impl (env w) (addr incc) (deref incc) (Some p))
    as [[st c] e1].
  by destruct (decide (st ≠ 0)).
Qed.

Lemma at_index_Some {A} (l : list A) (i : Z) :
  0 ≤ i < Z.of_nat (length l) → ∃ x, at_index l i = Some x.
Proof.
  intros Hi. unfold at_index. rewrite decide_True by lia.
  apply lookup_lt_is_Some. lia.
Qed.

Lemma at_index_lookup {A} (l : list A) (i : Z) x :
  at_index l i = Some x → 0 ≤ i ∧ l !! Z.to_nat i = Some x.
Proof. unfold at_index. by destruct (decide _). Qed.

Lemma addrs_insert_same l k p p' :
  l !! k = Some (Some p) → addr p' = addr p →
  addrs (<[k := Some p']> l) = addrs l.
Proof.
  revert k. induction l as [|x l IH]; intros [|k] Hl Ha; try done.
  - cbn in Hl. injection Hl as ->. unfold addrs. cbn. by rewrite Ha.
  - cbn in Hl. unfold addrs in *. cbn.
    destruct x as [x|]; cbn; [f_equal|]; by apply IH.
Qed.

(** The read loop changes the tables only by storing back the two contexts
    of a transcoded stream at their own addresses. *)
Lemma write_body_loop_ledger frame ins errno queue outfc :
  ∀ t (w : World L),
    next_addr (write_body_loop frame ins errno queue outfc t w).2
      = next_addr w
    ∧ held (write_body_loop frame ins errno queue outfc t w).1.2 = held t
    ∧ out_stream_indices (write_body_loop frame ins errno queue outfc t w).1.2
      = out_stream_indices t
    ∧ length
        (in_codec_contexts (write_body_loop frame ins errno queue outfc t w).1.2)
      = length (in_codec_contexts t)
    ∧ length
        (out_codec_contexts
           (write_body_loop frame ins errno queue outfc t w).1.2)
      = length (out_codec_contexts t).
Proof.
  induction queue as [|p queue IH]; intros t w; [done|].
  cbn [write_body_loop].
  cbv beta iota delta [bind av_read_frame log ret packets].
  set (w0 := mkWorld _ _ _ _).
  assert (Hub : next_addr w0 = next_addr w ∧ held t = held t
                ∧ out_stream_indices t = out_stream_indices t
                ∧ length (in_codec_contexts t) = length (in_codec_contexts t)
                ∧ length (out_codec_contexts t)
                  = length (out_codec_contexts t)) by done.
  destruct (at_index (out_stream_indices t) (stream_index p)) as [osi|];
    [|exact Hub].
  destruct (decide (osi = -1)); [apply (IH t w0)|].
  destruct (at_index ins (stream_index p)) as [in_stream|]; [|exact Hub].
  destruct (at_index (streams outfc) osi) as [out_stream|]; [|exact Hub].
  destruct (at_index (out_codec_contexts t) (stream_index p))
    as [[outcc|]|] eqn:Eout; [| |exact Hub].
  - destruct (at_index (in_codec_contexts t) (stream_index p))
      as [[incc|]|] eqn:Ein; [|exact Hub|exact Hub].
    apply at_index_lookup in Eout as [_ Eout].
    apply at_index_lookup in Ein as [_ Ein].
    destruct frame.
    2:{ pose proof (keeps_transcode_null_frame incc p w0) as Hk.
        pose proof (transcode_null_frame_addr incc p w0) as Ha1.
        destruct (transcode_null_frame incc p w0) as [[reason incc'] w1].
        cbn [fst snd] in Hk, Ha1. cbn [fst snd]. unfold held. cbn.
        rewrite length_insert, (addrs_insert_same _ _ incc) by done.
        by rewrite Hk. }
    pose proof (keeps_transcode outfc incc outcc p in_stream out_stream osi w0)
      as Hk.
    destruct (transcode_addrs outfc incc outcc p in_stream out_stream osi w0)
      as [Ha1 Ha2].
    destruct (transcode outfc incc outcc p in_stream out_stream osi w0)
      as [[[reason incc'] outcc'] w1].
    cbn [fst snd] in Hk, Ha1, Ha2.
    set (t1 := mkTables _ _ _).
    assert (Ht1 : held t1 = held t
                  ∧ out_stream_indices t1 = out_stream_indices t
                  ∧ length (in_codec_contexts t1) = length (in_codec_contexts t)
                  ∧ length (out_codec_contexts t1)
                    = length (out_codec_contexts t)).
    { subst t1. unfold held. cbn. rewrite !length_insert.
      rewrite (addrs_insert_same _ _ incc) by done.
      by rewrite (addrs_insert_same _ _ outcc) by done. }
    destruct Ht1 as (Hh & Hi & Hl1 & Hl2).
    destruct (decide (reason ≠ 0)).
    + cbn [fst snd]. by rewrite Hk.
    + destruct (IH t1 w1) as (-> & -> & -> & -> & ->). by rewrite Hk.
  - pose proof (keeps_write_packet outfc p in_stream out_stream osi w0) as Hk.
    destruct (write_packet outfc p in_stream out_stream osi w0)
      as [reason w1].
    cbn [fst snd] in Hk.
    destruct (decide (reason ≠ 0)).
    + cbn [fst snd]. by rewrite Hk.
    + destruct (IH t w1) as (-> & -> & -> & -> & ->). by rewrite Hk.
Qed.

Lemma tables_ok_update n_in n_out t k incc outcc :
  tables_ok n_in n_out t →
  tables_ok n_in n_out
    (mkTables (out_stream_indices t)
       (<[k := Some incc]> (in_codec_contexts t))
       (<[k := Some outcc]> (out_codec_contexts t))).
Proof.
  intros (H1 & H2 & H3 & H4 & H5). unfold tables_ok. cbn.
  rewrite !length_insert. do 4 (split; [done|]).
  intros i p. destruct (decide (i = k)) as [->|Hne].
  - intros Hp. exists incc. apply list_lookup_insert_eq.
    apply lookup_lt_Some in Hp. rewrite length_insert in Hp. lia.
  - rewrite !list_lookup_insert_ne by done. apply H5.
Qed.

(** On tables that fit, for coded units of the input's streams and with
    the scratch frame allocated or no stream to transcode, the read loop is
    defined and keeps the tables fitting. *)
Lemma write_body_loop_defined frame ins errno queue outfc :
  ∀ t (w : World L),
    tables_ok (length ins) (length (streams outfc)) t →
    units_ok (length ins) queue →
    frame = true ∨ Forall (λ slot, slot = None) (out_codec_contexts t) →
    is_Some (write_body_loop frame ins errno queue outfc t w).1.1
    ∧ tables_ok (length ins) (length (streams outfc))
        (write_body_loop frame ins errno queue outfc t w).1.2.
Proof.
  induction queue as [|p queue IH]; intros t w Ht Hu Hf.
  - cbn. by split.
  - apply Forall_cons in Hu as [Hp Hu].
    pose proof Ht as (H1 & H2 & H3 & H4 & H5).
    cbn [write_body_loop].
    cbv beta iota delta [bind av_read_frame log ret packets].
    set (w0 := mkWorld _ _ _ _).
    destruct (at_index_Some (out_stream_indices t) (stream_index p))
      as [osi Hosi]; [lia|].
    rewrite Hosi. destruct (decide (osi = -1)) as [Hd|Hd]; [by apply IH|].
    apply at_index_lookup in Hosi as [_ Hosi].
    destruct (H4 _ _ Hosi) as [?|Hrange]; [done|].
    destruct (at_index_Some ins (stream_index p)) as [in_stream ->]; [lia|].
    destruct (at_index_Some (streams outfc) osi) as [out_stream ->]; [lia|].
    destruct (at_index_Some (out_codec_contexts t) (stream_index p))
      as [slot Hslot]; [lia|].
    rewrite Hslot. apply at_index_lookup in Hslot as [Hnn Hslot].
    destruct slot as [outcc|].
    + destruct (H5 _ _ Hslot) as [incc Hincc].
      assert (at_index (in_codec_contexts t) (stream_index p)
              = Some (Some incc)) as ->.
      { unfold at_index. by rewrite decide_True. }
      destruct frame.
      2:{ destruct Hf as [?|Hnull]; [done|].
          rewrite Forall_lookup in Hnull. by apply Hnull in Hslot. }
      destruct (transcode outfc incc outcc p in_stream out_stream osi w0)
        as [[[reason incc'] outcc'] w1].
      destruct (decide (reason ≠ 0)).
      * cbn [fst snd]. split; [done|]. by apply tables_ok_update.
      * apply IH; [by apply tables_ok_update|done|by left].
    + destruct (write_packet outfc p in_stream out_stream osi w0)
        as [reason w1].
      destruct (decide (reason ≠ 0)); [by split|by apply IH].
Qed.

(** [write_body] is its read loop after the two allocations, which only
    change the state of the library. *)
Lemma write_body_unfold infc outfc t (w : World L) packet frame e1 e2 :
  packet_alloc_impl (env w) = (packet, e1) →
  frame_alloc_impl e1 = (frame, e2) →
  write_body infc outfc t w
  = (if packet
     then write_body_loop frame (streams infc) (read_errno infc)
            (packets infc) outfc t
     else ret (None, t))
      (mkWorld e2 (trace w) (stdout w) (next_addr w)).
Proof.
  intros E1 E2. unfold write_body, av_packet_alloc, av_frame_alloc.
  cbv beta iota delta [bind call]. rewrite E1.
  cbn [env trace stdout next_addr]. by rewrite E2.
Qed.

(** [write_body] allocates and frees no codec context and keeps the
    contexts of the tables. *)
Lemma write_body_ledger infc outfc t (w : World L) :
  next_addr (write_body infc outfc t w).2 = next_addr w
  ∧ held (write_body infc outfc t w).1.2 = held t
  ∧ length (in_codec_contexts (write_body infc outfc t w).1.2)
    = length (in_codec_contexts t)
  ∧ length (out_codec_contexts (write_body infc outfc t w).1.2)
    = length (out_codec_contexts t).
Proof.
  destruct (packet_alloc_impl (env w)) as [packet e1] eqn:E1.
  destruct (frame_alloc_impl e1) as [frame e2] eqn:E2.
  rewrite (write_body_unfold _ _ _ _ _ _ _ _ E1 E2).
  destruct packet; [|done].
  set (w2 := mkWorld e2 _ _ _).
  by destruct (write_body_loop_ledger frame (streams infc) (read_errno infc)
                 (packets infc) outfc t w2) as (-> & -> & _ & -> & ->).
Qed.

(** With its scratch objects allocated, [write_body] is defined on tables
    that fit and coded units of the input's streams. *)
Lemma write_body_defined infc outfc t (w : World L) :
  scratch_available →
  tables_ok (length (streams infc)) (length (streams outfc)) t →
  units_ok (length (streams infc)) (packets infc) →
  is_Some (write_body infc outfc t w).1.1.
Proof.
  intros Hs Ht Hu.
  destruct (packet_alloc_impl (env w)) as [packet e1] eqn:E1.
  destruct (frame_alloc_impl e1) as [frame e2] eqn:E2.
  rewrite (write_body_unfold _ _ _ _ _ _ _ _ E1 E2).
  pose proof (proj1 (Hs (env w))) as Hp. rewrite E1 in Hp.
  pose proof (proj2 (Hs e1)) as Hf. rewrite E2 in Hf.
  cbn in Hp, Hf. subst packet frame.
  by apply write_body_loop_defined; [| |left].
Qed.

(** X7: memory safety of [write_body] up to its two unchecked allocations.
    On tables that fit the input and the output and for coded units that
    belong to streams of the input: when [av_packet_alloc] succeeded and
    either [av_frame_alloc] succeeded too or no stream is transcoded,
    [write_body] reads no table out of bounds and uses no NULL decode
    context or scratch object, and the tables still fit afterwards; when
    [av_packet_alloc] answered NULL, the run is undefined. *)
Theorem write_body_memory_safe infc outfc t (w : World L) packet frame e1 e2 :
  tables_ok (length (streams infc)) (length (streams outfc)) t →
  units_ok (length (streams infc)) (packets infc) →
  packet_alloc_impl (env w) = (packet, e1) →
  frame_alloc_impl e1 = (frame, e2) →
  (packet = true →
   frame = true ∨ Forall (λ slot, slot = None) (out_codec_contexts t) →
   is_Some (write_body infc outfc t w).1.1
   ∧ tables_ok (length (streams infc)) (length (streams outfc))
       (write_body infc outfc t w).1.2)
  ∧ (packet = false → (write_body infc outfc t w).1.1 = None).
Proof.
  intros Ht Hu E1 E2. rewrite (write_body_unfold _ _ _ _ _ _ _ _ E1 E2).
  split.
  - intros -> Hf. by apply write_body_loop_defined.
  - by intros ->.
Qed.

(** The read loop on coded units of dropped streams. *)
Lemma write_body_loop_skips frame ins errno queue outfc t :
  ∀ w : World L,
    Forall (λ p, at_index (out_stream_indices t) (stream_index p) = Some (-1))
      queue →
    write_body_loop frame ins errno queue outfc t w
    = (Some 0, t,
       mkWorld (env w)
         (trace w ++ replicate (length queue) (EvReadFrame 0)
            ++ [EvReadFrame (AVERROR errno)])
         (stdout w) (next_addr w)).
Proof.
  induction queue as [|p queue IH]; intros w Hd.
  - done.
  - apply Forall_cons in Hd as [Hp Hd].
    cbn [write_body_loop].
    cbv beta iota delta [bind av_read_frame log ret packets].
    rewrite Hp, decide_True by done. rewrite IH by done.
    cbn. by rewrite <- app_assoc.
Qed.

(** X8: when the scratch packet is allocated and no stream of the coded
    units is carried over, [write_body] reads the input to its end and does
    nothing else, whether or not the scratch frame was allocated: it
    returns 0, makes no codec or writer call, prints nothing and leaves the
    tables as they are; the library state is the one the two allocations
    left. *)
Theorem write_body_skips_dropped infc outfc t (w : World L) frame e1 e2 :
  Forall (λ p, at_index (out_stream_indices t) (stream_index p) = Some (-1))
    (packets infc) →
  packet_alloc_impl (env w) = (true, e1) →
  frame_alloc_impl e1 = (frame, e2) →
  write_body infc outfc t w
  = (Some 0, t,
     mkWorld e2
       (trace w ++ replicate (length (packets infc)) (EvReadFrame 0)
          ++ [EvReadFrame (AVERROR (read_errno infc))])
       (stdout w) (next_addr w)).
Proof.
  intros Hd E1 E2. rewrite (write_body_unfold _ _ _ _ _ _ _ _ E1 E2).
  by rewrite write_body_loop_skips.
Qed.

(** The read loop when no stream is transcoded. *)
Lemma write_body_loop_copies frame ins errno queue outfc t :
  Forall (λ slot, slot = None) (out_codec_contexts t) →
  ∀ w : World L,
    (write_body_loop frame ins errno queue outfc t w).1.1 = Some 0 →
    ∃ new,
      trace (write_body_loop frame ins errno queue outfc t w).2 = trace w ++ new
      ∧ writes new = (λ q, (q, 0)) <$> omap (copy_of ins outfc t) queue
      ∧ sent_packets new = []
      ∧ (write_body_loop frame ins errno queue outfc t w).1.2 = t.
Proof.
  intros Hnull. induction queue as [|p queue IH]; intros w.
  - intros _. exists [EvReadFrame (AVERROR errno)]. by cbn.
  - cbn [write_body_loop omap list_omap].
    cbv beta iota delta [bind av_read_frame log ret packets].
    set (w0 := mkWorld _ _ _ _). unfold copy_of at 1.
    destruct (at_index (out_stream_indices t) (stream_index p)) as [osi|];
      [|done].
    destruct (decide (osi = -1)).
    { intros Hr. destruct (IH w0 Hr) as (rest & Et & Hw & Hs & Ht).
      exists (EvReadFrame 0 :: rest). rewrite Et. subst w0. cbn [trace].
      rewrite <- app_assoc. by repeat split. }
    destruct (at_index ins (stream_index p)) as [in_stream|]; [|done].
    destruct (at_index (streams outfc) osi) as [out_stream|]; [|done].
    destruct (at_index (out_codec_contexts t) (stream_index p))
      as [[outcc|]|] eqn:Eout; [| |done].
    { apply at_index_lookup in Eout as [_ Eout].
      rewrite Forall_lookup in Hnull. by apply Hnull in Eout. }
    destruct (write_packet_run outfc p in_stream out_stream osi w0)
      as (s & Et & Er & _).
    destruct (write_packet outfc p in_stream out_stream osi w0)
      as [reason w1].
    cbn [fst snd] in Et, Er. subst reason.
    destruct (decide (s ≠ 0)) as [Hs|Hs].
    { rewrite decide_True by lia. done. }
    rewrite decide_False by lia. apply dec_stable in Hs. subst s.
    intros Hr. destruct (IH w1 Hr) as (rest & Et' & Hw & Hsp & Ht).
    exists ([EvReadFrame 0;
             EvWriteFrame (forwarded p in_stream out_stream osi) 0] ++ rest).
    rewrite Et', Et. subst w0. cbn [trace]. rewrite <- !app_assoc.
    split; [done|]. rewrite writes_app. unfold sent_packets in *.
    rewrite omap_app, Hw, Hsp. by repeat split.
Qed.

(** X9: when no stream is transcoded (every encode context is NULL) and
    [write_body] returns 0, the units handed to the writer are exactly the
    coded units of the carried-over streams, in the order they were read,
    each with its payload, tagged with its output index and rebased; every
    write answered 0, no codec was called, and the tables are unchanged. *)
Theorem write_body_copies_in_order infc outfc t (w : World L) :
  Forall (λ slot, slot = None) (out_codec_contexts t) →
  (write_body infc outfc t w).1.1 = Some 0 →
  ∃ new,
    trace (write_body infc outfc t w).2 = trace w ++ new
    ∧ writes new
      = (λ q, (q, 0)) <$> omap (copy_of (streams infc) outfc t) (packets infc)
    ∧ sent_packets new = []
    ∧ (write_body infc outfc t w).1.2 = t.
Proof.
  intros Hnull.
  destruct (packet_alloc_impl (env w)) as [packet e1] eqn:E1.
  destruct (frame_alloc_impl e1) as [frame e2] eqn:E2.
  rewrite (write_body_unfold _ _ _ _ _ _ _ _ E1 E2).
  destruct packet; [|done].
  intros Hr.
  by apply (write_body_loop_copies frame _ _ _ _ _ Hnull) in Hr.
Qed.

Lemma sent_packets_app l1 l2 :
  sent_packets (l1 ++ l2) = sent_packets l1 ++ sent_packets l2.
Proof. apply omap_app. Qed.

(** What [transcode] submits for a coded unit of [units]. *)
Lemma transcode_submissions units outfc incc outcc p ins outs i
    (w : World L) :
  p ∈ units →
  ∃ new,
    trace (transcode outfc incc outcc p ins outs i w).2 = trace w ++ new
    ∧ sent_packets new = [Some p]
    ∧ Forall (λ fr, ∃ f, fr = Some f ∧ decoded_from units f)
        (sent_frames new).
Proof.
  intros Hp. unfold transcode, avcodec_send_packet.
  cbv beta iota delta [bind call log ret print_error printf].
  destruct (send_packet_impl (env w) (addr incc) (deref incc) (Some p))
    as [[st c] e1] eqn:Hsend.
  cbn [addr deref env trace stdout next_addr].
  destruct (decide (st ≠ 0)) as [Hst|Hst].
  - exists [EvSendPacket (addr incc) (Some p) st]. cbn. by repeat split.
  - apply dec_stable in Hst. subst st.
    set (w0 := mkWorld _ _ _ _).
    destruct (decode_pull_loop_run outfc (addr incc) c (ready_frames c) 0
                ins outs i outcc w0) as (rest & Er & Hsf & Hsp & _).
    exists (EvSendPacket (addr incc) (Some p) 0 :: rest).
    rewrite Er. subst w0. cbn [trace]. rewrite <- app_assoc.
    split; [done|]. split; [cbn; by rewrite <- Hsp|].
    change (sent_frames (EvSendPacket (addr incc) (Some p) 0 :: rest))
      with (sent_frames rest).
    rewrite Hsf. apply Forall_fmap, Forall_forall. intros f Hf.
    exists f. split; [done|].
    by exists (env w), (addr incc), (deref incc), p, c, e1.
Qed.

Lemma transcode_null_frame_submissions incc p (w : World L) :
  ∃ new,
    trace (transcode_null_frame incc p w).2 = trace w ++ new
    ∧ sent_packets new = [Some p]
    ∧ sent_frames new = [].
Proof.
  unfold transcode_null_frame, avcodec_send_packet.
  cbv beta iota delta [bind call log ret print_error printf].
  destruct (send_packet_impl (env w) (addr incc) (deref incc) (Some p))
    as [[st c] e1].
  exists [EvSendPacket (addr incc) (Some p) st].
  by destruct (decide (st ≠ 0)).
Qed.

(** What the read loop submits to the codecs. *)
Lemma write_body_loop_submissions units frame ins errno queue outfc :
  ∀ t (w : World L),
    (∀ p, p ∈ queue → p ∈ units) →
    ∃ new,
      trace (write_body_loop frame ins errno queue outfc t w).2
        = trace w ++ new
      ∧ sublist (sent_packets new) (Some <$> queue)
      ∧ Forall (λ fr, ∃ f, fr = Some f ∧ decoded_from units f)
          (sent_frames new).
Proof.
  induction queue as [|p queue IH]; intros t w Hin.
  - exists [EvReadFrame (AVERROR errno)]. cbn.
    split; [done|]. split; [constructor|constructor].
  - cbn [write_body_loop].
    cbv beta iota delta [bind av_read_frame log ret packets].
    set (w0 := mkWorld _ _ _ _).
    assert (Hq : ∀ q, q ∈ queue → q ∈ units).
    { intros q Hq. apply Hin. by right. }
    assert (Hstop : ∀ inner,
      sublist (sent_packets inner) [Some p] →
      Forall (λ fr, ∃ f, fr = Some f ∧ decoded_from units f)
        (sent_frames inner) →
      sublist (sent_packets (EvReadFrame 0 :: inner))
        (Some <$> p :: queue)
      ∧ Forall (λ fr, ∃ f, fr = Some f ∧ decoded_from units f)
          (sent_frames (EvReadFrame 0 :: inner))).
    { intros inner Hs Hf. split; [|exact Hf].
      change (sent_packets (EvReadFrame 0 :: inner))
        with (sent_packets inner).
      etrans; [exact Hs|]. cbn. apply sublist_skip, sublist_nil_l. }
    assert (Hgo : ∀ t1 w1 inner,
      trace w1 = trace w0 ++ inner →
      sublist (sent_packets inner) [Some p] →
      Forall (λ fr, ∃ f, fr = Some f ∧ decoded_from units f)
        (sent_frames inner) →
      ∃ new,
        trace (write_body_loop frame ins errno queue outfc t1 w1).2
          = trace w ++ new
        ∧ sublist (sent_packets new) (Some <$> p :: queue)
        ∧ Forall (λ fr, ∃ f, fr = Some f ∧ decoded_from units f)
            (sent_frames new)).
    { intros t1 w1 inner E Hs Hf.
      destruct (IH t1 w1 Hq) as (nr & En & Hsn & Hfn).
      exists ((EvReadFrame 0 :: inner) ++ nr).
      rewrite En, E. subst w0. cbn [trace]. rewrite <- !app_assoc.
      split; [done|]. rewrite sent_packets_app, sent_frames_app.
      split.
      - change (sent_packets (EvReadFrame 0 :: inner))
          with (sent_packets inner).
        change (Some <$> p :: queue) with ([Some p] ++ (Some <$> queue)).
        by apply sublist_app.
      - apply Forall_app. split; [exact Hf|exact Hfn]. }
    assert (Hub : ∃ new,
      trace w0 = trace w ++ new
      ∧ sublist (sent_packets new) (Some <$> p :: queue)
      ∧ Forall (λ fr, ∃ f, fr = Some f ∧ decoded_from units f)
          (sent_frames new)).
    { exists [EvReadFrame 0]. split; [done|].
      apply (Hstop []); [apply sublist_nil_l|constructor]. }
    destruct (at_index (out_stream_indices t) (stream_index p)) as [osi|];
      [|exact Hub].
    destruct (decide (osi = -1)).
    { apply (Hgo t w0 []);
        [by rewrite app_nil_r | apply sublist_nil_l | constructor]. }
    destruct (at_index ins (stream_index p)) as [in_stream|]; [|exact Hub].
    destruct (at_index (streams outfc) osi) as [out_stream|]; [|exact Hub].
    destruct (at_index (out_codec_contexts t) (stream_index p))
      as [[outcc|]|]; [| |exact Hub].
    + destruct (at_index (in_codec_contexts t) (stream_index p))
        as [[incc|]|]; [|exact Hub|exact Hub].
      destruct frame.
      * destruct (transcode_submissions units outfc incc outcc p in_stream
                    out_stream osi w0) as (inner & Ei & Hs & Hf);
          [apply Hin; by left|].
        destruct (transcode outfc incc outcc p in_stream out_stream osi w0)
          as [[[reason incc'] outcc'] w1].
        cbn [snd] in Ei.
        destruct (decide (reason ≠ 0)).
        -- exists (EvReadFrame 0 :: inner). cbn [fst snd]. rewrite Ei.
           subst w0. cbn [trace]. rewrite <- app_assoc. split; [done|].
           apply Hstop; [by rewrite Hs|done].
        -- apply (Hgo _ w1 inner); [done|by rewrite Hs|done].
      * destruct (transcode_null_frame_submissions incc p w0)
          as (inner & Ei & Hs & Hf).
        destruct (transcode_null_frame incc p w0) as [[reason incc'] w1].
        cbn [snd] in Ei.
        exists (EvReadFrame 0 :: inner). cbn [fst snd]. rewrite Ei.
        subst w0. cbn [trace]. rewrite <- app_assoc. split; [done|].
        apply Hstop; [by rewrite Hs|by rewrite Hf].
    + destruct (write_packet_run outfc p in_stream out_stream osi w0)
        as (s & Ei & _).
      destruct (write_packet outfc p in_stream out_stream osi w0)
        as [reason w1].
      cbn [snd] in Ei.
      destruct (decide (reason ≠ 0)).
      * eexists (EvReadFrame 0 :: [_]). cbn [fst snd]. rewrite Ei.
        subst w0. cbn [trace]. rewrite <- app_assoc. split; [done|].
        apply Hstop; [apply sublist_nil_l|constructor].
      * eapply (Hgo _ w1 [_]); [exact Ei|apply sublist_nil_l|constructor].
Qed.

(** C2, as amended: whatever the input and the library, [write_body]
    submits to a decoder only coded units that it read from the input, each
    at most once and in reading order, and to an encoder only frames that a
    decoder handed out for such a unit; it submits no end-of-stream (NULL)
    packet to a decoder and no end-of-stream (NULL) frame to an encoder.
    What the codecs still hold at the end of the input is not drained. *)
Theorem write_body_never_flushes infc outfc t w :
  ∃ new,
    trace (write_body infc outfc t w).2 = trace w ++ new
    ∧ Forall (λ e, is_flush e = false) new
    ∧ sublist (sent_packets new) (Some <$> packets infc)
    ∧ Forall (λ fr, ∃ f, fr = Some f ∧ decoded_from (packets infc) f)
        (sent_frames new).
Proof.
  destruct (write_body_trace infc outfc t w) as (new & E & F & _).
  exists new. split; [exact E|]. split.
  { eapply Forall_impl; [exact F|]. apply body_event_not_flush. }
  revert E.
  destruct (packet_alloc_impl (env w)) as [packet e1] eqn:E1.
  destruct (frame_alloc_impl e1) as [frame e2] eqn:E2.
  rewrite (write_body_unfold _ _ _ _ _ _ _ _ E1 E2).
  destruct packet.
  - set (w2 := mkWorld e2 _ _ _).
    destruct (write_body_loop_submissions (packets infc) frame (streams infc)
                (read_errno infc) (packets infc) outfc t w2)
      as (new' & E' & Hs & Hf); [done|].
    rewrite E'. subst w2. cbn [trace]. intros ->%app_inv_head. done.
  - cbn. intros E. rewrite <- (app_nil_r (trace w)) in E at 1.
    apply app_inv_head in E as <-. split; [apply sublist_nil_l|constructor].
Qed.

End BodyMore.

(** ** Further properties of the stream mapper *)

Section MapperMore.
Context {L : LibAV}.

Lemma kept_false_spec s :
  kept s = false →
  codec_type (codecpar s) ≠ AVMEDIA_TYPE_AUDIO
  ∧ codec_type (codecpar s) ≠ AVMEDIA_TYPE_VIDEO.
Proof.
  intros Hk.
  destruct (decide (codec_type (codecpar s) ≠ AVMEDIA_TYPE_AUDIO
                    ∧ codec_type (codecpar s) ≠ AVMEDIA_TYPE_VIDEO))
    as [H|H]; [done|].
  apply kept_spec in H. congruence.
Qed.

Lemma create_streams_loop_nothing_kept infc out_codec rest :
  ∀ i sc outfc t (w : World L),
    Forall (λ s, kept s = false) rest →
    (i + length rest ≤ length (out_stream_indices t))%nat →
    ∃ ixs,
      create_streams_loop infc out_codec i rest sc outfc t w
      = (Continue, outfc,
         mkTables ixs (in_codec_contexts t) (out_codec_contexts t), w).
Proof.
  induction rest as [|s rest IH]; intros i sc outfc t w Hk Hlen.
  - exists (out_stream_indices t). by destruct t.
  - apply Forall_cons in Hk as [Hs Hk]. cbn [length] in Hlen.
    cbn [create_streams_loop]. unfold create_streams_body.
    rewrite decide_True by (by apply kept_false_spec).
    unfold store. rewrite decide_True by lia.
    cbv beta iota delta [bind ret].
    set (t1 := mkTables _ _ _).
    destruct (IH (S i) sc outfc t1 w Hk) as [ixs Hixs].
    { subst t1. cbn. rewrite length_insert. lia. }
    exists ixs. exact Hixs.
Qed.

(** X10: for an input without audio or video stream, [create_streams]
    returns 0 without any library call: no context is allocated, no output
    stream is created, nothing is printed, and every entry of the index map
    is DROPPED. *)
Theorem create_streams_nothing_kept infc outfc t out_codec (w : World L) :
  Forall (λ s, kept s = false) (streams infc) →
  length (out_stream_indices t) = length (streams infc) →
  create_streams infc outfc t out_codec w
  = (Some 0, outfc,
     mkTables (replicate (length (streams infc)) DROPPED)
       (in_codec_contexts t) (out_codec_contexts t),
     w).
Proof.
  intros Hk Hlen. unfold create_streams. cbv beta iota delta [bind].
  destruct (create_streams_loop_nothing_kept infc out_codec (streams infc) 0
              (-1) outfc t w Hk) as [ixs Hixs]; [cbn; lia|].
  rewrite Hixs. cbv beta iota delta [ret]. do 3 f_equal.
  apply create_streams_loop_indices in Hixs as (Hl & _ & Hix).
  cbn [out_stream_indices] in Hl, Hix.
  apply list_eq. intros j.
  destruct (decide (j < length (streams infc))%nat) as [Hj|Hj].
  - destruct (lookup_lt_is_Some_2 (streams infc) j Hj) as [s Hs].
    specialize (Hix j s Hs). cbn [Nat.add] in Hix. rewrite Hix.
    rewrite Forall_lookup in Hk. rewrite (Hk j s Hs).
    by rewrite lookup_replicate_2.
  - rewrite !lookup_ge_None_2; [done|rewrite length_replicate; lia|lia].
Qed.

Lemma create_video_contexts_shape infc out_codec i s t (w : World L)
    outcc t' w' :
  create_video_contexts infc out_codec i s t w = (Continue, outcc, t', w') →
  ∃ p q,
    outcc = Some q
    ∧ in_codec_contexts t' = <[i := Some p]> (in_codec_contexts t)
    ∧ out_codec_contexts t' = <[i := Some q]> (out_codec_contexts t)
    ∧ (i < length (in_codec_contexts t))%nat
    ∧ (i < length (out_codec_contexts t))%nat.
Proof.
  unfold create_video_contexts.
  destruct (avcodec_find_decoder _) as [in_codec|];
    cbv beta iota delta [bind printf ret]; [|done].
  destruct (create_decode_context _ _ w) as [[incc|] w1]; [|done].
  destruct (store (in_codec_contexts t) i (Some incc)) as [ins|] eqn:E1;
    [|done].
  apply store_Some in E1 as [Hi1 ->].
  destruct (create_encode_context _ _ _ _ w1) as [[outcc'|] w2];
    cbn [out_codec_contexts in_codec_contexts out_stream_indices]; [|done].
  destruct (store (out_codec_contexts t) i (Some outcc')) as [outs|] eqn:E2;
    [|done].
  apply store_Some in E2 as [Hi2 ->].
  intros [= <- <- <-]. by exists incc, outcc'.
Qed.

Lemma create_output_stream_length outfc par outcc (w : World L) outfc' w' :
  create_output_stream outfc par outcc w = (Continue, outfc', w') →
  length (streams outfc') = S (length (streams outfc)).
Proof.
  unfold create_output_stream, avformat_new_stream,
    avcodec_parameters_from_context, avcodec_parameters_copy, print_error.
  cbv beta iota delta [bind call log printf ret].
  destruct (new_stream_impl (env w) outfc) as [[st|] e1];
    cbn [env trace stdout next_addr fst snd]; [|done].
  destruct (decide (codec_type par = AVMEDIA_TYPE_VIDEO)) as [Hv|Hv].
  - destruct outcc as [cc|]; [|done].
    cbn [env trace stdout next_addr fst snd].
    destruct (parameters_from_context_impl e1 (codecpar st) (deref cc))
      as [[s1 par'] e2].
    destruct (decide (s1 ≠ 0)); cbn [env trace stdout next_addr fst snd];
      [done|].
    intros [= <- <-]. cbn. rewrite !length_insert, length_app. cbn. lia.
  - cbn [env trace stdout next_addr fst snd].
    destruct (parameters_copy_impl e1 (codecpar st) par) as [[s1 par'] e2].
    destruct (decide (s1 ≠ 0)); cbn [env trace stdout next_addr fst snd];
      [done|].
    intros [= <- <-]. cbn. rewrite !length_insert, length_app. cbn. lia.
Qed.

Lemma create_streams_body_shape infc out_codec i s sc outfc t (w : World L)
    sc' outfc' t' w' :
  create_streams_body infc out_codec i s sc outfc t w
    = (Continue, sc', outfc', t', w') →
  length (streams outfc')
  = (length (streams outfc) + (if kept s then 1 else 0))%nat
  ∧ ((is_video s
      ∧ ∃ p q,
          in_codec_contexts t' = <[i := Some p]> (in_codec_contexts t)
          ∧ out_codec_contexts t' = <[i := Some q]> (out_codec_contexts t)
          ∧ (i < length (in_codec_contexts t))%nat
          ∧ (i < length (out_codec_contexts t))%nat)
     ∨ (¬ is_video s
        ∧ in_codec_contexts t' = in_codec_contexts t
        ∧ out_codec_contexts t' = out_codec_contexts t)).
Proof.
  unfold create_streams_body, is_video.
  destruct (decide (_ ∧ _)) as [Hk|Hk].
  { assert (kept s = false) as ->.
    { apply not_true_is_false. rewrite kept_spec. tauto. }
    destruct (store _ i (-1)) as [ixs|]; cbv beta iota delta [ret]; [|done].
    intros [= <- <- <- <-]. split; [lia|]. right. cbn. tauto. }
  assert (kept s = true) as -> by (by apply kept_spec).
  cbv beta iota delta [bind].
  destruct (decide (codec_type (codecpar s) = AVMEDIA_TYPE_VIDEO)) as [Hv|Hv].
  - destruct (create_video_contexts infc out_codec i s t w)
      as [[[e1 outcc] t1] w1] eqn:E1.
    destruct e1; cbv beta iota delta [ret]; [|done..].
    apply create_video_contexts_shape in E1
      as (p & q & -> & Hin & Hout & Hi1 & Hi2).
    destruct (create_output_stream outfc (codecpar s) (Some q) w1)
      as [[e2 outfc2] w2] eqn:E2.
    destruct e2; [|done..].
    apply create_output_stream_length in E2.
    destruct (store _ i (sc + 1)) as [ixs|]; [|done].
    intros [= <- <- <- <-]. split; [lia|]. left. split; [done|].
    exists p, q. by cbn.
  - cbv beta iota delta [ret].
    destruct (create_output_stream outfc (codecpar s) None w)
      as [[e2 outfc2] w2] eqn:E2.
    destruct e2; [|done..].
    apply create_output_stream_length in E2.
    destruct (store _ i (sc + 1)) as [ixs|]; [|done].
    intros [= <- <- <- <-]. split; [lia|]. right. by cbn.
Qed.

Lemma kept_count_cons s ss :
  kept_count (s :: ss) = ((if kept s then 1 else 0) + kept_count ss)%nat.
Proof.
  unfold kept_count. rewrite filter_cons.
  destruct (decide (kept s = true)) as [->|Hk]; [done|].
  apply not_true_is_false in Hk. by rewrite Hk.
Qed.

Lemma create_streams_loop_shape infc out_codec rest :
  ∀ i sc outfc t (w : World L) outfc' t' w',
    create_streams_loop infc out_codec i rest sc outfc t w
      = (Continue, outfc', t', w') →
    length (streams outfc')
    = (length (streams outfc) + kept_count rest)%nat
    ∧ length (in_codec_contexts t') = length (in_codec_contexts t)
    ∧ length (out_codec_contexts t') = length (out_codec_contexts t)
    ∧ (∀ j, (j < i)%nat →
         in_codec_contexts t' !! j = in_codec_contexts t !! j
         ∧ out_codec_contexts t' !! j = out_codec_contexts t !! j)
    ∧ (∀ j s, rest !! j = Some s →
         (is_video s
          ∧ ∃ p q,
              in_codec_contexts t' !! (i + j)%nat = Some (Some p)
              ∧ out_codec_contexts t' !! (i + j)%nat = Some (Some q))
         ∨ (¬ is_video s
            ∧ in_codec_contexts t' !! (i + j)%nat
              = in_codec_contexts t !! (i + j)%nat
            ∧ out_codec_contexts t' !! (i + j)%nat
              = out_codec_contexts t !! (i + j)%nat)).
Proof.
  induction rest as [|s rest IH]; intros i sc outfc t w outfc' t' w'.
  - cbn. intros [= <- <- <-]. unfold kept_count. cbn.
    repeat split; (done || lia).
  - cbn [create_streams_loop]. cbv beta iota delta [bind].
    destruct (create_streams_body infc out_codec i s sc outfc t w)
      as [[[[e1 sc1] outfc1] t1] w1] eqn:E1.
    destruct e1; cbv beta iota delta [ret]; [|done..].
    apply create_streams_body_shape in E1 as (Hlen1 & Hshape).
    intros E2. apply IH in E2 as (Hlen2 & Hl1 & Hl2 & Hlow & Hrest).
    assert (Hother : ∀ j, j ≠ i →
      in_codec_contexts t1 !! j = in_codec_contexts t !! j
      ∧ out_codec_contexts t1 !! j = out_codec_contexts t !! j).
    { intros j Hj.
      destruct Hshape as [(_ & p & q & -> & -> & _)|(_ & -> & ->)]; [|done].
      by rewrite !list_lookup_insert_ne. }
    assert (Hlens : length (in_codec_contexts t1) = length (in_codec_contexts t)
                    ∧ length (out_codec_contexts t1)
                      = length (out_codec_contexts t)).
    { destruct Hshape as [(_ & p & q & -> & -> & _)|(_ & -> & ->)]; [|done].
      by rewrite !length_insert. }
    rewrite kept_count_cons.
    split; [lia|]. split; [lia|]. split; [lia|]. split.
    + intros j Hj. destruct (Hlow j) as [-> ->]; [lia|]. apply Hother. lia.
    + intros [|j] s' Hs'.
      * cbn in Hs'. injection Hs' as <-. rewrite Nat.add_0_r.
        destruct (Hlow i) as [-> ->]; [lia|].
        destruct Hshape as [(Hv & p & q & -> & -> & Hi1 & Hi2)
                           |(Hv & -> & ->)].
        -- left. split; [done|]. exists p, q.
           by rewrite !list_lookup_insert_eq.
        -- by right.
      * cbn in Hs'. replace (i + S j)%nat with (S i + j)%nat by lia.
        destruct (Hrest j s' Hs') as [?|(Hv & -> & ->)]; [by left|].
        right. split; [done|]. apply Hother. lia.
Qed.

Lemma kept_before_length ss :
  kept_before ss (length ss) = Z.of_nat (kept_count ss).
Proof. unfold kept_before, kept_count. by rewrite firstn_all. Qed.

Lemma create_streams_Some_0 infc outfc t out_codec (w : World L)
    outfc' t' w' :
  create_streams infc outfc t out_codec w = (Some 0, outfc', t', w') →
  create_streams_loop infc out_codec 0 (streams infc) (-1) outfc t w
  = (Continue, outfc', t', w').
Proof.
  unfold create_streams. cbv beta iota delta [bind].
  destruct (create_streams_loop infc out_codec 0 (streams infc) (-1) outfc t w)
    as [[[e outfc1] t1] w1].
  destruct e; cbv beta iota delta [ret].
  - by intros [= <- <- <-].
  - by destruct (free_contexts _ t1 w1) as [[[] ?] ?].
  - done.
Qed.

(** After a successful [create_streams] on fresh tables, the tables fit the
    input and the output. *)
Lemma create_streams_tables_ok infc outfc t out_codec (w : World L)
    outfc' t' w' :
  tables_fresh (length (streams infc)) t →
  create_streams infc outfc t out_codec w = (Some 0, outfc', t', w') →
  tables_ok (length (streams infc)) (length (streams outfc')) t'.
Proof.
  intros (Hl0 & Hin & Hout) E. apply create_streams_Some_0 in E.
  pose proof (create_streams_loop_indices _ _ _ _ _ _ _ _ _ _ _ E)
    as (Hl & _ & Hix).
  pose proof (create_streams_loop_shape _ _ _ _ _ _ _ _ _ _ _ E)
    as (Hlen & Hl1 & Hl2 & _ & Hshape).
  rewrite Hin in Hl1. rewrite Hout in Hl2.
  rewrite length_replicate in Hl1, Hl2.
  split; [lia|]. split; [done|]. split; [done|]. split.
  - intros i x Hx.
    destruct (lookup_lt_is_Some_2 (streams infc) i) as [s Hs].
    { apply lookup_lt_Some in Hx. lia. }
    specialize (Hix i s Hs). cbn [Nat.add] in Hix. rewrite Hix in Hx.
    injection Hx as <-. destruct (kept s) eqn:Hk; [right|by left].
    pose proof (kept_before_bounds _ i s Hs Hk) as Hb.
    rewrite kept_before_length in Hb. lia.
  - intros i p Hp.
    destruct (lookup_lt_is_Some_2 (streams infc) i) as [s Hs].
    { apply lookup_lt_Some in Hp. lia. }
    destruct (Hshape i s Hs) as [(_ & p' & q & Hp' & _)|(_ & _ & Hq)].
    + by exists p'.
    + cbn [Nat.add] in Hq. rewrite Hq, Hout in Hp.
      apply lookup_replicate in Hp as [? _]. done.
Qed.

(** X11: when [create_streams] returns 0 on fresh tables, it has created
    one output stream per audio or video stream of the input; every video
    stream has a decode and an encode context in the tables and no other
    stream has one; and the tables fit the input and the output. *)
Theorem create_streams_success_shape infc outfc t out_codec (w : World L)
    outfc' t' w' :
  tables_fresh (length (streams infc)) t →
  create_streams infc outfc t out_codec w = (Some 0, outfc', t', w') →
  length (streams outfc')
  = (length (streams outfc) + kept_count (streams infc))%nat
  ∧ tables_ok (length (streams infc)) (length (streams outfc')) t'
  ∧ (∀ i s, streams infc !! i = Some s →
       if decide (is_video s)
       then ∃ p q, in_codec_contexts t' !! i = Some (Some p)
                   ∧ out_codec_contexts t' !! i = Some (Some q)
       else in_codec_contexts t' !! i = Some None
            ∧ out_codec_contexts t' !! i = Some None).
Proof.
  intros Hfresh E.
  split; [|split; [by eapply create_streams_tables_ok|]].
  - apply create_streams_Some_0 in E.
    by apply create_streams_loop_shape in E as (Hlen & _).
  - destruct Hfresh as (Hl0 & Hin & Hout).
    apply create_streams_Some_0 in E.
    apply create_streams_loop_shape in E as (_ & _ & _ & _ & Hshape).
    intros i s Hs. pose proof (lookup_lt_Some _ _ _ Hs) as Hi.
    destruct (Hshape i s Hs) as [(Hv & Hpq)|(Hv & Hp & Hq)];
      cbn [Nat.add] in *.
    + by rewrite decide_True.
    + rewrite decide_False by done. rewrite Hp, Hq, Hin, Hout.
      by rewrite !lookup_replicate_2.
Qed.

End MapperMore.

(** ** The driver: [create_streams_and_transcode] *)

Section DriverLemmas.
Context {L : LibAV}.

Lemma step_worlds (w1 w2 w1' w2' : World L) new h h' :
  trace w1' = trace w1 → next_addr w1' = next_addr w1 →
  trace w2' = trace w2 → next_addr w2' = next_addr w2 →
  step w1 w2 new h h' → step w1' w2' new h h'.
Proof.
  intros E1 N1 E2 N2 (Et & k & Hn & Ha & Hp).
  split; [by rewrite E2, E1|]. exists k. by rewrite N2, N1.
Qed.

Lemma body_events_quiet l :
  Forall body_event l → allocs l = [] ∧ frees l = [].
Proof.
  induction 1 as [|e l He _ [IH1 IH2]]; [done|].
  unfold allocs, frees in *. destruct e; cbn; try done.
Qed.

(** [write_output] allocates and frees no codec context and keeps the
    contexts of the tables. *)
Lemma write_output_step infc outfc t (w : World L) :
  (∃ new,
     step w (write_output infc outfc t w).2 new (held t)
       (held (write_output infc outfc t w).1.2))
  ∧ length (in_codec_contexts (write_output infc outfc t w).1.2)
    = length (in_codec_contexts t)
  ∧ length (out_codec_contexts (write_output infc outfc t w).1.2)
    = length (out_codec_contexts t).
Proof.
  unfold write_output, avformat_write_header, av_write_trailer, print_error.
  cbv beta iota delta [bind call log printf ret].
  destruct (write_header_impl (env w) outfc) as [hs e1].
  cbn [env trace stdout next_addr].
  destruct (decide (hs ≠ AVSTREAM_INIT_IN_WRITE_HEADER)).
  { cbn [fst snd]. split; [|done]. exists [EvWriteHeader hs].
    by apply step_quiet. }
  set (w1 := mkWorld e1 _ _ _).
  destruct (write_body_trace infc outfc t w1) as (body & Eb & Fb & _).
  destruct (write_body_ledger infc outfc t w1) as (Hn & Hh & Hl1 & Hl2).
  destruct (write_body infc outfc t w1) as [[r t'] w2].
  cbn [fst snd] in Eb, Hn, Hh, Hl1, Hl2.
  destruct (body_events_quiet body Fb) as [Hqa Hqf].
  assert (S2 : step w w2 (EvWriteHeader hs :: body) (held t) (held t')).
  { rewrite Hh. apply step_quiet.
    - rewrite Eb. subst w1. cbn. by rewrite <- app_assoc.
    - by rewrite Hn.
    - exact Hqa.
    - exact Hqf. }
  destruct r as [reason|]; [|cbn [fst snd]; split; [by eexists|done]].
  destruct (decide (reason ≠ 0)); [cbn [fst snd]; split; [by eexists|done]|].
  destruct (write_trailer_impl (env w2) outfc) as [ts e3].
  assert (S3 : ∀ so,
    step w (mkWorld e3 (trace w2 ++ [EvWriteTrailer ts]) so (next_addr w2))
      ((EvWriteHeader hs :: body) ++ [EvWriteTrailer ts]) (held t) (held t')).
  { intros so. eapply step_trans; [exact S2|]. by apply step_quiet. }
  destruct (decide (ts ≠ 0)); cbn [fst snd stdout trace env next_addr];
    (split; [eexists; apply S3 | done]).
Qed.

(** The loop that frees the contexts, over tables of [n] entries. *)
Lemma free_all_step n t (w : World L) :
  length (in_codec_contexts t) = n → length (out_codec_contexts t) = n →
  (free_contexts (seq 0 n) t w).1.1 = true
  ∧ ∃ new, step w (free_contexts (seq 0 n) t w).2 new (held t) [].
Proof.
  intros Hl1 Hl2.
  destruct (free_contexts (seq 0 n) t w) as [[defined t2] w2] eqn:E.
  apply free_contexts_step in E as (-> & (n2 & S2) & Hl3 & Hl4 & Hc1 & Hc2).
  2:{ intros i Hi%elem_of_seq. lia. }
  split; [done|]. exists n2. cbn [snd].
  assert (held t2 = []) as <-; [|done].
  unfold held.
  rewrite (all_null n (in_codec_contexts t2)), (all_null n (out_codec_contexts t2)),
    !addrs_replicate; [done|lia| |lia|].
  - intros j Hj. apply Hc2; [|lia]. left. apply elem_of_seq. lia.
  - intros j Hj. apply Hc1; [|lia]. left. apply elem_of_seq. lia.
Qed.

(** A successful [create_streams] on fresh tables frees nothing it
    allocated: the contexts are those of the tables. *)
Lemma create_streams_success_step infc outfc t out_codec (w : World L)
    outfc' t' w' :
  tables_fresh (length (streams infc)) t →
  create_streams infc outfc t out_codec w = (Some 0, outfc', t', w') →
  (∃ new, step w w' new [] (held t'))
  ∧ length (in_codec_contexts t') = length (streams infc)
  ∧ length (out_codec_contexts t') = length (streams infc).
Proof.
  intros Hfresh E. pose proof Hfresh as (Hl0 & Hin & Hout).
  apply create_streams_Some_0 in E.
  apply create_streams_loop_step in E
    as ((n1 & S1 & _) & _ & _ & Hl1 & Hl2).
  2:{ intros j Hj. cbn in Hj. rewrite Hin, Hout.
      rewrite !lookup_replicate_2 by lia. split; [|done].
      apply lookup_lt_is_Some. lia. }
  rewrite (fresh_held _ _ Hfresh) in S1.
  rewrite Hin in Hl1. rewrite Hout in Hl2.
  rewrite length_replicate in Hl1, Hl2. split; [by exists n1|done].
Qed.

End DriverLemmas.

Section DriverOutcome.
Context {L : LibAV} {IO : LibAVIO L}.

Lemma step_closed (w w' : World L) new :
  step w w' new [] [] → allocs new ≡ₚ frees new ∧ NoDup (frees new).
Proof.
  intros (_ & k & _ & Ha & Hp). rewrite !app_nil_r in Hp.
  split; [done|]. rewrite <- Hp, Ha. apply NoDup_seq.
Qed.

Lemma write_output_defined infc outfc t (w : World L) :
  scratch_available →
  tables_ok (length (streams infc)) (length (streams outfc)) t →
  units_ok (length (streams infc)) (packets infc) →
  is_Some (write_output infc outfc t w).1.1.
Proof.
  intros Hs Ht Hu.
  unfold write_output, avformat_write_header, av_write_trailer, print_error.
  cbv beta iota delta [bind call log printf ret].
  destruct (write_header_impl (env w) outfc) as [hs e1].
  destruct (decide (hs ≠ AVSTREAM_INIT_IN_WRITE_HEADER)); [done|].
  match goal with
  | |- context [write_body infc outfc t ?w1] =>
      destruct (write_body_defined infc outfc t w1 Hs Ht Hu) as [r Hr];
      destruct (write_body infc outfc t w1) as [[r' t'] w2]
  end.
  cbn [fst snd] in Hr. subst r'.
  destruct (decide (r ≠ 0)); [done|].
  destruct (write_trailer_impl (env w2) outfc) as [ts e3].
  by destruct (decide (ts ≠ 0)).
Qed.

(** Every way [create_streams_and_transcode] can run. *)
Lemma create_streams_and_transcode_outcome infc outfc file (r0 : Run L) :
  ∃ new ios,
    trace (run_world (create_streams_and_transcode infc outfc file r0).2)
      = trace (run_world r0) ++ new
    ∧ run_io (create_streams_and_transcode infc outfc file r0).2
      = run_io r0 ++ ios
    ∧ (scratch_available →
       units_ok (length (streams infc)) (packets infc) →
         is_Some (create_streams_and_transcode infc outfc file r0).1)
    ∧ (is_Some (create_streams_and_transcode infc outfc file r0).1 →
         (allocs new ≡ₚ frees new ∧ NoDup (frees new))
         ∧ ∃ al fc fr,
             ios = al ++ fc ++ fr
             ∧ Forall is_table_alloc al
             ∧ Forall is_table_free fr
             ∧ tables_freed fr = reverse (tables_allocated al)
             ∧ ((fc = []
                 ∧ (create_streams_and_transcode infc outfc file r0).1
                   = Some (-1))
                ∨ (∃ s, s ≠ 0 ∧ fc = [IoOpen file s]
                        ∧ (create_streams_and_transcode infc outfc file r0).1
                          = Some (-1)
                        ∧ tables_allocated al
                          = [IndexTable; DecodeTable; EncodeTable])
                ∨ (fc = [IoOpen file 0; IoClose]
                   ∧ tables_allocated al
                     = [IndexTable; DecodeTable; EncodeTable]))).
Proof.
  destruct r0 as [w io0]. unfold create_streams_and_transcode.
  assert (Hnil : allocs [] ≡ₚ frees [] ∧ NoDup (frees [])).
  { split; [done|]. apply NoDup_nil_2. }
  pose (all3 := [IoAllocTable IndexTable true; IoAllocTable DecodeTable true;
                 IoAllocTable EncodeTable true]).
  pose (free3 := [IoFreeTable EncodeTable; IoFreeTable DecodeTable;
                  IoFreeTable IndexTable]).
  destruct (avcodec_find_encoder_by_name "libx265") as [out_codec|].
  2:{ exists [], []. cbn. rewrite !app_nil_r.
      split; [done|]. split; [done|]. split; [done|]. intros _.
      split; [done|]. exists [], [], []. repeat split; try done. by left. }
  cbv beta iota delta [dbind dret lift io_log av_malloc_array av_calloc
    av_freep avio_open avio_closep free_all_contexts call printf print_error
    run_world run_io].
  cbn [env trace stdout next_addr].
  destruct (malloc_array_impl (env w) (length (streams infc)))
    as [[content|] e1].
  2:{ exists [], [IoAllocTable IndexTable false]. cbn. rewrite !app_nil_r.
      split; [done|]. split; [done|]. split; [done|]. intros _.
      split; [done|]. exists [IoAllocTable IndexTable false], [], [].
      split; [done|]. split; [by repeat constructor|].
      split; [constructor|]. split; [done|]. by left. }
  cbn [env trace stdout next_addr].
  destruct (calloc_impl e1 (length (streams infc))) as [[|] e2].
  2:{ exists [], [IoAllocTable IndexTable true; IoAllocTable DecodeTable false;
                  IoFreeTable IndexTable].
      cbn. rewrite !app_nil_r, <- !app_assoc.
      split; [done|]. split; [done|]. split; [done|]. intros _.
      split; [done|].
      exists [IoAllocTable IndexTable true; IoAllocTable DecodeTable false],
        [], [IoFreeTable IndexTable].
      split; [done|]. split; [by repeat constructor|].
      split; [by repeat constructor|]. split; [done|]. by left. }
  cbn [env trace stdout next_addr].
  destruct (calloc_impl e2 (length (streams infc))) as [[|] e3].
  2:{ exists [], [IoAllocTable IndexTable true; IoAllocTable DecodeTable true;
                  IoAllocTable EncodeTable false;
                  IoFreeTable DecodeTable; IoFreeTable IndexTable].
      cbn. rewrite !app_nil_r, <- !app_assoc.
      split; [done|]. split; [done|]. split; [done|]. intros _.
      split; [done|].
      exists [IoAllocTable IndexTable true; IoAllocTable DecodeTable true;
              IoAllocTable EncodeTable false],
        [], [IoFreeTable DecodeTable; IoFreeTable IndexTable].
      split; [done|]. split; [by repeat constructor|].
      split; [by repeat constructor|]. split; [done|]. by left. }
  cbn [env trace stdout next_addr].
  set (t0 := mkTables _ _ _). set (w3 := mkWorld e3 _ _ _).
  assert (Hfresh : tables_fresh (length (streams infc)) t0).
  { subst t0. split; [|done]. cbn. by rewrite length_fmap, length_seq. }
  destruct (create_streams infc outfc t0 out_codec w3)
    as [[[mapped outfc1] t1] w4] eqn:Ecs.
  destruct (create_streams_outcome _ _ _ _ _ _ _ _ _ Hfresh Ecs)
    as (n1 & Et1 & Hcase).
  destruct Hcase as [(-> & _ & _)|(-> & Hp & Hn & _ & _)].
  2:{ rewrite decide_True by lia.
      exists n1, (all3 ++ free3).
      cbn [fst snd run_world run_io]. rewrite <- !app_assoc.
      split; [by rewrite Et1|]. split; [done|]. split; [done|].
      intros _. split; [done|]. exists all3, [], free3.
      split; [done|]. split; [by repeat constructor|].
      split; [by repeat constructor|]. split; [done|]. by left. }
  rewrite decide_False by lia.
  destruct (create_streams_success_step _ _ _ _ _ _ _ _ Hfresh Ecs)
    as ((n1' & S1) & Hl1 & Hl2).
  pose proof (create_streams_tables_ok _ _ _ _ _ _ _ _ Hfresh Ecs) as Hok.
  destruct S1 as (Et1' & HS1). rewrite Et1 in Et1'.
  apply app_inv_head in Et1'. subst n1'.
  assert (S1 : step w w4 n1 [] (held t1)).
  { apply (step_worlds w3 w4); done. }
  clear HS1.
  destruct (avio_open_impl (env w4) outfc1 file) as [reason e5].
  cbn [env trace stdout next_addr].
  destruct (decide (reason ≠ 0)) as [Hopen|Hopen].
  - cbn [env trace stdout next_addr].
    match goal with
    | |- context [free_contexts _ _ ?x] => set (w5 := x)
    end.
    destruct (free_all_step (length (streams infc)) t1 w5 Hl1 Hl2)
      as (Hdef & n2 & S2).
    destruct (free_contexts (seq 0 (length (streams infc))) t1 w5)
      as [[defined t2] w6].
    cbn [fst snd] in Hdef, S2. subst defined.
    assert (S12 : step w w6 (n1 ++ n2) [] []).
    { eapply step_trans; [exact S1|].
      apply (step_worlds w5 w6); try done. }
    exists (n1 ++ n2), (all3 ++ [IoOpen file reason] ++ free3).
    cbn [fst snd run_world run_io]. rewrite <- !app_assoc.
    split; [apply S12|]. split; [done|]. split; [done|].
    intros _. split; [by apply (step_closed w w6)|].
    exists all3, [IoOpen file reason], free3.
    split; [done|]. split; [by repeat constructor|].
    split; [by repeat constructor|]. split; [done|].
    right. left. by exists reason.
  - apply dec_stable in Hopen. subst reason.
    set (w5 := mkWorld e5 _ _ _).
    destruct (write_output_step infc outfc1 t1 w5) as ((n2 & S2) & Hl3 & Hl4).
    pose proof (λ Hs, write_output_defined infc outfc1 t1 w5 Hs Hok)
      as Hdefined.
    destruct (write_output infc outfc1 t1 w5) as [[result t3] w6].
    cbn [env trace stdout next_addr].
    cbn [fst snd] in S2, Hl3, Hl4, Hdefined.
    assert (S12 : step w w6 (n1 ++ n2) [] (held t3)).
    { eapply step_trans; [exact S1|].
      apply (step_worlds w5 w6); try done. }
    destruct result as [result|].
    2:{ exists (n1 ++ n2), (all3 ++ [IoOpen file 0]).
        cbn [fst snd run_world run_io]. rewrite <- !app_assoc.
        split; [apply S12|]. split; [done|].
        split; [intros Hs Hu; by apply Hdefined|]. by intros [? ?]. }
    destruct (avio_closep_impl (env w6) outfc1) as [cs e7].
    cbn [env trace stdout next_addr].
    set (w7 := mkWorld e7 _ _ _).
    destruct (free_all_step (length (streams infc)) t3 w7) as (Hdef & n3 & S3);
      [lia|lia|].
    destruct (free_contexts (seq 0 (length (streams infc))) t3 w7)
      as [[defined t4] w8].
    cbn [fst snd] in Hdef, S3. subst defined.
    assert (S123 : step w w8 (n1 ++ n2 ++ n3) [] []).
    { rewrite app_assoc. eapply step_trans; [exact S12|].
      apply (step_worlds w7 w8); try done. }
    exists (n1 ++ n2 ++ n3), (all3 ++ [IoOpen file 0; IoClose] ++ free3).
    cbn [fst snd run_world run_io]. rewrite <- !app_assoc.
    split; [apply S123|]. split; [done|]. split; [done|].
    intros _. split; [by apply (step_closed w w8)|].
    exists all3, [IoOpen file 0; IoClose], free3.
    split; [done|]. split; [by repeat constructor|].
    split; [by repeat constructor|]. split; [done|]. right. right. done.
Qed.

(** X12: a run of [create_streams_and_transcode] that stays inside the
    tables leaves no codec context behind: the contexts that the run
    allocates are the contexts that it frees, each freed once, whether the
    run fails before the streams are mapped, at the opening of the output
    file, or goes through [write_output]. *)
Theorem create_streams_and_transcode_frees_contexts infc outfc file
    (r0 : Run L) :
  is_Some (create_streams_and_transcode infc outfc file r0).1 →
  ∃ new,
    trace (run_world (create_streams_and_transcode infc outfc file r0).2)
      = trace (run_world r0) ++ new
    ∧ allocs new ≡ₚ frees new
    ∧ NoDup (frees new).
Proof.
  intros Hdef.
  destruct (create_streams_and_transcode_outcome infc outfc file r0)
    as (new & ios & Et & _ & _ & H).
  destruct (H Hdef) as ((Hp & Hn) & _). by exists new.
Qed.

(** X13: the table and file calls of such a run come in three parts, in
    this order: allocations of tables, then the calls on the output file,
    then frees of tables.  The tables are freed in the reverse of the order
    of their allocation, and a table whose allocation failed is not freed.
    The output file is opened at most once, and only when the three tables
    have been allocated; it is closed exactly when it was opened with
    status 0; a run that does not open it, or opens it with another status,
    returns -1. *)
Theorem create_streams_and_transcode_tables_and_file infc outfc file
    (r0 : Run L) :
  is_Some (create_streams_and_transcode infc outfc file r0).1 →
  ∃ al fc fr,
    run_io (create_streams_and_transcode infc outfc file r0).2
      = run_io r0 ++ al ++ fc ++ fr
    ∧ Forall is_table_alloc al
    ∧ Forall is_table_free fr
    ∧ tables_freed fr = reverse (tables_allocated al)
    ∧ ((fc = []
        ∧ (create_streams_and_transcode infc outfc file r0).1 = Some (-1))
       ∨ (∃ s, s ≠ 0 ∧ fc = [IoOpen file s]
               ∧ (create_streams_and_transcode infc outfc file r0).1
                 = Some (-1)
               ∧ tables_allocated al
                 = [IndexTable; DecodeTable; EncodeTable])
       ∨ (fc = [IoOpen file 0; IoClose]
          ∧ tables_allocated al = [IndexTable; DecodeTable; EncodeTable])).
Proof.
  intros Hdef.
  destruct (create_streams_and_transcode_outcome infc outfc file r0)
    as (new & ios & _ & Eio & _ & H).
  destruct (H Hdef) as (_ & al & fc & fr & -> & Hshape).
  by exists al, fc, fr.
Qed.

(** X14: when [av_packet_alloc] and [av_frame_alloc] do not fail and every
    coded unit of the input names one of its streams,
    [create_streams_and_transcode] never indexes a table outside its bounds
    and never uses a NULL decode context: the run has a result, whatever
    the other calls of the library answer. *)
Theorem create_streams_and_transcode_memory_safe infc outfc file
    (r0 : Run L) :
  scratch_available →
  units_ok (length (streams infc)) (packets infc) →
  is_Some (create_streams_and_transcode infc outfc file r0).1.
Proof.
  intros Hs Hu.
  destruct (create_streams_and_transcode_outcome infc outfc file r0)
    as (new & ios & _ & _ & H & _).
  exact (H Hs Hu).
Qed.

End DriverOutcome.

(** ** The further properties at concrete inputs *)

(** X1 at a concrete input: the scripted encoder accepts the frame and
    hands out one packet. *)
Lemma encode_frame_and_send_writes_in_order_witness :
  let st := (Inputs.frame_sent []).1.1 in
  let c := (Inputs.frame_sent []).1.2 in
  let ins := Script.video_stream in
  let outs := Script.output_stream in
  ∃ new,
    trace (Inputs.encode_frame []).2 = trace (Script.world [] 0) ++ new
    ∧ sent_frames new = [Some Inputs.frame]
    ∧ addr (Inputs.encode_frame []).1.2 = addr Script.encoder
    ∧ (st ≠ 0 → writes new = [] ∧ (Inputs.encode_frame []).1.1 = -1)
    ∧ (st = 0 →
         (writes new
            = (λ p, (forwarded (L := Script.lib) p ins outs 0, 0))
                <$> ready_packets c
          ∧ (Inputs.encode_frame []).1.1
            = (if decide (benign (AVERROR (empty_errno c))) then 0 else -1)
          ∧ ready_packets (deref (Inputs.encode_frame []).1.2) = [])
         ∨ (∃ done p s rest,
              ready_packets c = done ++ p :: rest ∧ s ≠ 0
              ∧ writes new
                = ((λ p, (forwarded (L := Script.lib) p ins outs 0, 0))
                     <$> done)
                  ++ [(forwarded (L := Script.lib) p ins outs 0, s)]
              ∧ (Inputs.encode_frame []).1.1 = -1
              ∧ ready_packets (deref (Inputs.encode_frame []).1.2) = rest)).
Proof.
  intros st c ins outs.
  apply (encode_frame_and_send_writes_in_order (L := Script.lib)
           Script.empty_output Script.encoder Inputs.frame ins outs 0
           (Script.world [] 0) st c (Inputs.frame_sent []).2).
  reflexivity.
Defined.

(** X3 at a concrete input: the decoder accepts the unit and is drained
    with "try again"; the writer fails, and the result is 0 all the same. *)
Lemma transcode_result_decoder_only_witness :
  (Script.transcode_unit [0; 0; -5]).1.1.1
  = (if decide ((Inputs.unit_sent [0; 0; -5]).1.1 ≠ 0) then -1
     else if decide (benign (AVERROR
                       (empty_errno (Inputs.unit_sent [0; 0; -5]).1.2)))
          then 0 else -1).
Proof.
  apply (transcode_result_decoder_only (L := Script.lib) Script.empty_output
           Script.decoder Script.encoder (Script.unit_of 0 7 [x01]%byte)
           Script.video_stream Script.output_stream 0
           (Script.world [0; 0; -5] 0) _ _
           (Inputs.unit_sent [0; 0; -5]).2).
  reflexivity.
Defined.

(** X4 at a concrete input: one coded unit, one frame. *)
Lemma transcode_feeds_encoder_in_order_witness :
  let st := (Inputs.unit_sent []).1.1 in
  let c := (Inputs.unit_sent []).1.2 in
  ∃ new,
    trace (Script.transcode_unit []).2 = trace (Script.world [] 0) ++ new
    ∧ sent_packets new = [Some (Script.unit_of 0 7 [x01]%byte)]
    ∧ sent_frames new
      = (if decide (st ≠ 0) then [] else Some <$> ready_frames c)
    ∧ (st = 0 → ready_frames (deref (Script.transcode_unit []).1.1.2) = [])
    ∧ addr (Script.transcode_unit []).1.1.2 = addr Script.decoder
    ∧ addr (Script.transcode_unit []).1.2 = addr Script.encoder.
Proof.
  intros st c.
  apply (transcode_feeds_encoder_in_order (L := Script.lib)
           Script.empty_output Script.decoder Script.encoder
           (Script.unit_of 0 7 [x01]%byte) Script.video_stream
           Script.output_stream 0 (Script.world [] 0) st c
           (Inputs.unit_sent []).2).
  reflexivity.
Defined.

(** X7 at a concrete input: one coded unit of an audio stream mapped to
    output stream 0, with the scratch packet allocated and the scratch
    frame NULL. *)
Lemma write_body_memory_safe_witness :
  let run :=
    write_body (L := Script.lib_with true false) Script.one_audio_unit
      Script.audio_output Script.audio_mapping
      (Inputs.world_with true false []) in
  (true = true →
   false = true
   ∨ Forall (λ slot, slot = None) (out_codec_contexts Script.audio_mapping) →
   is_Some run.1.1 ∧ tables_ok 1 1 run.1.2)
  ∧ (true = false → run.1.1 = None).
Proof.
  intros run.
  apply (write_body_memory_safe (L := Script.lib_with true false)
           Script.one_audio_unit Script.audio_output Script.audio_mapping
           (Inputs.world_with true false []) true false
           (env (Inputs.world_with true false []))
           (env (Inputs.world_with true false []))).
  - repeat split; try reflexivity.
    + intros [|i] x; cbn; [intros [= <-]; right; lia|].
      destruct i; discriminate.
    + intros [|[|i]] p; discriminate.
  - repeat constructor; cbn; lia.
  - reflexivity.
  - reflexivity.
Defined.

(** [write_body] when a scratch allocation fails.  With the packet NULL
    it is undefined before any call.  With the frame NULL and a stream to
    transcode it is undefined once the decoder has accepted a unit, and
    returns -1 when the decoder rejects the first unit. *)
Lemma write_body_null_scratch_example :
  (let '(body, _, w) :=
     write_body (L := Script.lib_with false true) Script.one_audio_unit
       Script.audio_output Script.audio_mapping
       (Inputs.world_with false true []) in
   body = None ∧ trace w = [])
  ∧ (let '(body, _, w) :=
       write_body (L := Script.lib_with true false) Script.three_units
         Inputs.video_output Inputs.video_mapping
         (Inputs.world_with true false []) in
     body = None
     ∧ trace w
       = [EvReadFrame 0;
          EvSendPacket 0 (Some (Script.unit_of 0 0 [x01]%byte)) 0])
  ∧ (let '(body, _, w) :=
       write_body (L := Script.lib_with true false) Script.three_units
         Inputs.video_output Inputs.video_mapping
         (Inputs.world_with true false [-22]) in
     body = Some (-1)
     ∧ stdout w = ["Failed to send decode packet: Invalid argument"]).
Proof. vm_compute. repeat split; reflexivity. Qed.

(** X8 at a concrete input: two coded units of a dropped subtitle
    stream, with the scratch frame NULL. *)
Lemma write_body_skips_dropped_witness :
  let w := Inputs.world_with true false [] in
  write_body (L := Script.lib_with true false) Inputs.subtitles
    Script.empty_output Inputs.all_dropped w
  = (Some 0, Inputs.all_dropped,
     mkWorld (env w)
       (trace w ++ replicate 2 (EvReadFrame 0) ++ [EvReadFrame AVERROR_EOF])
       (stdout w) (next_addr w)).
Proof.
  intros w.
  apply (write_body_skips_dropped (L := Script.lib_with true false)
           Inputs.subtitles Script.empty_output Inputs.all_dropped w false
           (env w) (env w)).
  - repeat constructor.
  - reflexivity.
  - reflexivity.
Defined.

(** X9 at a concrete input: one coded unit of an audio stream. *)
Lemma write_body_copies_in_order_witness :
  let infc := Script.one_audio_unit in
  let t := Script.audio_mapping in
  let run :=
    write_body (L := Script.lib) infc Script.audio_output t
      (Script.world [] 0) in
  ∃ new,
    trace run.2 = trace (Script.world [] 0) ++ new
    ∧ writes new
      = (λ q, (q, 0))
          <$> omap (copy_of (L := Script.lib) (streams infc)
                      Script.audio_output t) (packets infc)
    ∧ sent_packets new = []
    ∧ run.1.2 = t.
Proof.
  intros infc t run.
  apply (write_body_copies_in_order (L := Script.lib) infc
           Script.audio_output t (Script.world [] 0)).
  - repeat constructor.
  - vm_compute. reflexivity.
Defined.

(** X10 at a concrete input: an input with one subtitle stream. *)
Lemma create_streams_nothing_kept_witness :
  create_streams (L := Script.lib) Inputs.subtitles Script.empty_output
    (Script.fresh_tables 1 77) Script.libx265 (Script.world [] 0)
  = (Some 0, Script.empty_output,
     mkTables (replicate 1 DROPPED) [None] [None], Script.world [] 0).
Proof.
  apply (create_streams_nothing_kept (L := Script.lib) Inputs.subtitles
           Script.empty_output (Script.fresh_tables 1 77) Script.libx265
           (Script.world [] 0)).
  - repeat constructor.
  - reflexivity.
Defined.

(** X11 at a concrete input: a video, a subtitle and an audio stream. *)
Lemma create_streams_success_shape_witness :
  let infc := Script.three_streams in
  let run := Script.map_streams infc [] in
  length (streams run.1.1.2)
  = (length (streams Script.empty_output) + kept_count (streams infc))%nat
  ∧ tables_ok (length (streams infc)) (length (streams run.1.1.2)) run.1.2
  ∧ (∀ i s, streams infc !! i = Some s →
       if decide (is_video s)
       then ∃ p q, in_codec_contexts run.1.2 !! i = Some (Some p)
                   ∧ out_codec_contexts run.1.2 !! i = Some (Some q)
       else in_codec_contexts run.1.2 !! i = Some None
            ∧ out_codec_contexts run.1.2 !! i = Some None).
Proof.
  intros infc run.
  apply (create_streams_success_shape (L := Script.lib) infc
           Script.empty_output (Script.fresh_tables 3 77) Script.libx265
           (Script.world [] 0) run.1.1.2 run.1.2 run.2);
    [repeat split; reflexivity | vm_compute; reflexivity].
Defined.

(** X12 at a concrete input: three coded units of a video stream, with a
    decoder that rejects the second unit. *)
Lemma create_streams_and_transcode_frees_contexts_witness :
  let zs := [0; 0; 0; 0; 0; 0; 0; 0; 0; 0; 0; 0; 0; 0; 0; -5] in
  ∃ new,
    trace (run_world (Inputs.drive Script.three_units zs).2)
      = trace (run_world (ScriptIO.run zs 0)) ++ new
    ∧ allocs new ≡ₚ frees new
    ∧ NoDup (frees new).
Proof.
  intros zs.
  apply (create_streams_and_transcode_frees_contexts (L := Script.lib)
           (IO := ScriptIO.lib) Script.three_units Script.empty_output
           "out.mp4" (ScriptIO.run zs 0)).
  vm_compute. by eexists.
Defined.

(** X13 at a concrete input: the output file cannot be opened. *)
Lemma create_streams_and_transcode_tables_and_file_witness :
  let zs := [0; 0; 0; 0; 0; 0; 0; 0; 0; 0; -2] in
  let run := Inputs.drive Script.three_units zs in
  ∃ al fc fr,
    run_io run.2 = run_io (ScriptIO.run zs 0) ++ al ++ fc ++ fr
    ∧ Forall is_table_alloc al
    ∧ Forall is_table_free fr
    ∧ tables_freed fr = reverse (tables_allocated al)
    ∧ ((fc = [] ∧ run.1 = Some (-1))
       ∨ (∃ s, s ≠ 0 ∧ fc = [IoOpen "out.mp4" s]
               ∧ run.1 = Some (-1)
               ∧ tables_allocated al
                 = [IndexTable; DecodeTable; EncodeTable])
       ∨ (fc = [IoOpen "out.mp4" 0; IoClose]
          ∧ tables_allocated al = [IndexTable; DecodeTable; EncodeTable])).
Proof.
  intros zs run.
  apply (create_streams_and_transcode_tables_and_file (L := Script.lib)
           (IO := ScriptIO.lib) Script.three_units Script.empty_output
           "out.mp4" (ScriptIO.run zs 0)).
  vm_compute. by eexists.
Defined.

(** The table and file calls of that run, and of a run that goes through
    [write_output]. *)
Lemma create_streams_and_transcode_calls_example :
  run_io (Inputs.drive Script.three_units [0; 0; 0; 0; 0; 0; 0; 0; 0; 0; -2]).2
  = [IoAllocTable IndexTable true; IoAllocTable DecodeTable true;
     IoAllocTable EncodeTable true; IoOpen "out.mp4" (-2);
     IoFreeTable EncodeTable; IoFreeTable DecodeTable; IoFreeTable IndexTable]
  ∧ run_io (Inputs.drive Script.three_units []).2
    = [IoAllocTable IndexTable true; IoAllocTable DecodeTable true;
       IoAllocTable EncodeTable true; IoOpen "out.mp4" 0; IoClose;
       IoFreeTable EncodeTable; IoFreeTable DecodeTable;
       IoFreeTable IndexTable].
Proof. vm_compute. split; reflexivity. Qed.

(** X14 at a concrete input: three coded units of the one stream of the
    input, with the library whose scratch allocations succeed. *)
Lemma create_streams_and_transcode_memory_safe_witness :
  is_Some (Inputs.drive Script.three_units []).1.
Proof.
  apply (create_streams_and_transcode_memory_safe (L := Script.lib)
           (IO := ScriptIO.lib) Script.three_units Script.empty_output
           "out.mp4" (ScriptIO.run [] 0)).
  - intros e. split; reflexivity.
  - repeat constructor; cbn; lia.
Defined.
